(** * Start-up and file-selection engine of ctags (main/main.c)

    A shallow embedding of the routines of [main.c] that decide which
    files are handed to the parser: the environment sanitizer, the entry
    classifier, the directory walker (native iteration and the wildcard
    fallback), the three orchestrator loops, the batch main loop and the
    interactive JSON loop.

    Conventions of the embedding.
    - C strings are [string] values without embedded NUL; a [char*] that
      may be NULL is an [option].
    - [unsigned int] is a [Z] with its wrap-around modulo 2^32 written out.
    - The process state touched by [main.c] is the record [State]; every
      routine is a state transformer in the monad [M], whose outcomes
      distinguish a normal return, termination of the process by
      [error (FATAL, ...)], C undefined behaviour, and exhaustion of the
      fuel that bounds the nesting of the directory walk.
    - Calls that leave [main.c] (libc, routines.c, options.c, parse.c,
      args.c, jansson) are fields of the record [Collaborators] or, where
      the spec tells what they do, definitions marked as modelled from
      the spec; calls with an observable effect append an [Event] to the
      log of the state.
      Whether [malloc] finds the memory asked for is such a field; a tag
      file that cannot be opened is not modelled.
    - Conditional compilation is a field of [Collaborators] as well. *)

From Stdlib Require Import ZArith List String Ascii Bool Arith Lia.
Import ListNotations.

Set Warnings "-register-all".

Open Scope string_scope.
Open Scope list_scope.

Infix "+++" := String.append (right associativity, at level 60).

(** ** C strings *)

Module CStr.

Definition DQ : string := String "034"%char EmptyString.
Definition NL : string := String "010"%char EmptyString.
Definition newline : ascii := "010"%char.
Definition NUL : ascii := "000"%char.

Definition strlen (s : string) : nat := String.length s.

(** [strncmp (a, b, n) == 0]: the first [n] characters agree, the
    terminator counting as a character. *)
Fixpoint strncmp_eq (a b : string) (n : nat) {struct n} : bool :=
  match n with
  | O => true
  | S n' =>
      match a, b with
      | EmptyString, EmptyString => true
      | String c a', String d b' =>
          if Ascii.eqb c d then strncmp_eq a' b' n' else false
      | _, _ => false
      end
  end.

(** [strcmp (a, b) == 0]. *)
Definition strcmp_eq (a b : string) : bool := String.eqb a b.

(** [strchr (s, c)]: [None] for NULL, otherwise the text before the first
    [c] and the text from that [c] on (the pointer returned). *)
Fixpoint strchr (s : string) (c : ascii) : option (string * string) :=
  match s with
  | EmptyString => None
  | String d s' =>
      if Ascii.eqb d c then Some (EmptyString, s)
      else match strchr s' c with
           | Some (before, from) => Some (String d before, from)
           | None => None
           end
  end.

(** [p + 1] for a pointer into a string. *)
Definition advance (p : string) : string :=
  match p with
  | EmptyString => EmptyString
  | String _ p' => p'
  end.

(** The C string held by a byte buffer: the bytes before the first NUL. *)
Fixpoint c_str (buffer : list ascii) : string :=
  match buffer with
  | [] => EmptyString
  | c :: rest => if Ascii.eqb c NUL then EmptyString else String c (c_str rest)
  end.

Fixpoint take (n : nat) (s : string) : string :=
  match n, s with
  | S n', String c s' => String c (take n' s')
  | _, _ => EmptyString
  end.

(** The last character of [s] is [c]. *)
Fixpoint ends_with (c : ascii) (s : string) : bool :=
  match s with
  | EmptyString => false
  | String d rest =>
      match rest with
      | EmptyString => Ascii.eqb d c
      | String _ _ => ends_with c rest
      end
  end.

(** [s] without its last character. *)
Fixpoint without_last (s : string) : string :=
  match s with
  | EmptyString => EmptyString
  | String d rest =>
      match rest with
      | EmptyString => EmptyString
      | String _ _ => String d (without_last rest)
      end
  end.

End CStr.
Import CStr.

(** ** Events, options and process state *)

Inductive FormatArg : Type :=
| ArgS (s : string)      (* %s *)
| ArgU (u : Z).          (* %u *)

Inductive errorSelection : Type := FATAL | WARNING | PERROR.

Inductive Event : Type :=
| EvStat (path : string)
| EvVerbose (format : string) (args : list FormatArg)
| EvError (selection : list errorSelection) (format : string)
          (args : list FormatArg)
| EvParseFile (fileName : string) (resize : bool)
| EvParseFileWithMio (fileName : string) (data : list ascii)
| EvOpenTagFile
| EvCloseTagFile (resize : bool)
| EvFputs (s : string)
| EvFflush
| EvPrintTotals
| EvJsonDecref.

Record Options : Type := mkOptions {
  recurse : bool;
  maxRecursionDepth : Z;
  followLinks : bool;
  fileList : option string;
  filter : bool;
  filterTerminator : option string;
  printLanguage : bool;
  printTotals : bool;
  etags : bool;
  etagsInclude : option (list string);
  (* settings main.c never reads (exclusion patterns, language maps, ...),
     kept as the option strings that established them *)
  otherSettings : list string
}.

Record State : Type := mkState {
  Option : Options;            (* the global Option *)
  recursionDepth : Z;          (* static of recurseIntoDirectory *)
  environ : list string;       (* the environment table *)
  stdin : list ascii;          (* unread standard input *)
  log : list Event             (* observable calls so far *)
}.

Definition two32 : Z := 4294967296.
Definition two64 : Z := 18446744073709551616.

(** Arithmetic of [unsigned int]. *)
Definition wrap32 (z : Z) : Z := z mod two32.

Definition well_formed (st : State) : Prop :=
  (0 <= recursionDepth st < two32)%Z.

(** ** Outcomes and the monad of the embedding *)

Inductive Outcome (A : Type) : Type :=
| Returned (a : A) (st : State)
| Exited (st : State)
| Undefined
| OutOfFuel.

Arguments Returned {A} a st.
Arguments Exited {A} st.
Arguments Undefined {A}.
Arguments OutOfFuel {A}.

Definition M (A : Type) : Type := State -> Outcome A.

Definition ret {A} (a : A) : M A := fun st => Returned a st.

Definition bind {A B} (m : M A) (k : A -> M B) : M B :=
  fun st =>
    match m st with
    | Returned a st' => k a st'
    | Exited st' => Exited st'
    | Undefined => Undefined
    | OutOfFuel => OutOfFuel
    end.

Declare Scope prog_scope.
Delimit Scope prog_scope with prog.
Bind Scope prog_scope with M.

Notation "x <- c1 ;; c2" := (bind c1 (fun x => c2))
  (at level 100, c1 at next level, right associativity) : prog_scope.
Notation "c1 ;; c2" := (bind c1 (fun _ => c2))
  (at level 100, right associativity) : prog_scope.

Open Scope prog_scope.

Definition set_log (st : State) (l : list Event) : State :=
  mkState (Option st) (recursionDepth st) (environ st) (stdin st) l.

Definition set_recursionDepth (st : State) (d : Z) : State :=
  mkState (Option st) d (environ st) (stdin st) (log st).

Definition set_Option (st : State) (o : Options) : State :=
  mkState o (recursionDepth st) (environ st) (stdin st) (log st).

Definition set_stdin (st : State) (i : list ascii) : State :=
  mkState (Option st) (recursionDepth st) (environ st) i (log st).

Definition set_environ (st : State) (e : list string) : State :=
  mkState (Option st) (recursionDepth st) e (stdin st) (log st).

Definition emit (e : Event) : M unit :=
  fun st => Returned tt (set_log st (log st ++ [e])).

Definition getOption : M Options := fun st => Returned (Option st) st.

Definition when (b : bool) (m : M unit) : M unit := if b then m else ret tt.

Definition undefined {A} : M A := fun _ => Undefined.
Definition outOfFuel {A} : M A := fun _ => OutOfFuel.

Definition selected (flag : errorSelection) (sel : list errorSelection) : bool :=
  existsb (fun f => match f, flag with
                    | FATAL, FATAL | WARNING, WARNING | PERROR, PERROR => true
                    | _, _ => false
                    end) sel.

(** Modelled from the spec: [error] of error.c is not in main.c. A message
    is reported; a selection that contains FATAL terminates the process
    at once, any other selection is recoverable and processing continues. *)
Definition error (selection : list errorSelection) (format : string)
    (args : list FormatArg) : M unit :=
  fun st =>
    let st' := set_log st (log st ++ [EvError selection format args]) in
    if selected FATAL selection then Exited st' else Returned tt st'.

(** [verbose] of routines.c: the call is recorded, whether the message is
    printed is decided there. *)
Definition verbose (format : string) (args : list FormatArg) : M unit :=
  emit (EvVerbose format args).

Definition openTagFile : M unit := emit EvOpenTagFile.
Definition closeTagFile (resize : bool) : M unit := emit (EvCloseTagFile resize).
Definition fputs_stdout (s : string) : M unit := emit (EvFputs s).
Definition fflush_stdout : M unit := emit EvFflush.

(** ** Collaborators of main.c *)

(** [fileStatus] of routines.h, the fields main.c reads. *)
Record fileStatus : Type := mkFileStatus {
  exists_ : bool;
  isSymbolicLink : bool;
  isDirectory : bool;
  isNormalFile : bool
}.

(** Which directory iteration the build selected:
    [#if defined (HAVE_OPENDIR)], [#elif defined (HAVE_FINDFIRST) ||
    defined (HAVE__FINDFIRST)], or neither. *)
Inductive DirectoryIteration : Type :=
| HAVE_OPENDIR
| HAVE_FINDFIRST
| NO_ITERATION.

(** A JSON value as jansson hands it over (reals are left out). *)
Inductive json : Type :=
| JNull
| JBoolean (b : bool)
| JInteger (i : Z)
| JString (s : string)
| JArray (items : list json)
| JObject (members : list (string * json)).

(** Modelled from the spec: the cooked argument stream of args.c is not in
    main.c. It is a forward-only sequence of tokens, each one an option or
    a positional item. *)
Record token : Type := mkToken {
  isOption : bool;
  item : string
}.

Definition cookedArgs : Type := list token.

Record Collaborators : Type := mkCollaborators {
  (* build configuration and macros *)
  directoryIteration : DirectoryIteration;
  MANUAL_GLOBBING : bool;
  HAVE_ENVIRON : bool;
  OUTPUT_PATH_SEPARATOR : ascii;
  PROGRAM_NAME : string;
  PROGRAM_VERSION : string;
  (* routines.c *)
  eStat_result : string -> fileStatus;
  isRecursiveLink : string -> bool;
  baseFilename_offset : string -> nat;
  getExecutableName : string;
  (* options.c *)
  isExcludedFile : Options -> string -> bool;
  parseOption : string -> Options -> Options;
  filesRequired : Options -> bool;
  (* parse.c *)
  parseFile_result : Options -> string -> bool;
  (* libc and its platform variants *)
  opendir : string -> option (list string);
  findfirst : string -> list string;
  fopen : string -> option (list ascii);
  malloc : Z -> bool;          (* memory of this size is found *)
  (* args.c *)
  cArgNewFromLineFile : list ascii -> cookedArgs;
  (* jansson *)
  json_loads : string -> option json
}.

(** *** The argument cursor *)

(** Modelled from the spec: [cArgOff] of args.c; the cursor has run off
    the end of the sequence. *)
Definition cArgOff (args : cookedArgs) : bool :=
  match args with
  | [] => true
  | _ :: _ => false
  end.

(** Modelled from the spec: [cArgItem] of args.c; the token at the
    cursor. *)
Definition cArgItem (args : cookedArgs) : string :=
  match args with
  | [] => EmptyString
  | t :: _ => item t
  end.

(** Modelled from the spec: [cArgForth] of args.c; the cursor moves one
    token forward. *)
Definition cArgForth (args : cookedArgs) : cookedArgs := tl args.

(** *** jansson accessors *)

Fixpoint assoc (key : string) (members : list (string * json)) : option json :=
  match members with
  | [] => None
  | (k, v) :: rest => if String.eqb k key then Some v else assoc key rest
  end.

Definition json_object_get (j : json) (key : string) : option json :=
  match j with
  | JObject members => assoc key members
  | _ => None
  end.

Definition json_string_value (j : json) : option string :=
  match j with
  | JString s => Some s
  | _ => None
  end.

(** [json_unpack (j, "{ss}", key, &out)]: [Some] the string on success
    (return value 0), [None] for the return value -1. *)
Definition json_unpack_ss (j : json) (key : string) : option string :=
  match json_object_get j key with
  | Some (JString s) => Some s
  | _ => None
  end.

(** [json_unpack (j, "{sI}", key, &out)]: [out] is written on success only. *)
Definition json_unpack_sI (j : json) (key : string) (out : Z) : Z :=
  match json_object_get j key with
  | Some (JInteger i) => i
  | _ => out
  end.

(** *** Standard input *)

(** The characters [fgets] stores for a buffer with room for [k]
    characters, and what stays unread. *)
Fixpoint read_line (k : nat) (input : list ascii) : list ascii * list ascii :=
  match k, input with
  | S k', c :: rest =>
      if Ascii.eqb c newline then ([c], rest)
      else let (line, unread) := read_line k' rest in (c :: line, unread)
  | _, _ => ([], input)
  end.

(** [fgets (buffer, size, stdin)]: [None] is the NULL of end of input. *)
Definition fgets (size : nat) : M (option (list ascii)) :=
  fun st =>
    match stdin st with
    | [] => Returned None st
    | _ :: _ =>
        let (line, unread) := read_line (size - 1) (stdin st) in
        Returned (Some line) (set_stdin st unread)
    end.

(** [fread (data, 1, n, stdin)]: the bytes read; their number is the
    return value. *)
Definition fread (n : Z) : M (list ascii) :=
  fun st =>
    Returned (firstn (Z.to_nat n) (stdin st))
             (set_stdin st (skipn (Z.to_nat n) (stdin st))).

(** Conversion of a [json_int_t] to [size_t]. *)
Definition to_size_t (z : Z) : Z := z mod two64.

(** ** The routines of main.c *)

Section Routines.

Variable X : Collaborators.

(** [eStat]: the status query is recorded in the log. *)
Definition eStat (path : string) : M fileStatus :=
  emit (EvStat path) ;; ret (eStat_result X path).

(** [parseFile]: the call and the resize verdict it returns are recorded. *)
Definition parseFile (fileName : string) : M bool :=
  opt <- getOption ;;
  let resize := parseFile_result X opt fileName in
  emit (EvParseFile fileName resize) ;; ret resize.

Definition parseFileWithMio (fileName : string) (data : list ascii) : M unit :=
  emit (EvParseFileWithMio fileName data).

(** Modelled from the spec: [parseCmdlineOptions] of options.c is not in
    main.c. Option tokens at the cursor are consumed and applied until the
    cursor rests on a positional item or runs off the end. *)
Fixpoint parseCmdlineOptions (args : cookedArgs) : M cookedArgs :=
  match args with
  | [] => ret args
  | t :: rest =>
      if isOption t then
        (fun st => Returned tt (set_Option st (parseOption X (item t) (Option st)))) ;;
        parseCmdlineOptions rest
      else ret args
  end.

(** Modelled from the spec: [eMalloc] of routines.c is not in main.c. It
    returns the memory [malloc] finds; memory that cannot be had is a
    fatal error. *)
Definition eMalloc (size : Z) : M unit :=
  if malloc X size then ret tt else error [FATAL] "out of memory" [].

(** *** Directory expansion *)

(** Modelled from the spec: [combinePathAndFile] of routines.c is not in
    main.c. The directory name and the file name are joined by the path
    separator; a directory name that ends with the separator already is
    not given a second one, so that the entry [b.c] of [subdir/] is
    [subdir/b.c]. *)
Definition combinePathAndFile (path file : string) : string :=
  if ends_with (OUTPUT_PATH_SEPARATOR X) path then path +++ file
  else path +++ String (OUTPUT_PATH_SEPARATOR X) file.

Definition is_dot_entry (name : string) : bool :=
  strcmp_eq name "." || strcmp_eq name "..".

(** The [while ((entry = readdir (dir)) != NULL)] loop of
    [recurseUsingOpendir], over the names [readdir] still has to return. *)
Fixpoint readdir_loop (createTagsForEntry : string -> M bool)
    (dirName : string) (entries : list string) (resize : bool) : M bool :=
  match entries with
  | [] => ret resize
  | d_name :: rest =>
      if negb (strcmp_eq d_name ".") && negb (strcmp_eq d_name "..") then
        let filePath :=
          if strcmp_eq dirName "." then d_name
          else combinePathAndFile dirName d_name in
        r <- createTagsForEntry filePath ;;
        readdir_loop createTagsForEntry dirName rest (resize || r)
      else
        readdir_loop createTagsForEntry dirName rest resize
  end.

Definition recurseUsingOpendir (createTagsForEntry : string -> M bool)
    (dirName : string) : M bool :=
  match opendir X dirName with
  | None =>
      error [WARNING; PERROR]
            ("cannot recurse into directory " +++ DQ +++ "%s" +++ DQ)
            [ArgS dirName] ;;
      ret false
  | Some entries => readdir_loop createTagsForEntry dirName entries false
  end.

Definition createTagsForWildcardEntry (createTagsForEntry : string -> M bool)
    (pattern : string) (dirLength : nat) (entryName : string) : M bool :=
  (* we must not recurse into the directories "." or ".." *)
  if negb (strcmp_eq entryName ".") && negb (strcmp_eq entryName "..") then
    let filePath := take dirLength pattern +++ entryName in
    createTagsForEntry filePath
  else ret false.

(** The find-first/find-next loop, over the names still to be found. *)
Fixpoint findnext_loop (createTagsForEntry : string -> M bool)
    (pattern : string) (dirLength : nat) (found : list string)
    (resize : bool) : M bool :=
  match found with
  | [] => ret resize
  | entry :: rest =>
      r <- createTagsForWildcardEntry createTagsForEntry pattern dirLength entry ;;
      findnext_loop createTagsForEntry pattern dirLength rest (resize || r)
  end.

Definition createTagsForWildcardUsingFindfirst
    (createTagsForEntry : string -> M bool) (pattern : string) : M bool :=
  let dirLength := baseFilename_offset X pattern in
  findnext_loop createTagsForEntry pattern dirLength (findfirst X pattern) false.

Definition wildcard_pattern (dirName : string) : string :=
  dirName +++ String (OUTPUT_PATH_SEPARATOR X) "*.*".

Definition recurseIntoDirectory (createTagsForEntry : string -> M bool)
    (dirName : string) : M bool :=
  (* recursionDepth++ *)
  (fun st => Returned tt
     (set_recursionDepth st (wrap32 (recursionDepth st + 1)))) ;;
  opt <- getOption ;;
  depth <- (fun st => Returned (recursionDepth st) st) ;;
  resize <-
    (if isRecursiveLink X dirName then
       verbose ("ignoring " +++ DQ +++ "%s" +++ DQ +++ " (recursive link)" +++ NL)
               [ArgS dirName] ;;
       ret false
     else if negb (recurse opt) then
       verbose ("ignoring " +++ DQ +++ "%s" +++ DQ +++ " (directory)" +++ NL)
               [ArgS dirName] ;;
       ret false
     else if (depth >? maxRecursionDepth opt)%Z then
       verbose ("not descending in directory " +++ DQ +++ "%s" +++ DQ
                +++ " (depth %u > %u)" +++ NL)
               [ArgS dirName; ArgU depth; ArgU (maxRecursionDepth opt)] ;;
       ret false
     else
       verbose ("RECURSING into directory " +++ DQ +++ "%s" +++ DQ +++ NL)
               [ArgS dirName] ;;
       match directoryIteration X with
       | HAVE_OPENDIR => recurseUsingOpendir createTagsForEntry dirName
       | HAVE_FINDFIRST =>
           createTagsForWildcardUsingFindfirst createTagsForEntry
             (wildcard_pattern dirName)
       | NO_ITERATION => ret false
       end) ;;
  (* recursionDepth-- *)
  (fun st => Returned tt
     (set_recursionDepth st (wrap32 (recursionDepth st - 1)))) ;;
  ret resize.

(** [createTagsForEntry]; [fuel] bounds the nesting of directories still
    allowed below this entry. *)
Fixpoint createTagsForEntry (fuel : nat) (entryName : string) : M bool :=
  match fuel with
  | O => outOfFuel
  | S fuel' =>
      status <- eStat entryName ;;
      opt <- getOption ;;
      if isExcludedFile X opt entryName then
        verbose ("excluding " +++ DQ +++ "%s" +++ DQ +++ NL) [ArgS entryName] ;;
        ret false
      else if isSymbolicLink status && negb (followLinks opt) then
        verbose ("ignoring " +++ DQ +++ "%s" +++ DQ +++ " (symbolic link)" +++ NL)
                [ArgS entryName] ;;
        ret false
      else if negb (exists_ status) then
        error [WARNING; PERROR]
              ("cannot open input file " +++ DQ +++ "%s" +++ DQ)
              [ArgS entryName] ;;
        ret false
      else if isDirectory status then
        recurseIntoDirectory (createTagsForEntry fuel') entryName
      else if negb (isNormalFile status) then
        verbose ("ignoring " +++ DQ +++ "%s" +++ DQ +++ " (special file)" +++ NL)
                [ArgS entryName] ;;
        ret false
      else
        parseFile entryName
  end.

(** *** Orchestrator *)

(** [createTagsForWildcardArg], compiled under [MANUAL_GLOBBING]. Its body
    is empty unless a find-first variant is available. [patternS] points
    into the buffer of [pattern] and sees what is appended to it. *)
Definition createTagsForWildcardArg (fuel : nat) (arg : string) : M bool :=
  match directoryIteration X with
  | HAVE_FINDFIRST =>
      opt <- getOption ;;
      let patternS :=
        if recurse opt && (strcmp_eq arg "." || strcmp_eq arg "..")
        then wildcard_pattern arg else arg in
      createTagsForWildcardUsingFindfirst (createTagsForEntry fuel) patternS
  | _ => ret false
  end.

(** The [while (! cArgOff (args))] loop of [createTagsForArgs]; [n] bounds
    the number of iterations and never runs out when it starts at the
    length of [args]. The cursor left behind is returned with the flag. *)
Fixpoint createTagsForArgs_loop (fuel n : nat) (args : cookedArgs)
    (resize : bool) : M (bool * cookedArgs) :=
  if cArgOff args then ret (resize, args)
  else
    match n with
    | O => outOfFuel
    | S n' =>
        let arg := cArgItem args in
        r <- (if MANUAL_GLOBBING X then createTagsForWildcardArg fuel arg
              else createTagsForEntry fuel arg) ;;
        args' <- parseCmdlineOptions (cArgForth args) ;;
        createTagsForArgs_loop fuel n' args' (resize || r)
    end.

Definition createTagsForArgs (fuel : nat) (args : cookedArgs)
    : M (bool * cookedArgs) :=
  createTagsForArgs_loop fuel (List.length args) args false.

(** A [FILE*] main.c reads names from: standard input or a file opened
    with [fopen], given by its content. *)
Inductive FILE : Type :=
| Stdin
| Opened (content : list ascii).

(** The cursor over the lines of a stream; a stream read through such a
    cursor is read to its end. *)
Definition cArgNewFromLineFile_of (fp : FILE) : M cookedArgs :=
  match fp with
  | Stdin => fun st => Returned (cArgNewFromLineFile X (stdin st)) (set_stdin st [])
  | Opened content => ret (cArgNewFromLineFile X content)
  end.

Fixpoint createTagsFromFileInput_loop (fuel n : nat) (args : cookedArgs)
    (filter : bool) (resize : bool) : M bool :=
  if cArgOff args then ret resize
  else
    match n with
    | O => outOfFuel
    | S n' =>
        r <- createTagsForEntry fuel (cArgItem args) ;;
        (if filter then
           opt <- getOption ;;
           match filterTerminator opt with
           | Some terminator => fputs_stdout terminator
           | None => ret tt
           end ;;
           fflush_stdout
         else ret tt) ;;
        args' <- parseCmdlineOptions (cArgForth args) ;;
        createTagsFromFileInput_loop fuel n' args' filter (resize || r)
    end.

(** Read from an opened file a list of file names for which to generate
    tags. *)
Definition createTagsFromFileInput (fuel : nat) (fp : option FILE)
    (filter : bool) : M bool :=
  match fp with
  | None => ret false
  | Some f =>
      args <- cArgNewFromLineFile_of f ;;
      args <- parseCmdlineOptions args ;;
      createTagsFromFileInput_loop fuel (List.length args) args filter false
  end.

(** Read from a named file a list of file names for which to generate
    tags. *)
Definition createTagsFromListFile (fuel : nat) (fileName : string) : M bool :=
  if strcmp_eq fileName "-" then
    createTagsFromFileInput fuel (Some Stdin) false
  else
    match fopen X fileName with
    | None =>
        error [FATAL; PERROR]
              ("cannot open list file " +++ DQ +++ "%s" +++ DQ)
              [ArgS fileName] ;;
        createTagsFromFileInput fuel None false
    | Some content => createTagsFromFileInput fuel (Some (Opened content)) false
    end.

(** [etagsInclude ()] of main.c; the name [etagsInclude] is the field of
    [Option] it reads. *)
Definition etagsIncluded (opt : Options) : bool :=
  etags opt && match etagsInclude opt with Some _ => true | None => false end.

(** [printTotals (timeStamps)]: the report goes to standard error; its
    text (counters and floating-point intervals) is not modelled. *)
Definition printTotals_call : M unit := emit EvPrintTotals.

Definition is_some {A} (o : option A) : bool :=
  match o with Some _ => true | None => false end.

(** [batchMakeTags]. The cursor it leaves behind is returned for [main].
    [returned] tells whether the early [return] was taken. The three
    [timeStamp (n)] statements only read the clock. *)
Definition batchMakeTags (fuel : nat) (args : cookedArgs) : M cookedArgs :=
  opt <- getOption ;;
  let files := negb (cArgOff args) || is_some (fileList opt) || filter opt in
  returned <-
    (if negb files then
       if filesRequired X opt then
         error [FATAL]
               ("No files specified. Try " +++ DQ +++ "%s --help" +++ DQ +++ ".")
               [ArgS (getExecutableName X)] ;;
         ret false
       else if negb (recurse opt) && negb (etagsIncluded opt) then ret true
       else ret false
     else ret false) ;;
  if returned : bool then ret args
  else
    when (negb (filter opt) && negb (printLanguage opt)) openTagFile ;;
    ra <- (if negb (cArgOff args) then
             verbose ("Reading command line arguments" +++ NL) [] ;;
             createTagsForArgs fuel args
           else ret (false, args)) ;;
    let resize := fst ra in
    let args := snd ra in
    opt <- getOption ;;
    resize <- match fileList opt with
              | Some name =>
                  verbose ("Reading list file" +++ NL) [] ;;
                  r <- createTagsFromListFile fuel name ;;
                  ret (r || resize)
              | None => ret resize
              end ;;
    opt <- getOption ;;
    resize <- (if filter opt then
                 verbose ("Reading filter input" +++ NL) [] ;;
                 r <- createTagsFromFileInput fuel (Some Stdin) true ;;
                 ret (r || resize)
               else ret resize) ;;
    opt <- getOption ;;
    resize <- (if negb files && recurse opt then
                 recurseIntoDirectory (createTagsForEntry fuel) "."
               else ret resize) ;;
    opt <- getOption ;;
    when (negb (filter opt) && negb (printLanguage opt)) (closeTagFile resize) ;;
    when (printTotals opt) printTotals_call ;;
    ret args.

(** *** Interactive loop (compiled under [HAVE_JANSSON]) *)

Definition program_line : string :=
  "{" +++ DQ +++ "_type" +++ DQ +++ ": " +++ DQ +++ "program" +++ DQ +++ ", "
  +++ DQ +++ "name" +++ DQ +++ ": " +++ DQ +++ PROGRAM_NAME X +++ DQ +++ ", "
  +++ DQ +++ "version" +++ DQ +++ ": " +++ DQ +++ PROGRAM_VERSION X +++ DQ
  +++ "}" +++ NL.

Definition completed_line : string :=
  "{" +++ DQ +++ "_type" +++ DQ +++ ": " +++ DQ +++ "completed" +++ DQ +++ ", "
  +++ DQ +++ "command" +++ DQ +++ ": " +++ DQ +++ "generate-tags" +++ DQ
  +++ "}" +++ NL.

Definition json_decref : M unit := emit EvJsonDecref.

(** One iteration of the [while (fgets ...)] loop from [json_loads] on,
    for a line that is not empty. The statements after an
    [error (FATAL, ...)] are those the [goto next] leads to. *)
Definition interactiveRequest (fuel : nat) (buffer : list ascii) : M unit :=
  match json_loads X (c_str buffer) with
  | None =>
      error [FATAL] "invalid json" [] ;;
      ret tt                                 (* json_decref (NULL) *)
  | Some request =>
      match json_object_get request "command" with
      | None =>
          error [FATAL] "command name not found" [] ;;
          json_decref
      | Some command =>
          match json_string_value command with
          | None => undefined                (* strcmp (..., NULL) *)
          | Some name =>
              if strcmp_eq "generate-tags" name then
                match json_unpack_ss request "filename" with
                | None =>
                    error [FATAL] "invalid generate-tags request" [] ;;
                    json_decref
                | Some filename =>
                    let size := json_unpack_sI request "size" (-1) in
                    openTagFile ;;
                    (if (size =? -1)%Z then
                       (* read from disk *)
                       createTagsForEntry fuel filename ;; ret tt
                     else
                       (* read nbytes from stream *)
                       eMalloc (to_size_t size) ;;
                       data <- fread (to_size_t size) ;;
                       parseFileWithMio filename data) ;;
                    closeTagFile false ;;
                    fputs_stdout completed_line ;;
                    fflush_stdout ;;
                    json_decref
                end
              else
                error [FATAL] "unknown command name" [] ;;
                json_decref
          end
      end
  end.

(** The [while (fgets (buffer, sizeof (buffer), stdin))] loop; [n] bounds
    the number of [fgets] calls. *)
Fixpoint interactiveLoop_loop (fuel n : nat) : M unit :=
  match n with
  | O => outOfFuel
  | S n' =>
      line <- fgets 1024 ;;
      match line with
      | None => ret tt
      | Some buffer =>
          (if Ascii.eqb (hd NUL buffer) newline then ret tt    (* continue *)
           else interactiveRequest fuel buffer) ;;
          interactiveLoop_loop fuel n'
      end
  end.

Definition interactiveLoop (fuel : nat) : M unit :=
  fputs_stdout program_line ;;
  fflush_stdout ;;
  fun st => interactiveLoop_loop fuel (S (List.length (stdin st))) st.

(** *** Environment sanitizer *)

Definition safe_vars : list (option string) :=
  [Some "BASH_FUNC_module()="; Some "BASH_FUNC_scl()="; None].

(** The loop [for (sv = safe_vars[0]; sv != NULL; sv++)] of [isSafeVar].
    [sv] is a [const char *]: it starts at the first character of the
    first name and [sv++] moves it one character forward inside that name.
    Such a pointer is never NULL; moving it past the terminator leaves the
    string literal, which is [None] here. *)
Fixpoint isSafeVar_loop (sv : string) (var : string) : option bool :=
  if strncmp_eq var sv (strlen sv) then Some true
  else
    match sv with
    | String _ sv' => isSafeVar_loop sv' var
    | EmptyString => None
    end.

Definition isSafeVar (var : string) : option bool :=
  match nth 0 safe_vars None with
  | None => Some false
  | Some sv => isSafeVar_loop sv var
  end.

(** The body of the loop of [sanitizeEnviron] for the entry [e [i]]; the
    entry as it stands in the table afterwards is returned. *)
Definition sanitizeEntry (entry : string) : M string :=
  match strchr entry "="%char with
  | None => ret entry                       (* continue *)
  | Some (name, from_equals) =>
      let value := advance from_equals in   (* value++ *)
      if strncmp_eq value "() {" 4 then
        match isSafeVar entry with
        | None => undefined
        | Some true => ret entry            (* continue *)
        | Some false =>
            error [WARNING] "reset environment: %s" [ArgS entry] ;;
            ret (name +++ "=")              (* value [0] = '\0' *)
        end
      else ret entry
  end.

Fixpoint sanitizeEnviron_loop (e : list string) : M (list string) :=
  match e with
  | [] => ret []
  | entry :: rest =>
      entry' <- sanitizeEntry entry ;;
      rest' <- sanitizeEnviron_loop rest ;;
      ret (entry' :: rest')
  end.

Definition sanitizeEnviron : M unit :=
  if HAVE_ENVIRON X then
    e <- (fun st => Returned (environ st) st) ;;
    e' <- sanitizeEnviron_loop e ;;
    fun st => Returned tt (set_environ st e')
  else ret tt.

End Routines.

(** ** Notions the statements are phrased with *)

Section Notions.

Variable X : Collaborators.

(** Path under which [recurseUsingOpendir] hands a directory entry to the
    classifier. *)
Definition opendir_child (dirName name : string) : string :=
  if strcmp_eq dirName "." then name else combinePathAndFile X dirName name.

(** Path under which [createTagsForWildcardEntry] hands a match to the
    classifier. *)
Definition wildcard_child (pattern name : string) : string :=
  take (baseFilename_offset X pattern) pattern +++ name.

Definition not_dot_entry (name : string) : bool := negb (is_dot_entry name).

(** The paths classified when [dirName] is expanded. *)
Definition walker_children (dirName : string) : list string :=
  match directoryIteration X with
  | HAVE_OPENDIR =>
      match opendir X dirName with
      | Some entries =>
          map (opendir_child dirName) (List.filter not_dot_entry entries)
      | None => []
      end
  | HAVE_FINDFIRST =>
      map (wildcard_child (wildcard_pattern X dirName))
          (List.filter not_dot_entry (findfirst X (wildcard_pattern X dirName)))
  | NO_ITERATION => []
  end.

(** The directory tree is at most [B] levels deep: [rank] bounds the
    levels below a path and decreases from a directory to its children. *)
Definition height_bounded (rank : string -> nat) (B : nat) : Prop :=
  (forall p, rank p <= B) /\
  (forall dirName child, In child (walker_children dirName) ->
                         rank child < rank dirName).

(** Classify each path in turn and accumulate the verdicts by OR. *)
Fixpoint dispatchChildren (classifier : string -> M bool)
    (paths : list string) (resize : bool) : M bool :=
  match paths with
  | [] => ret resize
  | p :: rest =>
      r <- classifier p ;;
      dispatchChildren classifier rest (resize || r)
  end.

(** The directory name as the separator follows it in the path of a
    child: without the separator it may end with. *)
Definition stem (dirName : string) : string :=
  if ends_with (OUTPUT_PATH_SEPARATOR X) dirName then without_last dirName
  else dirName.

(** The options in force and the events written to standard output for
    each item of a name list read in filter mode: the options that precede
    an item are applied first; after the item the terminator is written if
    one is configured, then the stream is flushed. *)
Definition terminator_events (opt : Options) : list Event :=
  match filterTerminator opt with
  | Some terminator => [EvFputs terminator]
  | None => []
  end.

Fixpoint filter_output (tokens : cookedArgs) (opt : Options) : list Event :=
  match tokens with
  | [] => []
  | t :: rest =>
      if isOption t then filter_output rest (parseOption X (item t) opt)
      else terminator_events opt ++ [EvFflush] ++ filter_output rest opt
  end.

(** The tokens a [FILE*] yields in state [st]. *)
Definition tokens_of (fp : FILE) (st : State) : cookedArgs :=
  match fp with
  | Stdin => cArgNewFromLineFile X (stdin st)
  | Opened content => cArgNewFromLineFile X content
  end.

End Notions.

Definition append_log (st : State) (events : list Event) : State :=
  set_log st (log st ++ events).

(** The verdicts of the [parseFile] calls among [events], folded by OR. *)
Definition any_parse_true (events : list Event) : bool :=
  existsb (fun e => match e with EvParseFile _ r => r | _ => false end) events.

(** Events the classifier and the walker produce. *)
Definition walker_event (e : Event) : Prop :=
  match e with
  | EvStat _ | EvVerbose _ _ | EvParseFile _ _ => True
  | EvError selection _ _ => selected FATAL selection = false
  | _ => False
  end.

(** Events of a scan: those of the walker, and the terminator and flush
    of filter mode. *)
Definition scan_event (e : Event) : Prop :=
  match e with
  | EvFputs _ | EvFflush => True
  | _ => walker_event e
  end.

Definition is_stdout_write (e : Event) : bool :=
  match e with
  | EvFputs _ | EvFflush => true
  | _ => false
  end.

Definition stdout_writes (events : list Event) : list Event :=
  List.filter is_stdout_write events.

(** The branches of the entry classifier and the first-match order in
    which the decision is taken. *)
Inductive Branch : Type :=
| BrExcluded
| BrSymbolicLink
| BrMissing
| BrDirectory
| BrSpecial
| BrRegular.

Definition classify (excluded followLinks : bool) (status : fileStatus) : Branch :=
  if excluded then BrExcluded
  else if isSymbolicLink status && negb followLinks then BrSymbolicLink
  else if negb (exists_ status) then BrMissing
  else if isDirectory status then BrDirectory
  else if negb (isNormalFile status) then BrSpecial
  else BrRegular.

(** The diagnostics of the entry classifier and of the walker. *)
Definition quoted_name_format (before after : string) : string :=
  before +++ DQ +++ "%s" +++ DQ +++ after.

Definition excluding_event (name : string) : Event :=
  EvVerbose (quoted_name_format "excluding " NL) [ArgS name].
Definition symbolic_link_event (name : string) : Event :=
  EvVerbose (quoted_name_format "ignoring " (" (symbolic link)" +++ NL)) [ArgS name].
Definition cannot_open_event (name : string) : Event :=
  EvError [WARNING; PERROR] (quoted_name_format "cannot open input file " "") [ArgS name].
Definition special_file_event (name : string) : Event :=
  EvVerbose (quoted_name_format "ignoring " (" (special file)" +++ NL)) [ArgS name].
Definition recursive_link_event (name : string) : Event :=
  EvVerbose (quoted_name_format "ignoring " (" (recursive link)" +++ NL)) [ArgS name].
Definition ignored_directory_event (name : string) : Event :=
  EvVerbose (quoted_name_format "ignoring " (" (directory)" +++ NL)) [ArgS name].
Definition depth_exceeded_event (name : string) (depth limit : Z) : Event :=
  EvVerbose (quoted_name_format "not descending in directory "
                                (" (depth %u > %u)" +++ NL))
            [ArgS name; ArgU depth; ArgU limit].
Definition no_files_event (executable : string) : Event :=
  EvError [FATAL]
          ("No files specified. Try " +++ DQ +++ "%s --help" +++ DQ +++ ".")
          [ArgS executable].
Definition invalid_json_event : Event := EvError [FATAL] "invalid json" [].

(** The diagnostic with which a directory is refused. The tests are made
    in this order. *)
Definition refusal_event (X : Collaborators) (opt : Options)
    (dirName : string) (depth : Z) : Event :=
  if isRecursiveLink X dirName then recursive_link_event dirName
  else if negb (recurse opt) then ignored_directory_event dirName
  else depth_exceeded_event dirName depth (maxRecursionDepth opt).

(** ** A small concrete installation

    A working directory with the file [a.c], the directory [subdir]
    (also reached as [subdir/]) holding [b.c], an empty directory, a device node, a symbolic link and
    a link that loops back to its own ancestor. Parsing [subdir/b.c] asks
    for a resize of the tag file; parsing [a.c] does not. *)

Module Sample.

Definition regular : fileStatus := mkFileStatus true false false true.
Definition directory : fileStatus := mkFileStatus true false true false.
Definition device : fileStatus := mkFileStatus true false false false.
Definition link : fileStatus := mkFileStatus true true false true.
Definition missing : fileStatus := mkFileStatus false false false false.

Definition status_of (path : string) : fileStatus :=
  if String.eqb path "a.c" then regular
  else if String.eqb path "x.c" then regular
  else if String.eqb path "subdir/b.c" then regular
  else if String.eqb path "." then directory
  else if String.eqb path "subdir" then directory
  else if String.eqb path "subdir/" then directory
  else if String.eqb path "empty" then directory
  else if String.eqb path "loop" then directory
  else if String.eqb path "tty" then device
  else if String.eqb path "alias.c" then link
  else missing.

Definition listing (dirName : string) : option (list string) :=
  if String.eqb dirName "." then Some ["."; ".."; "a.c"; "subdir"; "empty"]
  else if String.eqb dirName "subdir" then Some ["."; ".."; "b.c"]
  else if String.eqb dirName "subdir/" then Some ["."; ".."; "b.c"]
  else if String.eqb dirName "empty" then Some ["."; ".."]
  else None.

Definition matches (pattern : string) : list string :=
  if String.eqb pattern "subdir/*.*" then ["."; ".."; "b.c"]
  else if String.eqb pattern "empty/*.*" then ["."; ".."]
  else [].

(** Offset of the base name: one past the last slash. *)
Fixpoint base_offset (path : string) (index last : nat) : nat :=
  match path with
  | EmptyString => last
  | String c rest =>
      base_offset rest (S index) (if Ascii.eqb c "/"%char then S index else last)
  end.

(** One token per line; a line that starts with a dash is an option. *)
Fixpoint lines (input : list ascii) (current : string) : list string :=
  match input with
  | [] => match current with EmptyString => [] | _ => [current] end
  | c :: rest =>
      if Ascii.eqb c newline then current :: lines rest EmptyString
      else lines rest (current +++ String c EmptyString)
  end.

Definition token_of_line (line : string) : token :=
  mkToken (match line with String "-"%char _ => true | _ => false end) line.

Definition apply_option (option : string) (opt : Options) : Options :=
  if String.eqb option "-R" then
    mkOptions true (maxRecursionDepth opt) (followLinks opt) (fileList opt)
              (filter opt) (filterTerminator opt) (printLanguage opt)
              (printTotals opt) (etags opt) (etagsInclude opt)
              (otherSettings opt)
  else if String.eqb option "--filter-terminator=END" then
    mkOptions (recurse opt) (maxRecursionDepth opt) (followLinks opt)
              (fileList opt) (filter opt) (Some "END") (printLanguage opt)
              (printTotals opt) (etags opt) (etagsInclude opt)
              (otherSettings opt)
  else
    mkOptions (recurse opt) (maxRecursionDepth opt) (followLinks opt)
              (fileList opt) (filter opt) (filterTerminator opt)
              (printLanguage opt) (printTotals opt) (etags opt)
              (etagsInclude opt) (option :: otherSettings opt).

Definition request_text : string :=
  "{" +++ DQ +++ "command" +++ DQ +++ ":" +++ DQ +++ "generate-tags" +++ DQ
  +++ "," +++ DQ +++ "filename" +++ DQ +++ ":" +++ DQ +++ "x.c" +++ DQ
  +++ "," +++ DQ +++ "size" +++ DQ +++ ":10}" +++ NL.

Definition request_value : json :=
  JObject [("command", JString "generate-tags");
           ("filename", JString "x.c");
           ("size", JInteger 10)].

(** The installation as a function of the build and of whether the
    invocation needs file input. *)
Definition installation (iteration : DirectoryIteration)
    (required : Options -> bool) : Collaborators :=
  {| directoryIteration := iteration;
     MANUAL_GLOBBING := false;
     HAVE_ENVIRON := true;
     OUTPUT_PATH_SEPARATOR := "/"%char;
     PROGRAM_NAME := "Universal Ctags";
     PROGRAM_VERSION := "0.0.0";
     eStat_result := status_of;
     isRecursiveLink := fun path => String.eqb path "loop";
     baseFilename_offset := fun path => base_offset path 0 0;
     getExecutableName := "ctags";
     isExcludedFile := fun _ path => String.eqb path "skip.o";
     parseOption := apply_option;
     filesRequired := required;
     parseFile_result := fun _ path => String.eqb path "subdir/b.c";
     opendir := listing;
     findfirst := matches;
     fopen := fun name =>
       if String.eqb name "files.lst"
       then Some (list_ascii_of_string ("a.c" +++ NL +++ "subdir" +++ NL))
       else None;
     malloc := fun size => (size <? 1073741824)%Z;
     cArgNewFromLineFile := fun input => map token_of_line (lines input EmptyString);
     json_loads := fun text =>
       if String.eqb text request_text then Some request_value else None |}.

(** File input is required unless recursion is enabled. *)
Definition world : Collaborators :=
  installation HAVE_OPENDIR (fun opt => negb (recurse opt)).

(** The same installation built for a platform with find-first only. *)
Definition wildcard_world : Collaborators :=
  installation HAVE_FINDFIRST (fun opt => negb (recurse opt)).

(** An invocation that only prints a list and needs no file input. *)
Definition listing_world : Collaborators :=
  installation HAVE_OPENDIR (fun _ => false).

Definition rank (path : string) : nat :=
  if String.eqb path "." then 2
  else if String.eqb path "subdir" then 1
  else if String.eqb path "subdir/" then 1
  else if String.eqb path "empty" then 1
  else 0.

(** Options as they stand after [initOptions]; the depth limit is the
    largest [unsigned int]. *)
Definition defaults : Options :=
  {| recurse := false;
     maxRecursionDepth := 4294967295;
     followLinks := true;
     fileList := None;
     filter := false;
     filterTerminator := None;
     printLanguage := false;
     printTotals := false;
     etags := false;
     etagsInclude := None;
     otherSettings := [] |}.

Definition recursive : Options := apply_option "-R" defaults.

(** Recursion with a depth limit of zero. *)
Definition limited : Options :=
  {| recurse := true;
     maxRecursionDepth := 0;
     followLinks := true;
     fileList := None;
     filter := false;
     filterTerminator := None;
     printLanguage := false;
     printTotals := false;
     etags := false;
     etagsInclude := None;
     otherSettings := [] |}.

(** Recursion with a depth limit of five. *)
Definition five_levels : Options :=
  {| recurse := true;
     maxRecursionDepth := 5;
     followLinks := true;
     fileList := None;
     filter := false;
     filterTerminator := None;
     printLanguage := false;
     printTotals := false;
     etags := false;
     etagsInclude := None;
     otherSettings := [] |}.

(** No recursion and a depth limit of zero. *)
Definition shallow : Options :=
  {| recurse := false;
     maxRecursionDepth := 0;
     followLinks := true;
     fileList := None;
     filter := false;
     filterTerminator := None;
     printLanguage := false;
     printTotals := false;
     etags := false;
     etagsInclude := None;
     otherSettings := [] |}.

Definition start (opt : Options) : State :=
  {| Option := opt; recursionDepth := 0; environ := []; stdin := []; log := [] |}.

(** The command line [a.c -R subdir]. *)
Definition command_line : cookedArgs :=
  [mkToken false "a.c"; mkToken true "-R"; mkToken false "subdir"].

(** An interactive session: a request for ten bytes of [x.c], the bytes. *)
Definition session : State :=
  set_stdin (start defaults)
            (list_ascii_of_string (request_text +++ "0123456789" +++ NL)).

(** An interactive session that starts with a line that is not JSON. *)
Definition broken_session : State :=
  set_stdin (start defaults)
            (list_ascii_of_string ("not json" +++ NL +++ request_text)).

(** Names arriving in filter mode, a terminator configured on the way. *)
Definition filter_input : FILE :=
  Opened (list_ascii_of_string
            ("a.c" +++ NL +++ "--filter-terminator=END" +++ NL
             +++ "subdir/b.c" +++ NL)).

End Sample.

(** ** Specifications of the routines, as relations between states *)

(** What a run of the classifier or of the walker does to the state: the
    configuration, the environment, the input and the recursion counter
    are as before, walker events were added to the log, and the verdict is
    the accumulated flag [acc] or-ed with every parse verdict of the run. *)
Definition walker_step (acc : bool) (st : State) (r : bool) (st' : State) : Prop :=
  Option st' = Option st /\
  environ st' = environ st /\
  stdin st' = stdin st /\
  recursionDepth st' = recursionDepth st /\
  exists delta,
    log st' = log st ++ delta /\
    Forall walker_event delta /\
    r = acc || any_parse_true delta.

(** A computation of the walker meets its specification: it returns a
    state related to the initial one, or runs out of fuel, which [total]
    excludes; it neither terminates the process nor leaves defined
    behaviour. *)
Definition walker_spec (total acc : bool) (m : M bool) : Prop :=
  forall st, well_formed st ->
    match m st with
    | Returned r st' => walker_step acc st r st'
    | OutOfFuel => total = false
    | Exited _ | Undefined => False
    end.

(** What a scan over a source of names does to the state: the environment
    and the recursion counter are as before, the events [delta] were added
    to the log, and the flag returned is the accumulated flag [acc] or-ed
    with every parse verdict among them. Options may have been parsed and
    standard input may have been read. *)
Definition scan_run (acc : bool) (st : State) (r : bool) (st' : State)
    (delta : list Event) : Prop :=
  environ st' = environ st /\
  recursionDepth st' = recursionDepth st /\
  log st' = log st ++ delta /\
  Forall scan_event delta /\
  r = acc || any_parse_true delta.

(** Outcomes of the orchestrator: a return that satisfies [post], or
    termination of the process by a fatal error; fuel may only run out
    when [total] does not hold. *)
Definition scan_outcome {A} (total : bool) (post : A -> State -> Prop)
    (o : Outcome A) : Prop :=
  match o with
  | Returned a st' => post a st'
  | Exited _ => True
  | Undefined => False
  | OutOfFuel => total = false
  end.

(** The cursor rests on a positional item or is off the end. *)
Definition rests_on_item (args : cookedArgs) : Prop :=
  match args with
  | [] => True
  | t :: _ => isOption t = false
  end.

(** The events around the scan of a batch run. *)
Definition opening_events (opt : Options) : list Event :=
  if negb (filter opt) && negb (printLanguage opt) then [EvOpenTagFile] else [].

Definition closing_events (opt : Options) (resize : bool) : list Event :=
  (if negb (filter opt) && negb (printLanguage opt)
   then [EvCloseTagFile resize] else [])
  ++ (if printTotals opt then [EvPrintTotals] else []).

(** No file source is configured for a batch run. *)
Definition no_file_source (args : cookedArgs) (opt : Options) : Prop :=
  cArgOff args = true /\ fileList opt = None /\ filter opt = false.

(** A batch run over the implicit root: the tag file is opened unless
    languages are only printed, the working directory is walked, and the
    tag file is closed with the verdict of the walk. *)
Definition implicit_root_run (X : Collaborators) (fuel : nat)
    (args : cookedArgs) : M cookedArgs :=
  opt <- getOption ;;
  when (negb (printLanguage opt)) openTagFile ;;
  resize <- recurseIntoDirectory X (createTagsForEntry X fuel) "." ;;
  opt <- getOption ;;
  when (negb (filter opt) && negb (printLanguage opt)) (closeTagFile resize) ;;
  when (printTotals opt) printTotals_call ;;
  ret args.

(** The allow-list test the table [safe_vars] describes: one of its names
    is a prefix of the entry. *)
Definition on_allow_list (entry : string) : bool :=
  existsb (fun sv => match sv with
                     | Some name => strncmp_eq entry name (strlen name)
                     | None => false
                     end) safe_vars.

(** The value of an environment entry: the text after the first [=]. *)
Definition value_of (entry : string) : option string :=
  match strchr entry "="%char with
  | Some (_, from_equals) => Some (advance from_equals)
  | None => None
  end.

(** The events of an in-memory [generate-tags] request. *)
Definition memory_request_events (filename : string) (data : list ascii)
    : list Event :=
  [EvOpenTagFile; EvParseFileWithMio filename data; EvCloseTagFile false;
   EvFputs completed_line; EvFflush; EvJsonDecref].

(** The state in which the branches of [recurseIntoDirectory] run. *)
Definition entered (st : State) : State :=
  set_recursionDepth st (wrap32 (recursionDepth st + 1)).

(** ** Calls of the classifier *)

(** One call of the classifier or of the walker that returned: the path
    it was made for, the state it was made in, the flag it returned and
    the state it returned in. *)
Record Visit : Type := mkVisit {
  visited : string;
  before : State;
  verdict : bool;
  after : State
}.

(** The call [v] is a call of [routine]. *)
Definition visit_of (routine : string -> M bool) (v : Visit) : Prop :=
  routine (visited v) (before v) = Returned (verdict v) (after v).

(** The verdicts of the calls, folded by OR. *)
Definition any_verdict (visits : list Visit) : bool := existsb verdict visits.

(** The calls were made in turn, from the state [st] on, and the run went
    on to the state [st']: [link] leads from [st], and from the state in
    which a call returned, to the state in which the next call was made,
    and after the last call to [st']. *)
Fixpoint linked (link : State -> State -> Prop) (st : State)
    (visits : list Visit) (st' : State) : Prop :=
  match visits with
  | [] => link st st'
  | v :: rest => link st (before v) /\ linked link (after v) rest st'
  end.

(** Nothing but the options differs. *)
Definition reconfigured (st st' : State) : Prop :=
  st' = set_Option st (Option st').

(** Events that announce a source or delimit the output: no status
    query, no parse, no diagnostic of the classifier and no call of the
    tag file is among them. *)
Definition announcement (e : Event) : Prop :=
  match e with
  | EvVerbose _ _ | EvFputs _ | EvFflush => True
  | _ => False
  end.

(** What lies between two calls of a scan: options may have been parsed
    and names read from standard input; the environment and the recursion
    counter are as they were and only announcements were logged. *)
Definition between_entries (st st' : State) : Prop :=
  environ st' = environ st /\
  recursionDepth st' = recursionDepth st /\
  exists events, log st' = log st ++ events /\ Forall announcement events.

(** The diagnostics of the walker: messages and recoverable errors. *)
Definition diagnostic (e : Event) : Prop :=
  match e with
  | EvVerbose _ _ => True
  | EvError selection _ _ => selected FATAL selection = false
  | _ => False
  end.

(** What is written to standard output after an entry of a name list. *)
Definition entry_output (flt : bool) (opt : Options) : list Event :=
  if flt then terminator_events opt ++ [EvFflush] else [].

(** The state once the cursor over the lines of [fp] is created:
    standard input, when it is the stream, is read to its end. *)
Definition cursor_created (fp : FILE) (st : State) : State :=
  match fp with
  | Stdin => set_stdin st []
  | Opened _ => st
  end.

(** The run of [createTagsFromFileInput] over its entries: each call of
    the classifier is made in the state reached so far, with the options
    parsed that precede the entry; in the state the call returned in, the
    output for the entry is written, and the run goes on from there. *)
Fixpoint served (flt : bool) (st : State) (visits : list Visit)
    (st' : State) : Prop :=
  match visits with
  | [] => reconfigured st st'
  | v :: rest =>
      reconfigured st (before v) /\
      served flt
        (append_log (after v) (entry_output flt (Option (after v)))) rest st'
  end.

(** The tests of [recurseIntoDirectory] let a directory entered in the
    state [st] be expanded. *)
Definition expands (X : Collaborators) (st : State) (dirName : string) : bool :=
  negb (isRecursiveLink X dirName)
  && recurse (Option st)
  && negb (wrap32 (recursionDepth st + 1) >? maxRecursionDepth (Option st))%Z.

(** ** The entries a batch run resolves *)

Section Plan.

Variable X : Collaborators.

(** The options in force after the option tokens among [tokens]. *)
Fixpoint options_after (tokens : cookedArgs) (opt : Options) : Options :=
  match tokens with
  | [] => opt
  | t :: rest =>
      options_after rest
        (if isOption t then parseOption X (item t) opt else opt)
  end.

(** The positional items among [tokens], each with the options in force
    when the cursor rests on it. *)
Fixpoint positional (tokens : cookedArgs) (opt : Options)
    : list (string * Options) :=
  match tokens with
  | [] => []
  | t :: rest =>
      if isOption t then positional rest (parseOption X (item t) opt)
      else (item t, opt) :: positional rest opt
  end.

(** The arguments [createTagsForArgs] takes from its cursor: the token
    the cursor is at, then the positional items that follow. *)
Definition argument_items (args : cookedArgs) (opt : Options)
    : list (string * Options) :=
  match args with
  | [] => []
  | t :: rest => (item t, opt) :: positional rest opt
  end.

(** The pattern [createTagsForWildcardArg] expands for an argument. *)
Definition pattern_of (arg : string) (opt : Options) : string :=
  if recurse opt && (strcmp_eq arg "." || strcmp_eq arg "..")
  then wildcard_pattern X arg else arg.

(** The paths classified for an argument: the argument itself, or under
    manual globbing the matches of its pattern. *)
Definition argument_paths (arg : string) (opt : Options) : list string :=
  if MANUAL_GLOBBING X then
    match directoryIteration X with
    | HAVE_FINDFIRST =>
        map (wildcard_child X (pattern_of arg opt))
            (List.filter not_dot_entry (findfirst X (pattern_of arg opt)))
    | _ => []
    end
  else [arg].

(** The tokens of the list file the options [opt] name, standard input
    holding [input]. *)
Definition list_file_tokens (opt : Options) (input : list ascii) : cookedArgs :=
  match fileList opt with
  | None => []
  | Some name =>
      if strcmp_eq name "-" then cArgNewFromLineFile X input
      else match fopen X name with
           | Some content => cArgNewFromLineFile X content
           | None => []
           end
  end.

(** What is left on standard input after the list file was read. *)
Definition input_after_list (opt : Options) (input : list ascii) : list ascii :=
  match fileList opt with
  | Some name => if strcmp_eq name "-" then [] else input
  | None => input
  end.

(** The entries resolved from the positional arguments, the list file
    and the filter input, in the order in which they are classified. Each
    source is read with the options left by the one before. *)
Definition source_entries (args : cookedArgs) (st : State) : list string :=
  let arguments := argument_items args (Option st) in
  let opt1 := options_after (tl args) (Option st) in
  let listed := list_file_tokens opt1 (stdin st) in
  let opt2 := options_after listed opt1 in
  let piped :=
    if filter opt2
    then cArgNewFromLineFile X (input_after_list opt1 (stdin st)) else [] in
  flat_map (fun a => argument_paths (fst a) (snd a)) arguments
  ++ map fst (positional listed opt1)
  ++ map fst (positional piped opt2).

End Plan.

(** A scan from the state [st] that called the classifier on [entries]
    in turn and returned the OR of the flags in the state [st']. *)
Definition scanned (X : Collaborators) (fuel : nat) (entries : list string)
    (st : State) (r : bool) (st' : State) : Prop :=
  exists visits,
    Forall (visit_of (createTagsForEntry X fuel)) visits /\
    map visited visits = entries /\
    linked between_entries st visits st' /\
    r = any_verdict visits /\
    well_formed st'.

(** Outcomes of a batch run: a return that satisfies [post]; termination
    of the process, for which [fatal] holds; fuel may only run out when
    [total] does not hold. *)
Definition batch_outcome {A} (total : bool) (fatal : Prop)
    (post : A -> State -> Prop) (o : Outcome A) : Prop :=
  match o with
  | Returned a st' => post a st'
  | Exited _ => fatal
  | Undefined => False
  | OutOfFuel => total = false
  end.

(** The list file the options name cannot be opened. *)
Definition list_file_unreadable (X : Collaborators) (opt : Options) : Prop :=
  exists name,
    fileList opt = Some name /\ strcmp_eq name "-" = false /\
    fopen X name = None.

(** What ends a batch run: no file source where file input is required,
    or a list file, named by the options the arguments leave, that cannot
    be opened. *)
Definition batch_fatal (X : Collaborators) (args : cookedArgs) (st : State)
    : Prop :=
  (no_file_source args (Option st) /\ filesRequired X (Option st) = true) \/
  list_file_unreadable X (options_after X (tl args) (Option st)).

(** The implicit root: the working directory, when no file source is
    configured and recursion is enabled. *)
Definition implicit_root (args : cookedArgs) (opt : Options) : list string :=
  if negb (negb (cArgOff args) || is_some (fileList opt) || filter opt)
     && recurse opt
  then ["."] else [].

(** A batch run that returned in state [st'] from state [st]. Either it
    returned at once, because no file source is configured and neither
    recursion nor an etags include asks for a run. Or it opened the tag
    file as the options asked; called the classifier on every entry
    resolved from the sources, in turn, and the walker on the implicit
    root; and closed the tag file with the OR of the flags these calls
    returned, so that one call that returned true makes the flag true. *)
Definition resize_flag_is_or (X : Collaborators) (fuel : nat)
    (args : cookedArgs) (st st' : State) : Prop :=
  (no_file_source args (Option st) /\ recurse (Option st) = false /\
   etagsIncluded (Option st) = false /\ st' = st) \/
  (exists (visits roots : list Visit) (last : State),
      Forall (visit_of (createTagsForEntry X fuel)) visits /\
      map visited visits = source_entries X args st /\
      Forall (visit_of (recurseIntoDirectory X (createTagsForEntry X fuel)))
             roots /\
      map visited roots = implicit_root args (Option st) /\
      linked between_entries (append_log st (opening_events (Option st)))
             (visits ++ roots) last /\
      st' = append_log last
              (closing_events (Option last) (any_verdict (visits ++ roots))) /\
      (forall v, In v (visits ++ roots) -> verdict v = true ->
                 any_verdict (visits ++ roots) = true)).

(** ** Further notions *)

(** The outcome [o] with [f] applied to the state it ends in. *)
Definition outcome_map {A} (f : State -> State) (o : Outcome A) : Outcome A :=
  match o with
  | Returned a st => Returned a (f st)
  | Exited st => Exited (f st)
  | Undefined => Undefined
  | OutOfFuel => OutOfFuel
  end.

(** A [parseFile] event is justified under the options [opt]: the path is
    one the classifier takes for a regular file to parse, and the verdict
    recorded is the one [parseFile] gives for it. *)
Definition parse_justified (X : Collaborators) (opt : Options) (e : Event)
    : Prop :=
  match e with
  | EvParseFile name r =>
      classify (isExcludedFile X opt name) (followLinks opt)
               (eStat_result X name) = BrRegular /\
      r = parseFile_result X opt name
  | _ => True
  end.

(** The limit [UINT_MAX]. *)
Definition UINT_MAX : Z := 4294967295.

(** A run from [st] to [st'] that left the options alone and added only
    events with justified parses. *)
Definition justified_run (X : Collaborators) (st st' : State) : Prop :=
  Option st' = Option st /\
  exists delta,
    log st' = log st ++ delta /\ Forall (parse_justified X (Option st)) delta.

Definition justified (X : Collaborators) (m : M bool) : Prop :=
  forall st, match m st with
             | Returned _ st' => justified_run X st st'
             | _ => True
             end.

(** The options are [opt] and the recursion counter stands at [d]. *)
Definition at_depth (opt : Options) (d : Z) (st : State) : Prop :=
  Option st = opt /\ recursionDepth st = d.

(** The expansion of a directory the build selects. *)
Definition expandDirectory (X : Collaborators) (rec : string -> M bool)
    (dirName : string) : M bool :=
  match directoryIteration X with
  | HAVE_OPENDIR => recurseUsingOpendir X rec dirName
  | HAVE_FINDFIRST =>
      createTagsForWildcardUsingFindfirst X rec (wildcard_pattern X dirName)
  | NO_ITERATION => ret false
  end.

(** A directory is entered, announced, expanded and left. *)
Definition descend (X : Collaborators) (rec : string -> M bool)
    (dirName : string) (st : State) : Outcome bool :=
  match expandDirectory X rec dirName
          (append_log (entered st)
             [EvVerbose (quoted_name_format "RECURSING into directory " NL)
                        [ArgS dirName]]) with
  | Returned r st' =>
      Returned r (set_recursionDepth st' (wrap32 (recursionDepth st' - 1)))
  | other => other
  end.

(** A computation neither reads nor moves the unread input: run with
    another input in place, it does the same and leaves that input. *)
Definition stdin_blind {A} (m : M A) : Prop :=
  forall st input,
    m (set_stdin st input)
    = outcome_map (fun s => set_stdin s input) (m st).

(** The diagnostics of the list file. *)
Definition reading_list_file_event : Event :=
  EvVerbose ("Reading list file" +++ NL) [].
Definition cannot_open_list_file_event (name : string) : Event :=
  EvError [FATAL; PERROR] (quoted_name_format "cannot open list file " "")
          [ArgS name].

(** The fatal diagnostics of the interactive loop. *)
Definition command_not_found_event : Event :=
  EvError [FATAL] "command name not found" [].
Definition unknown_command_event : Event :=
  EvError [FATAL] "unknown command name" [].
Definition invalid_request_event : Event :=
  EvError [FATAL] "invalid generate-tags request" [].

(** The events that end a [generate-tags] request read from disk. *)
Definition disk_request_closing : list Event :=
  [EvCloseTagFile false; EvFputs completed_line; EvFflush; EvJsonDecref].

(** ** Totals *)

(** The width of [long] and [unsigned long]; [unsigned int] has 32 bits. *)
Inductive DataModel : Type :=
| LONG_IS_32_BITS
| LONG_IS_64_BITS.

Definition long_modulus (dm : DataModel) : Z :=
  match dm with
  | LONG_IS_32_BITS => two32
  | LONG_IS_64_BITS => two64
  end.

Definition LONG_MAX (dm : DataModel) : Z := long_modulus dm / 2 - 1.

(** Conversion to [unsigned int]. *)
Definition to_unsigned_int (z : Z) : Z := z mod two32.

(** Conversion to [unsigned long]. *)
Definition to_unsigned_long (dm : DataModel) (z : Z) : Z := z mod long_modulus dm.

(** Conversion of an [unsigned long] to [long]: the value when [long] can
    hold it, otherwise the two's complement reading every compiler
    defines. *)
Definition to_long (dm : DataModel) (u : Z) : Z :=
  if (u <=? LONG_MAX dm)%Z then u else (u - long_modulus dm)%Z.

Module Totals.

(** [static struct { long files, lines, bytes; } Totals]. *)
Record t : Type := mk {
  files : Z;
  lines : Z;
  bytes : Z
}.

Definition initial : t := mk 0 0 0.

End Totals.

(** [long += unsigned long]: the sum is formed in [unsigned long] and
    converted back. *)
Definition add_unsigned_long (dm : DataModel) (total : Z) (amount : Z) : Z :=
  to_long dm ((to_unsigned_long dm total + amount) mod long_modulus dm).

(** [long += unsigned int]: where [long] is wider than [unsigned int] the
    sum is formed in [long] and its overflow is undefined ([None]); where
    both have 32 bits it is formed in [unsigned long]. *)
Definition add_unsigned_int (dm : DataModel) (total : Z) (amount : Z)
    : option Z :=
  match dm with
  | LONG_IS_64_BITS =>
      if (total + amount <=? LONG_MAX dm)%Z then Some (total + amount)%Z
      else None
  | LONG_IS_32_BITS => Some (add_unsigned_long dm total amount)
  end.

(** [addTotals (files, lines, bytes)], on the totals so far. The
    parameters are [const unsigned int files] and
    [const long unsigned int lines, bytes]: what is passed is converted to
    these types. *)
Definition addTotals (dm : DataModel) (Totals : Totals.t)
    (files lines bytes : Z) : option Totals.t :=
  let files := to_unsigned_int files in
  let lines := to_unsigned_long dm lines in
  let bytes := to_unsigned_long dm bytes in
  match add_unsigned_int dm (Totals.files Totals) files with
  | Some files' =>
      Some (Totals.mk files'
              (add_unsigned_long dm (Totals.lines Totals) lines)
              (add_unsigned_long dm (Totals.bytes Totals) bytes))
  | None => None
  end.

(** The calls [addTotals] receives while files are parsed, made in turn. *)
Fixpoint addTotals_each (dm : DataModel) (Totals : Totals.t)
    (calls : list (Z * Z * Z)) : option Totals.t :=
  match calls with
  | [] => Some Totals
  | (files, lines, bytes) :: rest =>
      match addTotals dm Totals files lines bytes with
      | Some Totals' => addTotals_each dm Totals' rest
      | None => None
      end
  end.

Definition sum_files (calls : list (Z * Z * Z)) : Z :=
  fold_right (fun c s => (fst (fst c) + s)%Z) 0%Z calls.
Definition sum_lines (calls : list (Z * Z * Z)) : Z :=
  fold_right (fun c s => (snd (fst c) + s)%Z) 0%Z calls.
Definition sum_bytes (calls : list (Z * Z * Z)) : Z :=
  fold_right (fun c s => (snd c + s)%Z) 0%Z calls.

(** The arguments of a call are values of the types of the parameters:
    [files] of [unsigned int], [lines] and [bytes] of [unsigned long]. *)
Definition call_in_range (dm : DataModel) (c : Z * Z * Z) : Prop :=
  (0 <= fst (fst c) <= UINT_MAX)%Z /\
  (0 <= snd (fst c) < long_modulus dm)%Z /\
  (0 <= snd c < long_modulus dm)%Z.

(** ** Further sample installations *)

Module Variants.

(** An installation with another setting of manual globbing and another
    JSON reader. *)
Definition rebuild (X : Collaborators) (globbing : bool)
    (loads : string -> option json) : Collaborators :=
  {| directoryIteration := directoryIteration X;
     MANUAL_GLOBBING := globbing;
     HAVE_ENVIRON := HAVE_ENVIRON X;
     OUTPUT_PATH_SEPARATOR := OUTPUT_PATH_SEPARATOR X;
     PROGRAM_NAME := PROGRAM_NAME X;
     PROGRAM_VERSION := PROGRAM_VERSION X;
     eStat_result := eStat_result X;
     isRecursiveLink := isRecursiveLink X;
     baseFilename_offset := baseFilename_offset X;
     getExecutableName := getExecutableName X;
     isExcludedFile := isExcludedFile X;
     parseOption := parseOption X;
     filesRequired := filesRequired X;
     parseFile_result := parseFile_result X;
     opendir := opendir X;
     findfirst := findfirst X;
     fopen := fopen X;
     malloc := malloc X;
     cArgNewFromLineFile := cArgNewFromLineFile X;
     json_loads := loads |}.

(** A file system without bottom: every path is a directory that lists a
    directory [again]. *)
Definition maze : Collaborators :=
  {| directoryIteration := HAVE_OPENDIR;
     MANUAL_GLOBBING := false;
     HAVE_ENVIRON := true;
     OUTPUT_PATH_SEPARATOR := "/"%char;
     PROGRAM_NAME := "Universal Ctags";
     PROGRAM_VERSION := "0.0.0";
     eStat_result := fun _ => Sample.directory;
     isRecursiveLink := fun _ => false;
     baseFilename_offset := fun path => Sample.base_offset path 0 0;
     getExecutableName := "ctags";
     isExcludedFile := fun _ _ => false;
     parseOption := Sample.apply_option;
     filesRequired := fun opt => negb (recurse opt);
     parseFile_result := fun _ _ => false;
     opendir := fun _ => Some ["."; ".."; "again"];
     findfirst := fun _ => [];
     fopen := fun _ => None;
     malloc := fun _ => true;
     cArgNewFromLineFile := fun input =>
       map Sample.token_of_line (Sample.lines input EmptyString);
     json_loads := fun _ => None |}.

(** The sample installation built with manual globbing. *)
Definition globbing_world : Collaborators :=
  rebuild Sample.world true (json_loads Sample.world).

Definition member (key value : string) : string :=
  DQ +++ key +++ DQ +++ ":" +++ DQ +++ value +++ DQ.

(** Request lines of the interactive protocol and the values a JSON
    reader gives for them. *)
Definition no_command_text : string := "{}" +++ NL.
Definition array_text : string := "[1]" +++ NL.
Definition quit_text : string := "{" +++ member "command" "quit" +++ "}" +++ NL.
Definition no_filename_text : string :=
  "{" +++ member "command" "generate-tags" +++ "}" +++ NL.
Definition number_text : string :=
  "{" +++ DQ +++ "command" +++ DQ +++ ":5}" +++ NL.
Definition disk_text : string :=
  "{" +++ member "command" "generate-tags" +++ ","
  +++ member "filename" "subdir/b.c" +++ "}" +++ NL.

Definition no_command_value : json := JObject [].
Definition array_value : json := JArray [JInteger 1].
Definition quit_value : json := JObject [("command", JString "quit")].
Definition no_filename_value : json :=
  JObject [("command", JString "generate-tags")].
Definition number_value : json := JObject [("command", JInteger 5)].
Definition disk_value : json :=
  JObject [("command", JString "generate-tags");
           ("filename", JString "subdir/b.c")].

Definition reader (text : string) : option json :=
  if String.eqb text no_command_text then Some no_command_value
  else if String.eqb text array_text then Some array_value
  else if String.eqb text quit_text then Some quit_value
  else if String.eqb text no_filename_text then Some no_filename_value
  else if String.eqb text number_text then Some number_value
  else if String.eqb text disk_text then Some disk_value
  else json_loads Sample.world text.

(** The sample installation with this reader. *)
Definition protocol_world : Collaborators :=
  rebuild Sample.world false reader.

(** Recursion with a depth limit of three. *)
Definition three_levels : Options :=
  {| recurse := true;
     maxRecursionDepth := 3;
     followLinks := true;
     fileList := None;
     filter := false;
     filterTerminator := None;
     printLanguage := false;
     printTotals := false;
     etags := false;
     etagsInclude := None;
     otherSettings := [] |}.

(** A list file that does not exist. *)
Definition with_missing_list : Options :=
  {| recurse := false;
     maxRecursionDepth := 4294967295;
     followLinks := true;
     fileList := Some "missing.lst";
     filter := false;
     filterTerminator := None;
     printLanguage := false;
     printTotals := false;
     etags := false;
     etagsInclude := None;
     otherSettings := [] |}.

(** Etags output with an include and a report of the totals. *)
Definition with_etags_include : Options :=
  {| recurse := false;
     maxRecursionDepth := 4294967295;
     followLinks := true;
     fileList := None;
     filter := false;
     filterTerminator := None;
     printLanguage := false;
     printTotals := true;
     etags := true;
     etagsInclude := Some ["other.TAGS"];
     otherSettings := [] |}.

(** The content of the sample list file on standard input. *)
Definition list_on_stdin : State :=
  set_stdin (Sample.start Sample.recursive)
            (list_ascii_of_string ("a.c" +++ NL +++ "subdir" +++ NL)).

(** Three bytes of input. *)
Definition three_bytes : State :=
  set_stdin (Sample.start Sample.defaults) (list_ascii_of_string "abc").

End Variants.

(** * Properties *)

(** ** Arithmetic and lists *)

Lemma wrap32_range (z : Z) : (0 <= wrap32 z < two32)%Z.
Proof. unfold wrap32, two32. apply Z.mod_pos_bound. lia. Qed.

Lemma wrap32_increment_decrement (d : Z) :
  (0 <= d < two32)%Z -> wrap32 (wrap32 (d + 1) - 1) = d.
Proof.
  intros Hd. unfold wrap32, two32 in *.
  destruct (Z.eq_dec d 4294967295) as [-> | Hne].
  - reflexivity.
  - rewrite (Z.mod_small (d + 1)) by lia.
    rewrite Z.mod_small by lia. lia.
Qed.

Lemma any_parse_true_app (l1 l2 : list Event) :
  any_parse_true (l1 ++ l2) = any_parse_true l1 || any_parse_true l2.
Proof. unfold any_parse_true. apply existsb_app. Qed.

Lemma walker_event_is_scan_event (e : Event) : walker_event e -> scan_event e.
Proof. destruct e; simpl; tauto. Qed.

Lemma walker_events_no_stdout (delta : list Event) :
  Forall walker_event delta -> stdout_writes delta = [].
Proof.
  induction 1 as [| e l He _ IH]; [reflexivity |].
  unfold stdout_writes in *. simpl. rewrite IH.
  destruct e; simpl in *; tauto || reflexivity.
Qed.

Lemma stdout_writes_app (l1 l2 : list Event) :
  stdout_writes (l1 ++ l2) = stdout_writes l1 ++ stdout_writes l2.
Proof. unfold stdout_writes. apply filter_app. Qed.

(** ** The relations compose *)

Lemma walker_step_refl (acc : bool) (st : State) : walker_step acc st acc st.
Proof.
  unfold walker_step. repeat split; try reflexivity.
  exists []. rewrite app_nil_r. simpl. rewrite orb_false_r. auto.
Qed.

Lemma walker_step_trans (acc r1 r2 : bool) (st st1 st2 : State) :
  walker_step acc st r1 st1 -> walker_step r1 st1 r2 st2 ->
  walker_step acc st r2 st2.
Proof.
  intros (Ho & He & Hi & Hd & d1 & Hl1 & Hf1 & Hr1)
         (Ho' & He' & Hi' & Hd' & d2 & Hl2 & Hf2 & Hr2).
  unfold walker_step. repeat split; try congruence.
  exists (d1 ++ d2). repeat split.
  - rewrite Hl2, Hl1. now rewrite app_assoc.
  - now apply Forall_app.
  - rewrite any_parse_true_app, Hr2, Hr1. now rewrite orb_assoc.
Qed.

(** The verdict of one classified child enters the accumulated flag. *)
Lemma walker_step_accumulate (acc r r2 : bool) (st st1 st2 : State) :
  walker_step false st r st1 -> walker_step (acc || r) st1 r2 st2 ->
  walker_step acc st r2 st2.
Proof.
  intros (Ho & He & Hi & Hd & d1 & Hl1 & Hf1 & Hr1)
         (Ho' & He' & Hi' & Hd' & d2 & Hl2 & Hf2 & Hr2).
  unfold walker_step. repeat split; try congruence.
  exists (d1 ++ d2). repeat split.
  - rewrite Hl2, Hl1. now rewrite app_assoc.
  - now apply Forall_app.
  - rewrite any_parse_true_app, Hr2, Hr1. simpl. now rewrite orb_assoc.
Qed.

Lemma walker_step_well_formed (acc r : bool) (st st' : State) :
  walker_step acc st r st' -> well_formed st -> well_formed st'.
Proof.
  intros (_ & _ & _ & Hd & _) H. unfold well_formed in *. now rewrite Hd.
Qed.

(** One walker event appended to the log. *)
Lemma walker_step_emit (acc : bool) (st : State) (e : Event) :
  walker_event e -> any_parse_true [e] = false ->
  walker_step acc st acc (set_log st (log st ++ [e])).
Proof.
  intros He Hp. unfold walker_step. simpl. repeat split.
  exists [e]. repeat split; auto. rewrite Hp. now rewrite orb_false_r.
Qed.

Lemma walker_spec_weaken (acc : bool) (m : M bool) :
  walker_spec true acc m -> forall total, walker_spec total acc m.
Proof.
  intros H total st Hwf. specialize (H st Hwf).
  destruct (m st); auto. discriminate.
Qed.

(** ** Stepping through monadic code *)

Lemma bind_ret {A B} (a : A) (k : A -> M B) (st : State) :
  bind (ret a) k st = k a st.
Proof. reflexivity. Qed.

Lemma bind_assoc {A B C} (m : M A) (k1 : A -> M B) (k2 : B -> M C) (st : State) :
  bind (bind m k1) k2 st = bind m (fun a => bind (k1 a) k2) st.
Proof. unfold bind. destruct (m st); reflexivity. Qed.

Lemma bind_emit {B} (e : Event) (k : unit -> M B) (st : State) :
  bind (emit e) k st = k tt (append_log st [e]).
Proof. reflexivity. Qed.

Lemma bind_verbose {B} (format : string) (args : list FormatArg)
    (k : unit -> M B) (st : State) :
  bind (verbose format args) k st = k tt (append_log st [EvVerbose format args]).
Proof. reflexivity. Qed.

Lemma bind_getOption {B} (k : Options -> M B) (st : State) :
  bind getOption k st = k (Option st) st.
Proof. reflexivity. Qed.

Lemma bind_when_false {B} (m : M unit) (k : unit -> M B) (st : State) :
  bind (when false m) k st = k tt st.
Proof. reflexivity. Qed.

Lemma bind_when_true {B} (m : M unit) (k : unit -> M B) (st : State) :
  bind (when true m) k st = bind m k st.
Proof. reflexivity. Qed.

Lemma bind_Returned {A B} (m : M A) (k : A -> M B) (st st1 : State) (a : A) :
  m st = Returned a st1 -> bind m k st = k a st1.
Proof. intros H. unfold bind. now rewrite H. Qed.

Lemma bind_Exited {A B} (m : M A) (k : A -> M B) (st st1 : State) :
  m st = Exited st1 -> bind m k st = Exited st1.
Proof. intros H. unfold bind. now rewrite H. Qed.

Lemma append_log_app (st : State) (l1 l2 : list Event) :
  append_log (append_log st l1) l2 = append_log st (l1 ++ l2).
Proof. unfold append_log, set_log. cbn. now rewrite app_assoc. Qed.

Lemma append_log_nil (st : State) : append_log st [] = st.
Proof. unfold append_log, set_log. rewrite app_nil_r. destruct st; reflexivity. Qed.

(** ** The classifier and the walker *)

Section Walker.

Variable X : Collaborators.

Lemma not_dot_entry_test (name : string) :
  negb (strcmp_eq name ".") && negb (strcmp_eq name "..") = not_dot_entry name.
Proof. unfold not_dot_entry, is_dot_entry. now rewrite negb_orb. Qed.

Lemma readdir_loop_spec (total : bool) (rec : string -> M bool)
    (dirName : string) :
  forall (entries : list string) (acc : bool),
    (forall name, In name entries -> not_dot_entry name = true ->
                  walker_spec total false (rec (opendir_child X dirName name))) ->
    walker_spec total acc (readdir_loop X rec dirName entries acc).
Proof.
  induction entries as [| name rest IH]; intros acc Hrec st Hwf; simpl.
  - apply walker_step_refl.
  - rewrite not_dot_entry_test.
    destruct (not_dot_entry name) eqn:Hdot.
    + unfold bind.
      pose proof (Hrec name (or_introl eq_refl) Hdot st Hwf) as H1.
      unfold opendir_child in H1.
      destruct (rec _ st) as [r st1 | | |]; auto.
      assert (Hwf1 : well_formed st1) by (eapply walker_step_well_formed; eauto).
      assert (Hrest : forall n, In n rest -> not_dot_entry n = true ->
                walker_spec total false (rec (opendir_child X dirName n)))
        by (intros; apply Hrec; simpl; auto).
      specialize (IH (acc || r) Hrest st1 Hwf1).
      destruct (readdir_loop X rec dirName rest (acc || r) st1); auto.
      eapply walker_step_accumulate; eauto.
    + apply IH; auto. intros; apply Hrec; simpl; auto.
Qed.

Lemma findnext_loop_spec (total : bool) (rec : string -> M bool)
    (pattern : string) :
  forall (found : list string) (acc : bool),
    (forall name, In name found -> not_dot_entry name = true ->
                  walker_spec total false (rec (wildcard_child X pattern name))) ->
    walker_spec total acc
      (findnext_loop rec pattern (baseFilename_offset X pattern) found acc).
Proof.
  induction found as [| name rest IH]; intros acc Hrec st Hwf; simpl.
  - apply walker_step_refl.
  - assert (Hrest : forall n, In n rest -> not_dot_entry n = true ->
              walker_spec total false (rec (wildcard_child X pattern n)))
      by (intros; apply Hrec; simpl; auto).
    unfold bind, createTagsForWildcardEntry.
    rewrite not_dot_entry_test.
    destruct (not_dot_entry name) eqn:Hdot.
    + pose proof (Hrec name (or_introl eq_refl) Hdot st Hwf) as H1.
      unfold wildcard_child in H1.
      destruct (rec _ st) as [r st1 | | |]; auto.
      assert (Hwf1 : well_formed st1) by (eapply walker_step_well_formed; eauto).
      specialize (IH (acc || r) Hrest st1 Hwf1).
      destruct (findnext_loop rec pattern _ rest (acc || r) st1); auto.
      eapply walker_step_accumulate; eauto.
    + unfold ret. rewrite orb_false_r. apply IH; auto.
Qed.

Lemma entered_well_formed (st : State) : well_formed (entered st).
Proof. unfold well_formed, entered. simpl. apply wrap32_range. Qed.

(** Leaving a directory undoes the increment made on entering it. *)
Lemma walker_step_leave (r : bool) (st st1 : State) :
  well_formed st ->
  walker_step false (entered st) r st1 ->
  walker_step false st r
    (set_recursionDepth st1 (wrap32 (recursionDepth st1 - 1))).
Proof.
  intros Hwf (Ho & He & Hi & Hd & delta & Hl & Hf & Hr).
  unfold walker_step. simpl in *. repeat split; auto.
  - rewrite Hd. now apply wrap32_increment_decrement.
  - exists delta. auto.
Qed.

Lemma recurseIntoDirectory_spec (total : bool) (rec : string -> M bool)
    (dirName : string) :
  (forall child, In child (walker_children X dirName) ->
                 walker_spec total false (rec child)) ->
  walker_spec total false (recurseIntoDirectory X rec dirName).
Proof.
  intros Hrec st Hwf.
  unfold recurseIntoDirectory, bind, getOption, verbose, emit, ret.
  cbn [recursionDepth set_recursionDepth Option].
  fold (entered st).
  destruct (isRecursiveLink X dirName).
  { apply walker_step_leave; auto. apply walker_step_emit; simpl; auto. }
  destruct (recurse (Option st)); cbn [negb].
  2: { apply walker_step_leave; auto. apply walker_step_emit; simpl; auto. }
  destruct (wrap32 (recursionDepth st + 1) >? maxRecursionDepth (Option st))%Z.
  { apply walker_step_leave; auto. apply walker_step_emit; simpl; auto. }
  set (st1 := set_log (entered st) _).
  assert (Hst1 : walker_step false (entered st) false st1)
    by (apply walker_step_emit; simpl; auto).
  assert (Hwf1 : well_formed st1)
    by (eapply walker_step_well_formed; eauto using entered_well_formed).
  unfold walker_children in Hrec.
  destruct (directoryIteration X).
  - unfold recurseUsingOpendir.
    destruct (opendir X dirName) as [entries |].
    + assert (H := readdir_loop_spec total rec dirName entries false).
      specialize (fun Hc => H Hc st1 Hwf1).
      destruct (readdir_loop X rec dirName entries false st1) as [r st2 | | |].
      * apply walker_step_leave; auto.
        eapply walker_step_trans; [exact Hst1 |].
        apply H. intros name Hin Hdot. apply Hrec.
        apply in_map. apply filter_In. auto.
      * apply H. intros name Hin Hdot. apply Hrec.
        apply in_map. apply filter_In. auto.
      * apply H. intros name Hin Hdot. apply Hrec.
        apply in_map. apply filter_In. auto.
      * apply H. intros name Hin Hdot. apply Hrec.
        apply in_map. apply filter_In. auto.
    + unfold error, bind, ret. simpl.
      apply walker_step_leave; auto.
      eapply walker_step_trans; [exact Hst1 |].
      apply walker_step_emit; simpl; auto.
  - unfold createTagsForWildcardUsingFindfirst.
    assert (H := findnext_loop_spec total rec (wildcard_pattern X dirName)
                   (findfirst X (wildcard_pattern X dirName)) false).
    assert (Hc : forall name,
               In name (findfirst X (wildcard_pattern X dirName)) ->
               not_dot_entry name = true ->
               walker_spec total false
                 (rec (wildcard_child X (wildcard_pattern X dirName) name))).
    { intros name Hin Hdot. apply Hrec. apply in_map. apply filter_In. auto. }
    specialize (H Hc st1 Hwf1).
    destruct (findnext_loop rec _ _ _ false st1) as [r st2 | | |]; auto.
    apply walker_step_leave; auto.
    eapply walker_step_trans; [exact Hst1 | exact H].
  - apply walker_step_leave; auto.
Qed.

End Walker.

Section Classifier.

Variable X : Collaborators.

Lemma walker_step_parse (st : State) (fileName : string) (r : bool) :
  walker_step false st r (set_log st (log st ++ [EvParseFile fileName r])).
Proof.
  unfold walker_step. simpl. repeat split.
  exists [EvParseFile fileName r]. split; [reflexivity | split].
  - constructor; simpl; auto.
  - simpl. now destruct r.
Qed.

(** The classifier meets the walker specification for every amount of
    fuel; in a tree of bounded height it returns as soon as the fuel
    exceeds the rank of the entry. *)
Lemma createTagsForEntry_spec (total : bool) (rank : string -> nat) (B : nat) :
  (total = true -> height_bounded X rank B) ->
  forall (fuel : nat) (entryName : string),
    (total = true -> rank entryName < fuel) ->
    walker_spec total false (createTagsForEntry X fuel entryName).
Proof.
  intros Hh. induction fuel as [| fuel IH]; intros name Hr st Hwf.
  - simpl. unfold outOfFuel. destruct total; auto.
    specialize (Hr eq_refl). lia.
  - cbn [createTagsForEntry].
    cbv beta iota delta [bind eStat emit getOption ret verbose error parseFile].
    cbn [Option set_log log selected existsb orb].
    set (st1 := set_log st (log st ++ [EvStat name])).
    assert (Hst1 : walker_step false st false st1)
      by (apply walker_step_emit; simpl; auto).
    assert (Hwf1 : well_formed st1)
      by (eapply walker_step_well_formed; eauto).
    destruct (isExcludedFile X (Option st) name).
    { eapply walker_step_trans; [exact Hst1 |].
      apply walker_step_emit; simpl; auto. }
    destruct (isSymbolicLink (eStat_result X name) && negb (followLinks (Option st))).
    { eapply walker_step_trans; [exact Hst1 |].
      apply walker_step_emit; simpl; auto. }
    destruct (exists_ (eStat_result X name)); cbn [negb].
    2: { eapply walker_step_trans; [exact Hst1 |].
         apply (walker_step_emit false st1); simpl; auto. }
    destruct (isDirectory (eStat_result X name)).
    { assert (Hrec : forall child, In child (walker_children X name) ->
                walker_spec total false (createTagsForEntry X fuel child)).
      { intros child Hin. apply IH. intros Ht.
        destruct (Hh Ht) as [_ Hdec].
        specialize (Hdec name child Hin). specialize (Hr Ht). lia. }
      pose proof (recurseIntoDirectory_spec X total _ name Hrec st1 Hwf1) as H.
      destruct (recurseIntoDirectory X (createTagsForEntry X fuel) name st1); auto.
      eapply walker_step_trans; eauto. }
    destruct (isNormalFile (eStat_result X name)); cbn [negb].
    2: { eapply walker_step_trans; [exact Hst1 |].
         apply walker_step_emit; simpl; auto. }
    eapply walker_step_trans; [exact Hst1 |].
    apply (walker_step_parse st1).
Qed.

Lemma createTagsForEntry_sound (fuel : nat) (entryName : string) :
  walker_spec false false (createTagsForEntry X fuel entryName).
Proof.
  apply (createTagsForEntry_spec false (fun _ => 0) 0); discriminate.
Qed.

Lemma createTagsForEntry_returns (rank : string -> nat) (B fuel : nat)
    (entryName : string) :
  height_bounded X rank B -> B < fuel ->
  walker_spec true false (createTagsForEntry X fuel entryName).
Proof.
  intros Hh Hf. apply (createTagsForEntry_spec true rank B); auto.
  intros _. destruct Hh as [Hb _]. specialize (Hb entryName). lia.
Qed.

(** A walker computation that cannot run out of fuel returns. *)
Lemma walker_spec_returns (acc : bool) (m : M bool) (st : State) :
  walker_spec true acc m -> well_formed st ->
  exists r st', m st = Returned r st' /\ walker_step acc st r st'.
Proof.
  intros H Hwf. specialize (H st Hwf).
  destruct (m st) as [r st' | | |]; try contradiction; try discriminate.
  eauto.
Qed.

End Classifier.
(** ** Calls made in turn *)

Section Visits.

Lemma any_verdict_app (v1 v2 : list Visit) :
  any_verdict (v1 ++ v2) = any_verdict v1 || any_verdict v2.
Proof. apply existsb_app. Qed.

Lemma any_verdict_In (visits : list Visit) (v : Visit) :
  In v visits -> verdict v = true -> any_verdict visits = true.
Proof.
  intros Hin Hv. unfold any_verdict. apply existsb_exists. now exists v.
Qed.

Lemma linked_weaken (L L' : State -> State -> Prop) :
  (forall a b, L a b -> L' a b) ->
  forall visits st st', linked L st visits st' -> linked L' st visits st'.
Proof.
  intros Hsub. induction visits as [| v rest IH]; intros st st'; cbn.
  - apply Hsub.
  - intros [H1 H2]. split; [now apply Hsub | now apply IH].
Qed.

Section Transitive.

Variable L : State -> State -> Prop.
Hypothesis L_trans : forall a b c, L a b -> L b c -> L a c.

Lemma linked_prepend (visits : list Visit) (a b c : State) :
  L a b -> linked L b visits c -> linked L a visits c.
Proof.
  destruct visits as [| v rest]; cbn.
  - apply L_trans.
  - intros Hab [Hb Hrest]. split; [eapply L_trans; eauto | exact Hrest].
Qed.

Lemma linked_app :
  forall (v1 : list Visit) (st s1 : State) (v2 : list Visit) (s2 : State),
    linked L st v1 s1 -> linked L s1 v2 s2 -> linked L st (v1 ++ v2) s2.
Proof.
  induction v1 as [| v rest IH]; intros st s1 v2 s2; cbn.
  - apply linked_prepend.
  - intros [H1 H2] H3. split; [exact H1 | eapply IH; eauto].
Qed.

Lemma linked_extend (visits : list Visit) (st s1 s2 : State) :
  linked L st visits s1 -> L s1 s2 -> linked L st visits s2.
Proof.
  intros H1 H2. rewrite <- (app_nil_r visits).
  eapply linked_app; [exact H1 | exact H2].
Qed.

End Transitive.

Lemma between_entries_refl (st : State) : between_entries st st.
Proof.
  unfold between_entries. repeat split. exists []. now rewrite app_nil_r.
Qed.

Lemma between_entries_trans (a b c : State) :
  between_entries a b -> between_entries b c -> between_entries a c.
Proof.
  intros (He & Hd & d1 & Hl & Hf) (He' & Hd' & d2 & Hl' & Hf').
  unfold between_entries. repeat split; try congruence.
  exists (d1 ++ d2). split; [| now apply Forall_app].
  rewrite Hl', Hl. now rewrite app_assoc.
Qed.

Lemma reconfigured_refl (st : State) : reconfigured st st.
Proof. unfold reconfigured. now destruct st. Qed.

Lemma reconfigured_trans (a b c : State) :
  reconfigured a b -> reconfigured b c -> reconfigured a c.
Proof. unfold reconfigured. intros -> ->. reflexivity. Qed.

Lemma reconfigured_set_Option (st : State) (opt : Options) :
  reconfigured st (set_Option st opt).
Proof. reflexivity. Qed.

Lemma reconfigured_between (st st' : State) :
  reconfigured st st' -> between_entries st st'.
Proof.
  unfold reconfigured. intros ->. unfold between_entries. cbn.
  repeat split. exists []. now rewrite app_nil_r.
Qed.

Lemma between_entries_append (st : State) (events : list Event) :
  Forall announcement events -> between_entries st (append_log st events).
Proof. intros H. unfold between_entries. cbn. repeat split. eauto. Qed.

Lemma between_entries_stdin (st : State) (input : list ascii) :
  between_entries st (set_stdin st input).
Proof.
  unfold between_entries. cbn. repeat split. exists []. now rewrite app_nil_r.
Qed.

Lemma between_entries_well_formed (st st' : State) :
  between_entries st st' -> well_formed st -> well_formed st'.
Proof. intros (_ & Hd & _) H. unfold well_formed in *. now rewrite Hd. Qed.

Lemma entry_output_announcements (flt : bool) (opt : Options) :
  Forall announcement (entry_output flt opt).
Proof.
  unfold entry_output, terminator_events.
  destruct flt; [| constructor].
  destruct (filterTerminator opt); repeat constructor.
Qed.

Lemma served_reconfigure (flt : bool) (visits : list Visit) (a b c : State) :
  reconfigured a b -> served flt b visits c -> served flt a visits c.
Proof.
  destruct visits as [| v rest]; cbn.
  - apply reconfigured_trans.
  - intros Hab [Hb Hrest]. split; [eapply reconfigured_trans; eauto | exact Hrest].
Qed.

(** A run over a name list is a scan: between its calls lie option
    parsing and the output for the entry. *)
Lemma served_linked (flt : bool) :
  forall (visits : list Visit) (st st' : State),
    served flt st visits st' -> linked between_entries st visits st'.
Proof.
  induction visits as [| v rest IH]; intros st st'; cbn.
  - apply reconfigured_between.
  - intros [H1 H2]. split; [now apply reconfigured_between |].
    eapply (linked_prepend _ between_entries_trans); [| apply IH; exact H2].
    apply between_entries_append, entry_output_announcements.
Qed.

(** Sequential classification of a list of paths is a row of calls, each
    made in the state the one before returned in; the flag is the OR of
    their verdicts. *)
Lemma dispatchChildren_visits (rec : string -> M bool) :
  forall (paths : list string) (acc : bool) (st : State) (r : bool) (st' : State),
    dispatchChildren rec paths acc st = Returned r st' ->
    exists visits,
      map visited visits = paths /\
      Forall (visit_of rec) visits /\
      linked eq st visits st' /\
      r = acc || any_verdict visits.
Proof.
  induction paths as [| p rest IH]; intros acc st r st' H.
  - cbn in H. injection H as <- <-. exists []. cbn.
    rewrite orb_false_r. auto.
  - cbn [dispatchChildren] in H. unfold bind in H.
    destruct (rec p st) as [r1 s1 | | |] eqn:H1; try discriminate.
    destruct (IH _ _ _ _ H) as (visits & Hn & Hv & Hl & Hr).
    exists (mkVisit p st r1 s1 :: visits).
    split; [cbn; now rewrite Hn |].
    split; [constructor; [exact H1 | exact Hv] |].
    split; [cbn; auto |].
    rewrite Hr. cbn. now rewrite orb_assoc.
Qed.

End Visits.

(** ** Claims about the classifier and the walker *)

Section WalkerClaims.

Variable X : Collaborators.

Lemma append_log_entered (st : State) (e : Event) :
  well_formed st ->
  set_recursionDepth (set_log (entered st) (log (entered st) ++ [e]))
    (wrap32 (recursionDepth (set_log (entered st) (log (entered st) ++ [e])) - 1))
  = append_log st [e].
Proof.
  intros Hwf. unfold append_log, set_recursionDepth, set_log, entered.
  cbn [recursionDepth Option environ stdin log set_recursionDepth].
  rewrite wrap32_increment_decrement by exact Hwf.
  destruct st; reflexivity.
Qed.

(** C2, as amended. A directory whose entry raises the recursion counter
    above the configured maximum is never descended into: the classifier
    is not called, one diagnostic is reported and the counter is back at
    its value before the call. The diagnostic is that of the first
    refusal test that applies: recursive link, recursion disabled, depth
    exceeded. Moreover every call that returns, descending or not, leaves
    the counter at its value before the call, which is not negative; with
    [total], in a directory tree of bounded height, every call returns. *)
Theorem recurseIntoDirectory_beyond_limit
    (rec : string -> M bool) (dirName : string) (st : State) :
  well_formed st ->
  (wrap32 (recursionDepth st + 1) > maxRecursionDepth (Option st))%Z ->
  recurseIntoDirectory X rec dirName st
  = Returned false
      (append_log st
         [refusal_event X (Option st) dirName (wrap32 (recursionDepth st + 1))])
  /\ (isRecursiveLink X dirName = false -> recurse (Option st) = true ->
      refusal_event X (Option st) dirName (wrap32 (recursionDepth st + 1))
      = depth_exceeded_event dirName (wrap32 (recursionDepth st + 1))
          (maxRecursionDepth (Option st)))
  /\ (forall (total : bool) (rank : string -> nat) (B fuel : nat)
             (dirName2 : string) (st2 : State),
        (total = true -> height_bounded X rank B /\ B < fuel) ->
        well_formed st2 ->
        match recurseIntoDirectory X (createTagsForEntry X fuel) dirName2 st2 with
        | Returned _ st2' =>
            recursionDepth st2' = recursionDepth st2 /\
            (0 <= recursionDepth st2')%Z
        | OutOfFuel => total = false
        | Exited _ | Undefined => False
        end).
Proof.
  intros Hwf Hdeep. split; [| split].
  - unfold recurseIntoDirectory, refusal_event.
    cbv beta iota delta [bind getOption verbose emit ret].
    cbn [recursionDepth set_recursionDepth Option].
    fold (entered st).
    destruct (isRecursiveLink X dirName).
    { now rewrite append_log_entered. }
    destruct (recurse (Option st)); cbn [negb].
    2: { now rewrite append_log_entered. }
    apply Z.gt_lt, Z.gtb_lt in Hdeep. rewrite Hdeep.
    now rewrite append_log_entered.
  - intros Hl Hr. unfold refusal_event. now rewrite Hl, Hr.
  - intros total rank B fuel dirName2 st2 Hfuel Hwf2.
    assert (H : walker_spec total false
                  (recurseIntoDirectory X (createTagsForEntry X fuel) dirName2)).
    { apply recurseIntoDirectory_spec. intros child _.
      apply (createTagsForEntry_spec X total rank B).
      - intros Ht. apply (Hfuel Ht).
      - intros Ht. destruct (Hfuel Ht) as [[Hb _] Hf].
        specialize (Hb child). lia. }
    specialize (H st2 Hwf2).
    destruct (recurseIntoDirectory X (createTagsForEntry X fuel) dirName2 st2);
      auto.
    destruct H as (_ & _ & _ & Hd & _). split; [exact Hd |].
    rewrite Hd. apply Hwf2.
Qed.

(** The native loop classifies the entries that are neither [.] nor [..],
    in the order of the listing. *)
Lemma readdir_loop_dispatch (rec : string -> M bool) (dirName : string) :
  forall (entries : list string) (acc : bool) (st : State),
    readdir_loop X rec dirName entries acc st
    = dispatchChildren rec
        (map (opendir_child X dirName) (List.filter not_dot_entry entries))
        acc st.
Proof.
  induction entries as [| name rest IH]; intros acc st; [reflexivity |].
  cbn [readdir_loop List.filter]. rewrite not_dot_entry_test.
  destruct (not_dot_entry name); [| apply IH].
  cbn [map dispatchChildren]. unfold bind, opendir_child.
  destruct (rec _ st); auto.
Qed.

Lemma findnext_loop_dispatch (rec : string -> M bool) (pattern : string) :
  forall (found : list string) (acc : bool) (st : State),
    findnext_loop rec pattern (baseFilename_offset X pattern) found acc st
    = dispatchChildren rec
        (map (wildcard_child X pattern) (List.filter not_dot_entry found))
        acc st.
Proof.
  induction found as [| name rest IH]; intros acc st; [reflexivity |].
  cbn [findnext_loop List.filter]. unfold createTagsForWildcardEntry.
  rewrite not_dot_entry_test.
  destruct (not_dot_entry name).
  - cbn [map dispatchChildren]. unfold bind, wildcard_child.
    destruct (rec _ st); auto.
  - unfold bind, ret. rewrite orb_false_r. apply IH.
Qed.

(** What [recurseIntoDirectory] does in each of its four cases. *)
Lemma recurseIntoDirectory_cases (rec : string -> M bool) (dirName : string)
    (st : State) :
  recurseIntoDirectory X rec dirName st
  = if isRecursiveLink X dirName
       || negb (recurse (Option st))
       || (wrap32 (recursionDepth st + 1) >? maxRecursionDepth (Option st))%Z
    then
      Returned false
        (set_recursionDepth
           (append_log (entered st)
              [refusal_event X (Option st) dirName
                 (wrap32 (recursionDepth st + 1))])
           (wrap32 (wrap32 (recursionDepth st + 1) - 1)))
    else descend X rec dirName st.
Proof.
  unfold recurseIntoDirectory, refusal_event, descend, expandDirectory.
  cbv beta iota delta [bind getOption verbose emit ret].
  cbn [recursionDepth set_recursionDepth Option].
  fold (entered st).
  destruct (isRecursiveLink X dirName); [reflexivity |].
  destruct (recurse (Option st)); cbn [negb orb]; [| reflexivity].
  destruct (wrap32 (recursionDepth st + 1) >? maxRecursionDepth (Option st))%Z;
    [reflexivity |].
  unfold append_log.
  destruct (directoryIteration X); reflexivity.
Qed.

Lemma refusal_event_diagnostic (opt : Options) (dirName : string) (depth : Z) :
  diagnostic (refusal_event X opt dirName depth).
Proof.
  unfold refusal_event.
  destruct (isRecursiveLink X dirName); [exact I |].
  destruct (recurse opt); exact I.
Qed.

(** The expansion of a directory is a row of calls of the classifier, one
    for each child, made in turn; before the first call only diagnostics
    are reported. *)
Lemma expandDirectory_visits (rec : string -> M bool) (dirName : string)
    (st : State) (r : bool) (st' : State) :
  expandDirectory X rec dirName st = Returned r st' ->
  exists visits notes,
    Forall (visit_of rec) visits /\
    map visited visits = walker_children X dirName /\
    linked eq (append_log st notes) visits st' /\
    r = any_verdict visits /\
    Forall diagnostic notes.
Proof.
  unfold expandDirectory, walker_children. intros H.
  destruct (directoryIteration X).
  - unfold recurseUsingOpendir in H. destruct (opendir X dirName) as [entries |].
    + rewrite readdir_loop_dispatch in H.
      apply dispatchChildren_visits in H as (visits & Hn & Hv & Hl & Hr).
      exists visits, []. rewrite append_log_nil. auto.
    + cbv beta iota delta [bind error ret selected existsb orb] in H.
      injection H as <- <-. eexists [], [_].
      split; [constructor |]. split; [reflexivity |].
      split; [cbn; reflexivity |]. split; [reflexivity |].
      repeat constructor.
  - unfold createTagsForWildcardUsingFindfirst in H.
    rewrite findnext_loop_dispatch in H.
    apply dispatchChildren_visits in H as (visits & Hn & Hv & Hl & Hr).
    exists visits, []. rewrite append_log_nil. auto.
  - injection H as <- <-. exists [], []. rewrite append_log_nil. cbn. auto.
Qed.

(** C3, as amended. The classifier queries the status of its path once and
    then takes exactly one branch, the first that applies in the order
    excluded, symbolic link not followed, missing, directory, special
    file, regular file. The branches excluded, symbolic link, missing and
    special file report one diagnostic and return false; a regular file is
    handed to [parseFile], whose verdict is returned; a directory is handed
    to [recurseIntoDirectory], whose verdict is returned. That verdict is
    the OR of the flags the classifier returns for the entries below the
    directory: when the directory is expanded, its children are
    classified in turn, the first call made with the counter raised and
    nothing but the status query and diagnostics logged, each further
    call in the state the one before returned in, and the OR of their
    flags is returned in the state the last call returned in, the counter
    lowered again; when the directory is refused, no entry is classified
    and false is returned. *)
Theorem createTagsForEntry_branches
    (fuel : nat) (entryName : string) (st : State) :
  createTagsForEntry X (S fuel) entryName st
  = (let st1 := append_log st [EvStat entryName] in
     match classify (isExcludedFile X (Option st) entryName)
                    (followLinks (Option st)) (eStat_result X entryName) with
     | BrExcluded => Returned false (append_log st1 [excluding_event entryName])
     | BrSymbolicLink =>
         Returned false (append_log st1 [symbolic_link_event entryName])
     | BrMissing => Returned false (append_log st1 [cannot_open_event entryName])
     | BrDirectory =>
         recurseIntoDirectory X (createTagsForEntry X fuel) entryName st1
     | BrSpecial => Returned false (append_log st1 [special_file_event entryName])
     | BrRegular =>
         let r := parseFile_result X (Option st) entryName in
         Returned r (append_log st1 [EvParseFile entryName r])
     end)
  /\ (forall (r : bool) (st' : State),
        classify (isExcludedFile X (Option st) entryName)
                 (followLinks (Option st)) (eStat_result X entryName)
        = BrDirectory ->
        createTagsForEntry X (S fuel) entryName st = Returned r st' ->
        exists (visits : list Visit) (notes : list Event) (last : State),
          Forall (visit_of (createTagsForEntry X fuel)) visits /\
          map visited visits
          = (if expands X st entryName then walker_children X entryName
             else []) /\
          Forall diagnostic notes /\
          linked eq (append_log (entered st) (EvStat entryName :: notes))
                 visits last /\
          r = any_verdict visits /\
          st' = set_recursionDepth last (wrap32 (recursionDepth last - 1))).
Proof.
  assert (Heq :
    createTagsForEntry X (S fuel) entryName st
    = (let st1 := append_log st [EvStat entryName] in
       match classify (isExcludedFile X (Option st) entryName)
                      (followLinks (Option st)) (eStat_result X entryName) with
       | BrExcluded => Returned false (append_log st1 [excluding_event entryName])
       | BrSymbolicLink =>
           Returned false (append_log st1 [symbolic_link_event entryName])
       | BrMissing => Returned false (append_log st1 [cannot_open_event entryName])
       | BrDirectory =>
           recurseIntoDirectory X (createTagsForEntry X fuel) entryName st1
       | BrSpecial => Returned false (append_log st1 [special_file_event entryName])
       | BrRegular =>
           let r := parseFile_result X (Option st) entryName in
           Returned r (append_log st1 [EvParseFile entryName r])
       end)).
  { cbn [createTagsForEntry].
    cbv beta iota zeta delta [bind eStat emit getOption ret verbose error parseFile
                              classify append_log].
    cbn [Option set_log log selected existsb orb].
    destruct (isExcludedFile X (Option st) entryName); [reflexivity |].
    destruct (isSymbolicLink (eStat_result X entryName)
              && negb (followLinks (Option st))); [reflexivity |].
    destruct (exists_ (eStat_result X entryName)); cbn [negb]; [| reflexivity].
    destruct (isDirectory (eStat_result X entryName)); [reflexivity |].
    destruct (isNormalFile (eStat_result X entryName)); reflexivity. }
  split; [exact Heq |].
  intros r st' Hcls Hrun. rewrite Heq, Hcls in Hrun. cbn zeta in Hrun.
  rewrite recurseIntoDirectory_cases in Hrun.
  set (st1 := append_log st [EvStat entryName]) in *.
  assert (Hexp : isRecursiveLink X entryName || negb (recurse (Option st1))
                 || (wrap32 (recursionDepth st1 + 1)
                     >? maxRecursionDepth (Option st1))%Z
                 = negb (expands X st entryName)).
  { unfold expands. cbn [Option recursionDepth st1 append_log set_log].
    destruct (isRecursiveLink X entryName), (recurse (Option st)),
      (wrap32 (recursionDepth st + 1) >? maxRecursionDepth (Option st))%Z;
      reflexivity. }
  rewrite Hexp in Hrun. destruct (expands X st entryName); cbn [negb] in Hrun.
  - unfold descend in Hrun.
    destruct (expandDirectory X (createTagsForEntry X fuel) entryName _)
      as [r2 st2 | | |] eqn:He; try discriminate.
    injection Hrun as <- <-.
    apply expandDirectory_visits in He
      as (visits & notes & Hv & Hn & Hl & Hr & Hd).
    exists visits, (EvVerbose (quoted_name_format "RECURSING into directory " NL)
                              [ArgS entryName] :: notes), st2.
    split; [exact Hv |]. split; [exact Hn |].
    split; [constructor; [exact I | exact Hd] |].
    split; [| split; [exact Hr | reflexivity]].
    replace (append_log (entered st) (EvStat entryName :: _ :: notes))
      with (append_log
              (append_log (entered st1)
                 [EvVerbose (quoted_name_format "RECURSING into directory " NL)
                            [ArgS entryName]]) notes);
      [exact Hl |].
    subst st1. unfold append_log, entered, set_log, set_recursionDepth. cbn.
    rewrite <- !app_assoc. reflexivity.
  - injection Hrun as <- <-.
    exists [], [refusal_event X (Option st1) entryName
                  (wrap32 (recursionDepth st1 + 1))],
      (append_log (entered st) [EvStat entryName;
                                refusal_event X (Option st1) entryName
                                  (wrap32 (recursionDepth st1 + 1))]).
    split; [constructor |]. split; [reflexivity |].
    split; [constructor; [apply refusal_event_diagnostic | constructor] |].
    split; [reflexivity |]. split; [reflexivity |].
    subst st1. unfold append_log, entered, set_log, set_recursionDepth. cbn.
    rewrite <- !app_assoc. reflexivity.
Qed.

Lemma filter_only_dots (entries : list string) :
  forallb is_dot_entry entries = true ->
  List.filter not_dot_entry entries = [].
Proof.
  induction entries as [| name rest IH]; [reflexivity |].
  cbn [forallb List.filter]. intros H. apply andb_true_iff in H as [H1 H2].
  unfold not_dot_entry at 1. rewrite H1. cbn [negb]. auto.
Qed.

(** C8. Whichever way a directory is expanded, the classifier is called
    on the entries left after [.] and [..] are removed and on no other;
    a directory that lists nothing else has no child classified. *)
Theorem dot_entries_never_classified
    (rec : string -> M bool) (dirName pattern : string) (st : State) :
  recurseUsingOpendir X rec dirName st
  = match opendir X dirName with
    | Some entries =>
        dispatchChildren rec
          (map (opendir_child X dirName) (List.filter not_dot_entry entries))
          false st
    | None =>
        Returned false
          (append_log st
             [EvError [WARNING; PERROR]
                (quoted_name_format "cannot recurse into directory " "")
                [ArgS dirName]])
    end
  /\ createTagsForWildcardUsingFindfirst X rec pattern st
     = dispatchChildren rec
         (map (wildcard_child X pattern)
              (List.filter not_dot_entry (findfirst X pattern)))
         false st
  /\ (forall listing,
        ~ In "." (List.filter not_dot_entry listing) /\
        ~ In ".." (List.filter not_dot_entry listing))
  /\ (forall entries,
        opendir X dirName = Some entries ->
        forallb is_dot_entry entries = true ->
        recurseUsingOpendir X rec dirName st = Returned false st)
  /\ (forallb is_dot_entry (findfirst X pattern) = true ->
      createTagsForWildcardUsingFindfirst X rec pattern st = Returned false st)
  /\ (forall dirLength,
        createTagsForWildcardEntry rec pattern dirLength "." st
        = Returned false st /\
        createTagsForWildcardEntry rec pattern dirLength ".." st
        = Returned false st).
Proof.
  repeat split.
  - unfold recurseUsingOpendir. destruct (opendir X dirName).
    + apply readdir_loop_dispatch.
    + reflexivity.
  - unfold createTagsForWildcardUsingFindfirst. apply findnext_loop_dispatch.
  - intros H. apply filter_In in H as [_ H]. discriminate.
  - intros H. apply filter_In in H as [_ H]. discriminate.
  - intros entries Ho Hd. unfold recurseUsingOpendir. rewrite Ho.
    rewrite readdir_loop_dispatch, filter_only_dots by exact Hd. reflexivity.
  - intros Hd. unfold createTagsForWildcardUsingFindfirst.
    rewrite findnext_loop_dispatch, filter_only_dots by exact Hd. reflexivity.
Qed.

Lemma ends_with_last (c : ascii) (s : string) :
  ends_with c s = true -> s = without_last s +++ String c EmptyString.
Proof.
  induction s as [| d rest IH]; [discriminate |].
  cbn [ends_with without_last]. destruct rest as [| e rest'].
  - intros H. apply Ascii.eqb_eq in H. now subst d.
  - intros H. cbn [String.append]. f_equal. apply IH. exact H.
Qed.

Lemma append_associative (a b c : string) : (a +++ b) +++ c = a +++ b +++ c.
Proof. induction a as [| d a IH]; cbn; [reflexivity | now rewrite IH]. Qed.

(** The path of a child is the stem of the directory name, the
    separator, and the entry name. *)
Lemma combinePathAndFile_stem (dirName name : string) :
  combinePathAndFile X dirName name
  = stem X dirName +++ String (OUTPUT_PATH_SEPARATOR X) name.
Proof.
  unfold combinePathAndFile, stem.
  destruct (ends_with (OUTPUT_PATH_SEPARATOR X) dirName) eqn:He; [| reflexivity].
  rewrite (ends_with_last _ _ He) at 1. now rewrite append_associative.
Qed.

(** C9. With native iteration the children of the directory [.] are
    classified under their bare entry names, without a prefix. The
    children of any other directory, its name not empty, are classified
    under the directory name joined with the entry name by the path
    separator: the directory name, less the separator it may end with,
    then the separator, then the entry name. *)
Theorem children_paths
    (rec : string -> M bool) (dirName : string) (entries : list string)
    (st : State) :
  opendir X dirName = Some entries ->
  (dirName = "." ->
   recurseUsingOpendir X rec dirName st
   = dispatchChildren rec (List.filter not_dot_entry entries) false st)
  /\ (dirName <> "." -> dirName <> "" ->
      recurseUsingOpendir X rec dirName st
      = dispatchChildren rec
          (map (fun name =>
                  stem X dirName +++ String (OUTPUT_PATH_SEPARATOR X) name)
               (List.filter not_dot_entry entries))
          false st)
  /\ (ends_with (OUTPUT_PATH_SEPARATOR X) dirName = false ->
      stem X dirName = dirName)
  /\ (ends_with (OUTPUT_PATH_SEPARATOR X) dirName = true ->
      dirName = stem X dirName +++ String (OUTPUT_PATH_SEPARATOR X) EmptyString).
Proof.
  intros Ho. unfold recurseUsingOpendir. rewrite Ho.
  split; [| split; [| split]].
  - intros Hd. rewrite readdir_loop_dispatch. f_equal.
    subst dirName. unfold opendir_child. cbn [strcmp_eq String.eqb Ascii.eqb].
    simpl. apply map_id.
  - intros Hd _. rewrite readdir_loop_dispatch. f_equal.
    apply map_ext. intros name. unfold opendir_child, strcmp_eq.
    destruct (String.eqb_spec dirName "."); [contradiction |].
    apply combinePathAndFile_stem.
  - intros He. unfold stem. now rewrite He.
  - intros He. unfold stem. rewrite He. now apply ends_with_last.
Qed.

End WalkerClaims.

(** ** The orchestrator *)

Section Orchestrator.

Variable X : Collaborators.

Lemma set_Option_same (st : State) : set_Option st (Option st) = st.
Proof. destruct st; reflexivity. Qed.

(** Option parsing leaves the cursor on an item, touches nothing but the
    options, and, seen from the items that follow, settles the options in
    force for them. *)
Lemma parseCmdlineOptions_spec :
  forall (args : cookedArgs) (st : State),
  exists args' opt',
    parseCmdlineOptions X args st = Returned args' (set_Option st opt') /\
    rests_on_item args' /\
    List.length args' <= List.length args /\
    filter_output X args (Option st) = filter_output X args' opt'.
Proof.
  induction args as [| t rest IH]; intros st.
  - exists [], (Option st). cbn. unfold ret. rewrite set_Option_same. auto.
  - cbn [parseCmdlineOptions filter_output]. destruct (isOption t) eqn:Ht.
    + unfold bind.
      destruct (IH (set_Option st (parseOption X (item t) (Option st))))
        as (args' & opt' & H1 & H2 & H3 & H4).
      exists args', opt'. rewrite H1. cbn in *. repeat split; auto.
    + exists (t :: rest), (Option st). unfold ret. rewrite set_Option_same.
      cbn [rests_on_item filter_output]. rewrite Ht. auto.
Qed.

Lemma scan_run_refl (acc : bool) (st : State) : scan_run acc st acc st [].
Proof.
  unfold scan_run. rewrite app_nil_r. cbn. rewrite orb_false_r. auto.
Qed.

Lemma scan_run_trans (acc r1 r2 : bool) (st st1 st2 : State)
    (d1 d2 : list Event) :
  scan_run acc st r1 st1 d1 -> scan_run r1 st1 r2 st2 d2 ->
  scan_run acc st r2 st2 (d1 ++ d2).
Proof.
  intros (He & Hd & Hl & Hf & Hr) (He' & Hd' & Hl' & Hf' & Hr').
  unfold scan_run. repeat split; try congruence.
  - rewrite Hl', Hl. now rewrite app_assoc.
  - now apply Forall_app.
  - rewrite any_parse_true_app, Hr', Hr. now rewrite orb_assoc.
Qed.

Lemma scan_run_accumulate (acc r r2 : bool) (st st1 st2 : State)
    (d1 d2 : list Event) :
  scan_run false st r st1 d1 -> scan_run (acc || r) st1 r2 st2 d2 ->
  scan_run acc st r2 st2 (d1 ++ d2).
Proof.
  intros (He & Hd & Hl & Hf & Hr) (He' & Hd' & Hl' & Hf' & Hr').
  unfold scan_run. repeat split; try congruence.
  - rewrite Hl', Hl. now rewrite app_assoc.
  - now apply Forall_app.
  - rewrite any_parse_true_app, Hr', Hr. cbn. now rewrite orb_assoc.
Qed.

Lemma scan_run_set_Option (acc r : bool) (st st' : State) (d : list Event)
    (opt : Options) :
  scan_run acc st r st' d -> scan_run acc st r (set_Option st' opt) d.
Proof. unfold scan_run. cbn. auto. Qed.

Lemma scan_run_events (acc : bool) (st : State) (events : list Event) :
  Forall scan_event events -> any_parse_true events = false ->
  scan_run acc st acc (append_log st events) events.
Proof.
  intros Hf Hp. unfold scan_run. cbn. rewrite Hp, orb_false_r. auto.
Qed.

Lemma scan_run_well_formed (acc r : bool) (st st' : State) (d : list Event) :
  scan_run acc st r st' d -> well_formed st -> well_formed st'.
Proof. intros (_ & Hd & _) H. unfold well_formed in *. now rewrite Hd. Qed.

Lemma walker_step_scan_run (acc r : bool) (st st' : State) :
  walker_step acc st r st' ->
  exists delta,
    scan_run acc st r st' delta /\ Forall walker_event delta /\
    Option st' = Option st /\ stdin st' = stdin st.
Proof.
  intros (Ho & He & Hi & Hd & delta & Hl & Hf & Hr).
  exists delta. unfold scan_run. repeat split; auto.
  eapply Forall_impl; [| exact Hf]. apply walker_event_is_scan_event.
Qed.

Lemma scan_outcome_bind {A B} (total : bool) (m : M A) (k : A -> M B)
    (st : State) (mid : A -> State -> Prop) (post : B -> State -> Prop) :
  scan_outcome total mid (m st) ->
  (forall a st1, mid a st1 -> scan_outcome total post (k a st1)) ->
  scan_outcome total post (bind m k st).
Proof.
  unfold bind. destruct (m st); cbn; auto.
Qed.

Lemma walker_spec_scan_outcome (total acc : bool) (m : M bool) (st : State) :
  walker_spec total acc m -> well_formed st ->
  scan_outcome total (fun r st' => walker_step acc st r st') (m st).
Proof.
  intros H Hwf. specialize (H st Hwf). destruct (m st); cbn; auto.
Qed.

Section WithFuel.

Variables (total : bool) (rank : string -> nat) (B fuel : nat).
Hypothesis enough_fuel : total = true -> height_bounded X rank B /\ B < fuel.

Lemma classifier_spec (entryName : string) :
  walker_spec total false (createTagsForEntry X fuel entryName).
Proof.
  apply (createTagsForEntry_spec X total rank B).
  - intros Ht. apply (enough_fuel Ht).
  - intros Ht. destruct (enough_fuel Ht) as [[Hb _] Hf].
    specialize (Hb entryName). lia.
Qed.

Lemma createTagsForWildcardArg_spec (arg : string) :
  walker_spec total false (createTagsForWildcardArg X fuel arg).
Proof.
  intros st Hwf. unfold createTagsForWildcardArg.
  destruct (directoryIteration X); try apply walker_step_refl.
  unfold bind, getOption, createTagsForWildcardUsingFindfirst.
  apply findnext_loop_spec; auto. intros; apply classifier_spec.
Qed.

Lemma createTagsForArgs_loop_spec :
  forall (n : nat) (args : cookedArgs) (acc : bool) (st : State),
    List.length args <= n -> well_formed st ->
    scan_outcome total
      (fun ra st' => exists delta, scan_run acc st (fst ra) st' delta)
      (createTagsForArgs_loop X fuel n args acc st).
Proof.
  induction n as [| n IH]; intros args acc st Hlen Hwf.
  - destruct args; [| cbn in Hlen; lia].
    cbn. exists []. apply scan_run_refl.
  - destruct args as [| t rest].
    { cbn. exists []. apply scan_run_refl. }
    cbn [createTagsForArgs_loop cArgOff cArgItem cArgForth tl].
    eapply scan_outcome_bind.
    + apply walker_spec_scan_outcome; [| exact Hwf].
      destruct (MANUAL_GLOBBING X);
        [apply createTagsForWildcardArg_spec | apply classifier_spec].
    + intros r st1 H1. cbn beta in H1.
      apply walker_step_scan_run in H1 as (d1 & H1 & _ & _ & _).
      destruct (parseCmdlineOptions_spec rest st1) as (args' & opt' & Hp & _ & Hl & _).
      unfold bind. rewrite Hp.
      assert (Hwf1 : well_formed (set_Option st1 opt'))
        by (eapply scan_run_well_formed; [apply scan_run_set_Option |]; eauto).
      assert (Hlen' : List.length args' <= n) by (cbn in Hlen; lia).
      specialize (IH args' (acc || r) _ Hlen' Hwf1).
      destruct (createTagsForArgs_loop X fuel n args' (acc || r) _); cbn in *; auto.
      destruct IH as (d2 & H2). exists (d1 ++ d2).
      eapply scan_run_accumulate; [| exact H2].
      now apply scan_run_set_Option.
Qed.

Lemma createTagsFromFileInput_loop_spec (flt : bool) :
  forall (n : nat) (args : cookedArgs) (acc : bool) (st : State),
    List.length args <= n -> rests_on_item args -> well_formed st ->
    match createTagsFromFileInput_loop X fuel n args flt acc st with
    | Returned r st' =>
        exists delta,
          scan_run acc st r st' delta /\
          stdin st' = stdin st /\
          stdout_writes delta
          = if flt then filter_output X args (Option st) else []
    | OutOfFuel => total = false
    | Exited _ | Undefined => False
    end.
Proof.
  induction n as [| n IH]; intros args acc st Hlen Hrest Hwf.
  - destruct args; [| cbn in Hlen; lia].
    cbn. exists []. split; [apply scan_run_refl |]. now destruct flt.
  - destruct args as [| t rest].
    { cbn. exists []. split; [apply scan_run_refl |]. now destruct flt. }
    cbn in Hrest.
    cbn [createTagsFromFileInput_loop cArgOff cArgItem cArgForth tl].
    unfold bind at 1.
    pose proof (classifier_spec (item t) st Hwf) as H1.
    destruct (createTagsForEntry X fuel (item t) st) as [r st1 | | |]; auto.
    apply walker_step_scan_run in H1 as (d1 & H1 & Hw1 & Ho1 & Hi1).
    set (block := if flt then terminator_events (Option st) ++ [EvFflush] else []).
    assert (Hblock : exists st2,
      (forall (k : unit -> M bool),
         bind (if flt
               then (opt <- getOption ;;
                     match filterTerminator opt with
                     | Some terminator => fputs_stdout terminator
                     | None => ret tt
                     end ;;
                     fflush_stdout)
               else ret tt) k st1 = k tt st2) /\
      scan_run (acc || r) st1 (acc || r) st2 block /\
      Option st2 = Option st /\ stdin st2 = stdin st).
    { subst block. destruct flt.
      - unfold terminator_events. rewrite <- Ho1.
        destruct (filterTerminator (Option st1)) eqn:Hterm.
        + exists (append_log st1 [EvFputs s; EvFflush]). split; [| split].
          * intros k. unfold bind, getOption, fputs_stdout, fflush_stdout, emit, ret.
            rewrite Hterm. cbn. unfold append_log.
            rewrite <- app_assoc. reflexivity.
          * apply scan_run_events; [repeat constructor | reflexivity].
          * cbn. auto.
        + exists (append_log st1 [EvFflush]). split; [| split].
          * intros k. unfold bind, getOption, fputs_stdout, fflush_stdout, emit, ret.
            rewrite Hterm. reflexivity.
          * apply scan_run_events; [repeat constructor | reflexivity].
          * cbn. auto.
      - exists st1. split; [| split]; auto.
        apply scan_run_refl. }
    destruct Hblock as (st2 & Hk & H2 & Ho2 & Hi2). rewrite Hk.
    destruct (parseCmdlineOptions_spec rest st2) as (args' & opt' & Hp & Hr' & Hl & Hfo).
    unfold bind. rewrite Hp.
    assert (Hwf2 : well_formed (set_Option st2 opt')).
    { eapply scan_run_well_formed; [apply scan_run_set_Option; exact H2 |].
      eapply scan_run_well_formed; eauto. }
    assert (Hlen' : List.length args' <= n) by (cbn in Hlen; lia).
    specialize (IH args' (acc || r) _ Hlen' Hr' Hwf2).
    destruct (createTagsFromFileInput_loop X fuel n args' flt (acc || r) _); auto.
    destruct IH as (d3 & H3 & Hi3 & Hs3).
    exists (d1 ++ block ++ d3). split; [| split].
    + eapply scan_run_accumulate; [exact H1 |].
      eapply scan_run_trans; [exact H2 |].
      destruct H3 as (He3 & Hd3 & Hl3 & Hf3 & Hr3).
      unfold scan_run. cbn in *. auto.
    + cbn in Hi3. congruence.
    + rewrite !stdout_writes_app, (walker_events_no_stdout d1 Hw1), Hs3.
      cbn [app Option set_Option]. subst block. destruct flt; [| reflexivity].
      cbn [filter_output]. rewrite Hrest, Ho2 in *. rewrite Hfo.
      rewrite stdout_writes_app. unfold terminator_events.
      destruct (filterTerminator (Option st)); cbn; now rewrite <- ?app_assoc.
Qed.

(** *** The calls the orchestrator loops make *)

(** Option parsing, seen from the plan of the entries: the items that
    follow and the options they are met with are settled by the tokens. *)
Lemma parseCmdlineOptions_plan :
  forall (args : cookedArgs) (st : State),
  exists args' opt',
    parseCmdlineOptions X args st = Returned args' (set_Option st opt') /\
    rests_on_item args' /\
    List.length args' <= List.length args /\
    positional X args (Option st) = positional X args' opt' /\
    options_after X args (Option st) = options_after X args' opt'.
Proof.
  induction args as [| t rest IH]; intros st.
  - exists [], (Option st). cbn. unfold ret. rewrite set_Option_same. auto.
  - cbn [parseCmdlineOptions positional options_after].
    destruct (isOption t) eqn:Ht.
    + unfold bind.
      destruct (IH (set_Option st (parseOption X (item t) (Option st))))
        as (args' & opt' & H1 & H2 & H3 & H4 & H5).
      exists args', opt'. rewrite H1. cbn in *. repeat split; auto.
    + exists (t :: rest), (Option st). unfold ret. rewrite set_Option_same.
      cbn [rests_on_item positional options_after]. rewrite Ht. auto.
Qed.

Lemma rests_argument_items (args : cookedArgs) (opt : Options) :
  rests_on_item args -> argument_items X args opt = positional X args opt.
Proof.
  destruct args as [| t rest]; [reflexivity |]. cbn. now intros ->.
Qed.

Lemma rests_options_after (args : cookedArgs) (opt : Options) :
  rests_on_item args ->
  options_after X (tl args) opt = options_after X args opt.
Proof.
  destruct args as [| t rest]; [reflexivity |]. cbn. now intros ->.
Qed.

(** The output after an entry of a name list. *)
Lemma entry_output_written (flt : bool) (st : State) {A} (k : unit -> M A) :
  bind (if flt
        then (opt <- getOption ;;
              match filterTerminator opt with
              | Some terminator => fputs_stdout terminator
              | None => ret tt
              end ;;
              fflush_stdout)
        else ret tt) k st
  = k tt (append_log st (entry_output flt (Option st))).
Proof.
  unfold entry_output, terminator_events. destruct flt.
  - unfold bind, getOption, fputs_stdout, fflush_stdout, emit, ret.
    destruct (filterTerminator (Option st)); cbn; unfold append_log; cbn;
      rewrite <- ?app_assoc; reflexivity.
  - rewrite append_log_nil. reflexivity.
Qed.

(** The loop of [createTagsFromFileInput] calls the classifier on the
    positional items in turn, each under the options in force for it,
    and writes the output for an entry right after its call. *)
Lemma createTagsFromFileInput_loop_served (flt : bool) :
  forall (n : nat) (args : cookedArgs) (acc : bool) (st : State),
    List.length args <= n -> rests_on_item args -> well_formed st ->
    match createTagsFromFileInput_loop X fuel n args flt acc st with
    | Returned r st' =>
        exists visits,
          Forall (visit_of (createTagsForEntry X fuel)) visits /\
          map (fun v => (visited v, Option (before v))) visits
          = positional X args (Option st) /\
          served flt st visits st' /\
          r = acc || any_verdict visits /\
          Option st' = options_after X args (Option st) /\
          stdin st' = stdin st /\
          well_formed st'
    | OutOfFuel => total = false
    | Exited _ | Undefined => False
    end.
Proof.
  assert (Hnil : forall acc st, well_formed st ->
            exists visits : list Visit,
              Forall (visit_of (createTagsForEntry X fuel)) visits /\
              map (fun v => (visited v, Option (before v))) visits
              = positional X [] (Option st) /\
              served flt st visits st /\
              acc = acc || any_verdict visits /\
              Option st = options_after X [] (Option st) /\
              stdin st = stdin st /\
              well_formed st).
  { intros acc st Hwf. exists []. cbn. rewrite orb_false_r.
    split; [constructor |]. split; [reflexivity |].
    split; [apply reconfigured_refl |]. auto. }
  induction n as [| n IH]; intros args acc st Hlen Hrest Hwf.
  - destruct args; [| cbn in Hlen; lia]. cbn. now apply Hnil.
  - destruct args as [| t rest]; [cbn; now apply Hnil |].
    cbn in Hrest.
    cbn [createTagsFromFileInput_loop cArgOff cArgItem cArgForth tl].
    unfold bind at 1.
    pose proof (classifier_spec (item t) st Hwf) as H1.
    destruct (createTagsForEntry X fuel (item t) st) as [r1 s1 | | |] eqn:Hcall;
      auto.
    destruct H1 as (Ho1 & He1 & Hi1 & Hd1 & _).
    rewrite entry_output_written.
    set (s2 := append_log s1 (entry_output flt (Option s1))).
    destruct (parseCmdlineOptions_plan rest s2)
      as (args' & opt' & Hp & Hr' & Hl & Hpos & Hopt).
    unfold bind. rewrite Hp.
    assert (Hwf2 : well_formed (set_Option s2 opt'))
      by (unfold well_formed in *; cbn; now rewrite Hd1).
    assert (Hlen' : List.length args' <= n) by (cbn in Hlen; lia).
    specialize (IH args' (acc || r1) _ Hlen' Hr' Hwf2).
    destruct (createTagsFromFileInput_loop X fuel n args' flt (acc || r1) _)
      as [r st' | | |]; auto.
    destruct IH as (visits & Hv & Hn & Hs & Hres & Hoa & Hin & Hwf').
    cbn [Option set_Option stdin] in Hn, Hoa, Hin.
    assert (Ho2 : Option s2 = Option st) by (cbn; exact Ho1).
    exists (mkVisit (item t) st r1 s1 :: visits).
    split; [constructor; [exact Hcall | exact Hv] |].
    split.
    { cbn [map visited before positional]. rewrite Hrest. f_equal.
      rewrite Hn, <- Hpos, Ho2. reflexivity. }
    split.
    { cbn [served before after]. split; [apply reconfigured_refl |].
      eapply served_reconfigure; [| exact Hs]. apply reconfigured_set_Option. }
    split; [rewrite Hres; cbn; now rewrite orb_assoc |].
    split.
    { cbn [options_after]. rewrite Hrest, Hoa, <- Hopt, Ho2. reflexivity. }
    split; [| exact Hwf'].
    rewrite Hin. cbn. exact Hi1.
Qed.

(** What is classified for one argument of the command line. *)
Lemma argument_visits (arg : string) (st : State) :
  well_formed st ->
  match (if MANUAL_GLOBBING X then createTagsForWildcardArg X fuel arg
         else createTagsForEntry X fuel arg) st with
  | Returned r st' =>
      (exists visits,
          Forall (visit_of (createTagsForEntry X fuel)) visits /\
          map visited visits = argument_paths X arg (Option st) /\
          linked eq st visits st' /\
          r = any_verdict visits) /\
      walker_step false st r st'
  | OutOfFuel => total = false
  | Exited _ | Undefined => False
  end.
Proof.
  intros Hwf. unfold argument_paths. destruct (MANUAL_GLOBBING X).
  - pose proof (createTagsForWildcardArg_spec arg st Hwf) as H.
    destruct (createTagsForWildcardArg X fuel arg st) as [r st' | | |] eqn:Hrun;
      auto.
    split; [| exact H]. unfold createTagsForWildcardArg in Hrun.
    destruct (directoryIteration X).
    + injection Hrun as <- <-. exists []. cbn. auto.
    + unfold bind, getOption, createTagsForWildcardUsingFindfirst in Hrun.
      rewrite findnext_loop_dispatch in Hrun.
      apply dispatchChildren_visits in Hrun as (visits & Hn & Hv & Hl & Hr).
      exists visits. auto.
    + injection Hrun as <- <-. exists []. cbn. auto.
  - pose proof (classifier_spec arg st Hwf) as H.
    destruct (createTagsForEntry X fuel arg st) as [r st' | | |] eqn:Hrun; auto.
    split; [| exact H]. exists [mkVisit arg st r st']. cbn.
    rewrite orb_false_r. repeat split; auto.
Qed.

(** The loop of [createTagsForArgs] calls the classifier on what each
    argument resolves to, argument after argument. *)
Lemma createTagsForArgs_loop_visits :
  forall (n : nat) (args : cookedArgs) (acc : bool) (st : State),
    List.length args <= n -> well_formed st ->
    match createTagsForArgs_loop X fuel n args acc st with
    | Returned ra st' =>
        exists visits,
          Forall (visit_of (createTagsForEntry X fuel)) visits /\
          map visited visits
          = flat_map (fun a => argument_paths X (fst a) (snd a))
                     (argument_items X args (Option st)) /\
          linked between_entries st visits st' /\
          fst ra = acc || any_verdict visits /\
          Option st' = options_after X (tl args) (Option st) /\
          stdin st' = stdin st /\
          well_formed st'
    | OutOfFuel => total = false
    | Exited _ | Undefined => False
    end.
Proof.
  assert (Hnil : forall acc st, well_formed st ->
            exists visits : list Visit,
              Forall (visit_of (createTagsForEntry X fuel)) visits /\
              map visited visits
              = flat_map (fun a => argument_paths X (fst a) (snd a))
                         (argument_items X [] (Option st)) /\
              linked between_entries st visits st /\
              acc = acc || any_verdict visits /\
              Option st = options_after X (tl []) (Option st) /\
              stdin st = stdin st /\
              well_formed st).
  { intros acc st Hwf. exists []. cbn. rewrite orb_false_r.
    split; [constructor |]. split; [reflexivity |].
    split; [apply between_entries_refl |]. auto. }
  induction n as [| n IH]; intros args acc st Hlen Hwf.
  - destruct args; [| cbn in Hlen; lia]. cbn. now apply Hnil.
  - destruct args as [| t rest]; [cbn; now apply Hnil |].
    cbn [createTagsForArgs_loop cArgOff cArgItem cArgForth tl].
    unfold bind at 1.
    pose proof (argument_visits (item t) st Hwf) as H1.
    destruct ((if MANUAL_GLOBBING X then createTagsForWildcardArg X fuel (item t)
               else createTagsForEntry X fuel (item t)) st)
      as [r1 s1 | | |]; auto.
    destruct H1 as ((v1 & Hv1 & Hn1 & Hl1 & Hr1) & (Ho1 & He1 & Hi1 & Hd1 & _)).
    destruct (parseCmdlineOptions_plan rest s1)
      as (args' & opt' & Hp & Hr' & Hl & Hpos & Hopt).
    unfold bind. rewrite Hp.
    assert (Hwf1 : well_formed (set_Option s1 opt'))
      by (unfold well_formed in *; cbn; now rewrite Hd1).
    assert (Hlen' : List.length args' <= n) by (cbn in Hlen; lia).
    specialize (IH args' (acc || r1) _ Hlen' Hwf1).
    destruct (createTagsForArgs_loop X fuel n args' (acc || r1) _)
      as [ra st' | | |]; auto.
    destruct IH as (visits & Hv & Hn & Hs & Hres & Hoa & Hin & Hwf').
    cbn [Option set_Option stdin] in Hn, Hoa, Hin.
    exists (v1 ++ visits).
    split; [now apply Forall_app |].
    split.
    { rewrite map_app, Hn1, Hn. cbn [argument_items flat_map fst snd].
      f_equal. rewrite (rests_argument_items _ _ Hr'), <- Hpos, Ho1.
      reflexivity. }
    split.
    { eapply (linked_app _ between_entries_trans).
      - eapply linked_weaken; [| exact Hl1].
        intros a b <-. apply between_entries_refl.
      - eapply (linked_prepend _ between_entries_trans); [| exact Hs].
        apply reconfigured_between, reconfigured_set_Option. }
    split.
    { rewrite Hres, any_verdict_app, Hr1. now rewrite orb_assoc. }
    split.
    { rewrite Hoa, (rests_options_after _ _ Hr'), <- Hopt, Ho1. reflexivity. }
    split; [| exact Hwf'].
    rewrite Hin. exact Hi1.
Qed.

End WithFuel.

End Orchestrator.

(** ** Batch runs *)

Section Batch.

Variable X : Collaborators.

Section WithFuel.

Variables (total : bool) (rank : string -> nat) (B fuel : nat).
Hypothesis enough_fuel : total = true -> height_bounded X rank B /\ B < fuel.

Lemma createTagsFromFileInput_spec (flt : bool) (fp : FILE) (st : State) :
  well_formed st ->
  match createTagsFromFileInput X fuel (Some fp) flt st with
  | Returned r st' =>
      exists delta,
        scan_run false st r st' delta /\
        stdout_writes delta
        = if flt then filter_output X (tokens_of X fp st) (Option st) else []
  | OutOfFuel => total = false
  | Exited _ | Undefined => False
  end.
Proof.
  intros Hwf. unfold createTagsFromFileInput.
  set (st0 := match fp with Stdin => set_stdin st [] | Opened _ => st end).
  assert (H0 : forall (k : cookedArgs -> M bool),
             bind (cArgNewFromLineFile_of X fp) k st = k (tokens_of X fp st) st0).
  { intros k. subst st0. destruct fp; reflexivity. }
  rewrite H0.
  assert (Hsame : Option st0 = Option st /\ environ st0 = environ st /\
                  recursionDepth st0 = recursionDepth st /\ log st0 = log st)
    by (subst st0; destruct fp; cbn; auto).
  destruct Hsame as (Ho & He & Hd & Hl).
  destruct (parseCmdlineOptions_spec X (tokens_of X fp st) st0)
    as (args & opt' & Hp & Hr & _ & Hfo).
  rewrite (bind_Returned _ _ _ _ _ Hp).
  assert (Hwf' : well_formed (set_Option st0 opt'))
    by (unfold well_formed in *; cbn; now rewrite Hd).
  pose proof (createTagsFromFileInput_loop_spec X total rank B fuel enough_fuel
                flt (List.length args) args false _ (le_n _) Hr Hwf') as H.
  destruct (createTagsFromFileInput_loop X fuel _ args flt false _); auto.
  destruct H as (delta & (He' & Hd' & Hl' & Hf' & Hr') & _ & Hs).
  exists delta. split.
  - unfold scan_run. cbn in *. repeat split; auto; congruence.
  - rewrite Hs. cbn [Option set_Option]. now rewrite <- Hfo, Ho.
Qed.

(** *** The calls of a batch run *)

Lemma visited_of_pairs (visits : list Visit) (items : list (string * Options)) :
  map (fun v => (visited v, Option (before v))) visits = items ->
  map visited visits = map fst items.
Proof. intros <-. rewrite map_map. reflexivity. Qed.

Lemma createTagsFromFileInput_served (flt : bool) (fp : FILE) (st : State) :
  well_formed st ->
  match createTagsFromFileInput X fuel (Some fp) flt st with
  | Returned r st' =>
      exists visits,
        Forall (visit_of (createTagsForEntry X fuel)) visits /\
        map (fun v => (visited v, Option (before v))) visits
        = positional X (tokens_of X fp st) (Option st) /\
        served flt (cursor_created fp st) visits st' /\
        r = any_verdict visits /\
        Option st' = options_after X (tokens_of X fp st) (Option st) /\
        stdin st' = stdin (cursor_created fp st) /\
        well_formed st'
  | OutOfFuel => total = false
  | Exited _ | Undefined => False
  end.
Proof.
  intros Hwf. unfold createTagsFromFileInput.
  set (st0 := cursor_created fp st).
  assert (H0 : forall (k : cookedArgs -> M bool),
             bind (cArgNewFromLineFile_of X fp) k st = k (tokens_of X fp st) st0).
  { intros k. subst st0. destruct fp; reflexivity. }
  rewrite H0.
  assert (Hsame : Option st0 = Option st /\ recursionDepth st0 = recursionDepth st)
    by (subst st0; destruct fp; cbn; auto).
  destruct Hsame as (Ho & Hd).
  destruct (parseCmdlineOptions_plan X (tokens_of X fp st) st0)
    as (args & opt' & Hp & Hr & _ & Hpos & Hopt).
  rewrite (bind_Returned _ _ _ _ _ Hp).
  assert (Hwf' : well_formed (set_Option st0 opt'))
    by (unfold well_formed in *; cbn; now rewrite Hd).
  pose proof (createTagsFromFileInput_loop_served X total rank B fuel enough_fuel
                flt (List.length args) args false _ (le_n _) Hr Hwf') as H.
  destruct (createTagsFromFileInput_loop X fuel _ args flt false _); auto.
  destruct H as (visits & Hv & Hn & Hs & Hres & Hoa & Hin & Hwf'').
  cbn [Option set_Option stdin] in Hn, Hoa, Hin.
  exists visits. split; [exact Hv |].
  split; [now rewrite Hn, <- Hpos, Ho |].
  split.
  { eapply served_reconfigure; [| exact Hs]. apply reconfigured_set_Option. }
  split; [exact Hres |].
  split; [now rewrite Hoa, <- Hopt, Ho |].
  auto.
Qed.

Lemma scanned_start (st : State) :
  well_formed st -> scanned X fuel [] st false st.
Proof.
  intros Hwf. exists []. cbn. repeat split; auto; try apply Hwf.
  apply between_entries_refl.
Qed.

(** A scan goes on with the calls of a name list, made after an
    announcement. *)
Lemma scanned_served (entries : list string) (st0 s s' : State) (r1 r : bool)
    (flt : bool) (fp : FILE) (text : string) (visits : list Visit) :
  scanned X fuel entries st0 r1 s ->
  Forall (visit_of (createTagsForEntry X fuel)) visits ->
  served flt (cursor_created fp (append_log s [EvVerbose text []])) visits s' ->
  r = any_verdict visits ->
  well_formed s' ->
  scanned X fuel (entries ++ map visited visits) st0 (r || r1) s'.
Proof.
  intros (v1 & Hv1 & Hn1 & Hl1 & Hr1 & Hwf1) Hv Hs Hr Hwf.
  exists (v1 ++ visits).
  split; [now apply Forall_app |].
  split; [now rewrite map_app, Hn1 |].
  split.
  { eapply (linked_app _ between_entries_trans); [exact Hl1 |].
    eapply (linked_prepend _ between_entries_trans);
      [| eapply served_linked; exact Hs].
    apply (between_entries_trans _ (append_log s [EvVerbose text []])).
    - apply between_entries_append. repeat constructor.
    - destruct fp; [apply between_entries_stdin | apply between_entries_refl]. }
  split; [| exact Hwf].
  rewrite any_verdict_app, Hr, Hr1. apply orb_comm.
Qed.

Lemma batch_outcome_bind {A C} (fatal : Prop) (m : M A) (k : A -> M C)
    (st : State) (mid : A -> State -> Prop) (post : C -> State -> Prop) :
  batch_outcome total fatal mid (m st) ->
  (forall a st1, mid a st1 -> batch_outcome total fatal post (k a st1)) ->
  batch_outcome total fatal post (bind m k st).
Proof.
  unfold bind. destruct (m st); cbn; auto.
Qed.

Lemma batch_outcome_fatal {A} (fatal fatal' : Prop)
    (post : A -> State -> Prop) (o : Outcome A) :
  (fatal -> fatal') ->
  batch_outcome total fatal post o -> batch_outcome total fatal' post o.
Proof. destruct o; cbn; auto. Qed.

Lemma stage_arguments_visits (fatal : Prop) (args : cookedArgs) (st : State) :
  well_formed st ->
  batch_outcome total fatal
    (fun ra st' =>
       scanned X fuel
         (flat_map (fun a => argument_paths X (fst a) (snd a))
                   (argument_items X args (Option st)))
         st (fst ra) st' /\
       Option st' = options_after X (tl args) (Option st) /\
       stdin st' = stdin st)
    ((if negb (cArgOff args) then
        verbose ("Reading command line arguments" +++ NL) [] ;;
        createTagsForArgs X fuel args
      else ret (false, args)) st).
Proof.
  intros Hwf. destruct args as [| t rest].
  - cbn. split; [now apply scanned_start | auto].
  - cbn [cArgOff negb]. rewrite bind_verbose. set (st1 := append_log st _).
    assert (Hwf1 : well_formed st1) by exact Hwf.
    pose proof (createTagsForArgs_loop_visits X total rank B fuel enough_fuel
                  (List.length (t :: rest)) (t :: rest) false st1 (le_n _) Hwf1)
      as H.
    unfold createTagsForArgs.
    destruct (createTagsForArgs_loop X fuel _ (t :: rest) false st1)
      as [[r1 args1] st2 | | |]; cbn [batch_outcome] in *; auto;
      try contradiction.
    destruct H as (visits & Hv & Hn & Hl & Hr & Ho & Hi & Hwf2).
    split; [| split; [exact Ho | exact Hi]].
    exists visits. split; [exact Hv |]. split; [exact Hn |].
    split; [| split; [exact Hr | exact Hwf2]].
    eapply (linked_prepend _ between_entries_trans); [| exact Hl].
    subst st1. apply between_entries_append. repeat constructor.
Qed.

Lemma stage_list_visits (entries : list string) (st0 s : State) (r1 : bool) :
  scanned X fuel entries st0 r1 s ->
  batch_outcome total (list_file_unreadable X (Option s))
    (fun r st' =>
       scanned X fuel
         (entries
          ++ map fst (positional X (list_file_tokens X (Option s) (stdin s))
                                 (Option s)))
         st0 r st' /\
       Option st' = options_after X (list_file_tokens X (Option s) (stdin s))
                                  (Option s) /\
       stdin st' = input_after_list (Option s) (stdin s))
    (match fileList (Option s) with
     | Some name =>
         verbose ("Reading list file" +++ NL) [] ;;
         r <- createTagsFromListFile X fuel name ;;
         ret (r || r1)
     | None => ret r1
     end s).
Proof.
  intros Hscan. pose proof Hscan as (_ & _ & _ & _ & _ & Hwf).
  unfold list_file_tokens, input_after_list, list_file_unreadable.
  destruct (fileList (Option s)) as [name |] eqn:Hlist.
  - rewrite bind_verbose. set (s1 := append_log s _).
    assert (Hwf1 : well_formed s1) by exact Hwf.
    unfold createTagsFromListFile, bind.
    destruct (strcmp_eq name "-") eqn:Hdash.
    + pose proof (createTagsFromFileInput_served false Stdin s1 Hwf1) as H.
      destruct (createTagsFromFileInput X fuel (Some Stdin) false s1)
        as [r s' | | |]; cbn [batch_outcome] in *; auto; try contradiction.
      destruct H as (visits & Hv & Hn & Hs & Hr & Ho & Hi & Hwf').
      cbn [tokens_of stdin Option s1 append_log set_log cursor_created] in *.
      split; [| split; [exact Ho | exact Hi]].
      rewrite <- (visited_of_pairs _ _ Hn).
      eapply (scanned_served _ _ _ _ _ _ false Stdin); eauto.
    + destruct (fopen X name) as [content |] eqn:Hopen;
        [| cbn; exists name; auto].
      pose proof (createTagsFromFileInput_served false (Opened content) s1 Hwf1)
        as H.
      destruct (createTagsFromFileInput X fuel (Some (Opened content)) false s1)
        as [r s' | | |]; cbn [batch_outcome] in *; auto; try contradiction.
      destruct H as (visits & Hv & Hn & Hs & Hr & Ho & Hi & Hwf').
      cbn [tokens_of stdin Option s1 append_log set_log cursor_created] in *.
      split; [| split; [exact Ho | exact Hi]].
      rewrite <- (visited_of_pairs _ _ Hn).
      eapply (scanned_served _ _ _ _ _ _ false (Opened content)); eauto.
  - cbn. rewrite app_nil_r. auto.
Qed.

Lemma stage_filter_visits (fatal : Prop) (entries : list string)
    (st0 s : State) (r1 : bool) :
  scanned X fuel entries st0 r1 s ->
  batch_outcome total fatal
    (fun r st' =>
       scanned X fuel
         (entries
          ++ map fst (positional X
                        (if filter (Option s)
                         then cArgNewFromLineFile X (stdin s) else [])
                        (Option s)))
         st0 r st')
    ((if filter (Option s) then
        verbose ("Reading filter input" +++ NL) [] ;;
        r <- createTagsFromFileInput X fuel (Some Stdin) true ;;
        ret (r || r1)
      else ret r1) s).
Proof.
  intros Hscan. pose proof Hscan as (_ & _ & _ & _ & _ & Hwf).
  destruct (filter (Option s)) eqn:Hfilter.
  - rewrite bind_verbose. set (s1 := append_log s _).
    assert (Hwf1 : well_formed s1) by exact Hwf.
    unfold bind.
    pose proof (createTagsFromFileInput_served true Stdin s1 Hwf1) as H.
    destruct (createTagsFromFileInput X fuel (Some Stdin) true s1)
      as [r s' | | |]; cbn [batch_outcome] in *; auto; try contradiction.
    destruct H as (visits & Hv & Hn & Hs & Hr & Ho & Hi & Hwf').
    cbn [tokens_of stdin Option s1 append_log set_log cursor_created] in *.
    rewrite <- (visited_of_pairs _ _ Hn).
    eapply (scanned_served _ _ _ _ _ _ true Stdin); eauto.
  - cbn. rewrite app_nil_r. exact Hscan.
Qed.

(** The tag file is closed and the totals are printed as the options
    ask. *)
Lemma closing_written (r : bool) (args : cookedArgs) (st : State) :
  (opt <- getOption ;;
   when (negb (filter opt) && negb (printLanguage opt)) (closeTagFile r) ;;
   when (printTotals opt) printTotals_call ;;
   ret args) st
  = Returned args (append_log st (closing_events (Option st) r)).
Proof.
  rewrite bind_getOption. unfold closing_events.
  destruct (negb (filter (Option st)) && negb (printLanguage (Option st)));
    destruct (printTotals (Option st)); cbn [app];
    unfold closeTagFile, printTotals_call;
    repeat first [rewrite bind_when_true | rewrite bind_when_false
                 | rewrite bind_emit | rewrite append_log_app];
    rewrite ?append_log_nil; reflexivity.
Qed.

Lemma opening_written {A} (k : unit -> M A) (st : State) :
  bind (when (negb (filter (Option st)) && negb (printLanguage (Option st)))
             openTagFile) k st
  = k tt (append_log st (opening_events (Option st))).
Proof.
  unfold opening_events.
  destruct (negb (filter (Option st)) && negb (printLanguage (Option st))).
  - reflexivity.
  - rewrite append_log_nil. reflexivity.
Qed.

(** A batch run without file source that does not return at once: the
    tag file is opened, the implicit root is walked when recursion is
    enabled, and the tag file is closed. *)
Lemma batchMakeTags_without_source (args : cookedArgs) (st : State) :
  no_file_source args (Option st) ->
  filesRequired X (Option st) = false ->
  recurse (Option st) || etagsIncluded (Option st) = true ->
  batchMakeTags X fuel args st
  = (resize <- (if recurse (Option st)
                then recurseIntoDirectory X (createTagsForEntry X fuel) "."
                else ret false) ;;
     opt <- getOption ;;
     when (negb (filter opt) && negb (printLanguage opt)) (closeTagFile resize) ;;
     when (printTotals opt) printTotals_call ;;
     ret args) (append_log st (opening_events (Option st))).
Proof.
  intros (Hoff & Hlist & Hfilter) Hreq Hrun.
  unfold batchMakeTags. rewrite bind_getOption.
  rewrite Hoff, Hlist, Hfilter, Hreq. cbn [negb orb andb is_some].
  assert (Hret : negb (recurse (Option st)) && negb (etagsIncluded (Option st))
                 = false).
  { destruct (recurse (Option st)), (etagsIncluded (Option st));
      cbn in *; congruence. }
  rewrite Hret, bind_ret.
  assert (Hopen : forall (k : unit -> M cookedArgs),
             bind (when (negb (printLanguage (Option st))) openTagFile) k st
             = k tt (append_log st (opening_events (Option st)))).
  { intros k. rewrite <- (opening_written k st). now rewrite Hfilter. }
  rewrite Hopen.
  rewrite bind_ret. cbn [fst snd].
  rewrite bind_getOption. cbn [Option append_log set_log].
  rewrite Hlist, bind_ret, bind_getOption. cbn [Option append_log set_log].
  rewrite Hfilter, bind_ret, bind_getOption. cbn [Option append_log set_log].
  reflexivity.
Qed.

End WithFuel.

End Batch.

(** ** Claims about batch runs *)

Section BatchClaims.

Variable X : Collaborators.

Lemma files_false (args : cookedArgs) (opt : Options) :
  negb (cArgOff args) || is_some (fileList opt) || filter opt = false ->
  no_file_source args opt.
Proof.
  unfold no_file_source. destruct (cArgOff args), (fileList opt), (filter opt);
    cbn; intros H; try discriminate; auto.
Qed.

Lemma no_file_source_files (args : cookedArgs) (opt : Options) :
  no_file_source args opt ->
  negb (cArgOff args) || is_some (fileList opt) || filter opt = false.
Proof. intros (-> & -> & ->). reflexivity. Qed.

Lemma no_source_entries (args : cookedArgs) (st : State) :
  no_file_source args (Option st) -> source_entries X args st = [].
Proof.
  intros (Hoff & Hlist & Hfilter). destruct args; [| discriminate].
  unfold source_entries, list_file_tokens. cbn [tl options_after argument_items].
  rewrite Hlist. cbn [options_after]. rewrite Hfilter. reflexivity.
Qed.

(** C4. When a batch run closes the tag file, the resize flag it passes is
    the OR of the flags returned for the entries resolved from the
    sources: the classifier is called, in turn, on what each positional
    argument resolves to, then on each name of the list file, then on
    each name of the filter input, each source read under the options
    the one before left; with no file source and recursion enabled the
    walker is called on the implicit root [.] instead. Between these
    calls nothing is queried or parsed. The flag is the OR of what the
    calls returned, for no, one or many entries, so that one call that
    returned true makes it true. A run ends the process only for want of
    a file source where file input is required or on a list file that
    cannot be opened. With [total] the run is shown to end: in a
    directory tree of bounded height it returns or ends the process.
    Without it the statement holds for every run that ends. *)
Theorem batch_resize_flag_is_or
    (total : bool) (rank : string -> nat) (B fuel : nat)
    (args : cookedArgs) (st : State) :
  (total = true -> height_bounded X rank B /\ B < fuel) ->
  well_formed st ->
  match batchMakeTags X fuel args st with
  | Returned _ st' => resize_flag_is_or X fuel args st st'
  | Exited _ => batch_fatal X args st
  | Undefined => False
  | OutOfFuel => total = false
  end.
Proof.
  intros Hfuel Hwf.
  set (post := fun (_ : cookedArgs) (st' : State) =>
                 resize_flag_is_or X fuel args st st').
  change (batch_outcome total (batch_fatal X args st) post
            (batchMakeTags X fuel args st)).
  set (st0 := append_log st (opening_events (Option st))).
  assert (Hwf0 : well_formed st0) by exact Hwf.
  assert (Hor : forall visits : list Visit, forall v,
             In v visits -> verdict v = true -> any_verdict visits = true)
    by apply any_verdict_In.
  destruct (negb (cArgOff args) || is_some (fileList (Option st))
            || filter (Option st)) eqn:Hfiles.
  - (* some file source is configured *)
    unfold batchMakeTags. rewrite bind_getOption, Hfiles. cbn [negb andb].
    rewrite bind_ret. rewrite opening_written. fold st0.
    eapply batch_outcome_bind.
    { apply (stage_arguments_visits X total rank B fuel Hfuel _ args st0 Hwf0). }
    intros ra sA (HA & HoA & HiA). cbn zeta. rewrite bind_getOption.
    eapply batch_outcome_bind.
    { eapply (batch_outcome_fatal total);
        [| apply (stage_list_visits X total rank B fuel Hfuel _ st0 sA
                    (fst ra) HA)].
      intros H. unfold batch_fatal. right.
      replace (options_after X (tl args) (Option st)) with (Option sA)
        by (rewrite HoA; reflexivity).
      exact H. }
    intros rL sL (HL & HoL & HiL). rewrite bind_getOption.
    eapply batch_outcome_bind.
    { apply (stage_filter_visits X total rank B fuel Hfuel _ _ st0 sL rL HL). }
    intros rF sF (visits & Hv & Hn & Hl & Hr & Hwf'). rewrite bind_getOption.
    rewrite bind_ret, closing_written. cbn [batch_outcome]. subst post.
    right. exists visits, [], sF. rewrite app_nil_r.
    split; [exact Hv |]. split.
    { rewrite Hn. unfold source_entries. rewrite HoL, HiL, HoA, HiA.
      cbn [Option stdin st0 append_log set_log].
      now rewrite <- app_assoc. }
    split; [constructor |]. split.
    { unfold implicit_root. now rewrite Hfiles. }
    split; [exact Hl |]. split; [now rewrite Hr |]. apply Hor.
  - (* no file source *)
    pose proof (files_false _ _ Hfiles) as Hnone.
    destruct (filesRequired X (Option st)) eqn:Hreq.
    { unfold batchMakeTags. rewrite bind_getOption, Hfiles, Hreq.
      cbn. unfold batch_fatal. left. auto. }
    destruct (recurse (Option st) || etagsIncluded (Option st)) eqn:Hrun.
    2: { apply orb_false_iff in Hrun as [Hr He].
         unfold batchMakeTags. rewrite bind_getOption, Hfiles, Hreq, Hr, He.
         cbn. left. auto. }
    rewrite (batchMakeTags_without_source X fuel args st Hnone Hreq Hrun).
    fold st0. subst post.
    destruct (recurse (Option st)) eqn:Hrec.
    + assert (Hw : walker_spec total false
                     (recurseIntoDirectory X (createTagsForEntry X fuel) ".")).
      { apply recurseIntoDirectory_spec. intros child _.
        apply (classifier_spec X total rank B fuel Hfuel). }
      specialize (Hw st0 Hwf0). unfold bind at 1.
      destruct (recurseIntoDirectory X (createTagsForEntry X fuel) "." st0)
        as [r s1 | | |] eqn:Hroot; cbn [batch_outcome]; auto;
        try contradiction.
      rewrite closing_written. cbn [batch_outcome].
      right. exists [], [mkVisit "." st0 r s1], s1.
      split; [constructor |]. split; [now rewrite no_source_entries |].
      split; [repeat constructor; exact Hroot |]. split.
      { unfold implicit_root. now rewrite Hfiles, Hrec. }
      split.
      { cbn. split; apply between_entries_refl. }
      split; [cbn; now rewrite orb_false_r |]. apply Hor.
    + rewrite bind_ret, closing_written. cbn [batch_outcome].
      right. exists [], [], st0.
      split; [constructor |]. split; [now rewrite no_source_entries |].
      split; [constructor |]. split.
      { unfold implicit_root. now rewrite Hfiles, Hrec. }
      split; [apply between_entries_refl |]. split; [reflexivity |]. apply Hor.
Qed.

(** C7. A batch run without positional arguments, list file and filter
    mode stops with the fatal error "No files specified" when file input
    is required; when it is not required and neither recursion nor an
    etags include is active it returns at once and leaves the state as it
    was, the tag file unopened; when it is not required and recursion is
    enabled it walks the working directory [.] as the implicit root. *)
Theorem batch_without_file_source
    (fuel : nat) (args : cookedArgs) (st : State) :
  no_file_source args (Option st) ->
  (filesRequired X (Option st) = true ->
   batchMakeTags X fuel args st
   = Exited (append_log st [no_files_event (getExecutableName X)]))
  /\ (filesRequired X (Option st) = false ->
      recurse (Option st) = false -> etagsIncluded (Option st) = false ->
      batchMakeTags X fuel args st = Returned args st)
  /\ (filesRequired X (Option st) = false ->
      recurse (Option st) = true ->
      batchMakeTags X fuel args st = implicit_root_run X fuel args st).
Proof.
  intros Hnone. pose proof (no_file_source_files _ _ Hnone) as Hfiles.
  destruct Hnone as (Hoff & Hlist & Hfilter).
  unfold batchMakeTags. rewrite bind_getOption. rewrite Hfiles. cbn [negb andb].
  split; [| split].
  - intros ->. reflexivity.
  - intros -> -> ->. reflexivity.
  - intros -> Hrec. rewrite Hrec. cbn [negb andb]. rewrite bind_ret.
    unfold implicit_root_run. rewrite bind_getOption.
    rewrite Hoff, Hfilter. cbn [negb andb].
    destruct (printLanguage (Option st)); cbn [negb];
      rewrite ?bind_when_true, ?bind_when_false;
      unfold openTagFile; rewrite ?bind_emit, !bind_ret; cbn [fst snd];
      rewrite bind_getOption; cbn [Option append_log set_log];
      rewrite Hlist, bind_ret, bind_getOption; cbn [Option append_log set_log];
      rewrite Hfilter, bind_ret, bind_getOption; cbn [Option append_log set_log];
      rewrite Hrec; reflexivity.
Qed.

(** C10. Reading names in filter mode, the classifier is called on each
    name in turn, and right after each call, in the state it returned in,
    the terminator is written when one is configured at that moment and
    the stream is flushed, with or without a terminator; the run goes on
    from there with the options before the next name. Outside filter mode
    nothing is written after a call, and reading a list file writes
    nothing to standard output. The classifier itself writes nothing
    there: the writes are as [filter_output] lists them. With [total] the
    run is shown to return. *)
Theorem filter_mode_terminator_and_flush
    (total : bool) (rank : string -> nat) (B fuel : nat) (fp : FILE)
    (flt : bool) (st : State) :
  (total = true -> height_bounded X rank B /\ B < fuel) ->
  well_formed st ->
  match createTagsFromFileInput X fuel (Some fp) flt st with
  | Returned r st' =>
      exists visits,
        Forall (visit_of (createTagsForEntry X fuel)) visits /\
        map (fun v => (visited v, Option (before v))) visits
        = positional X (tokens_of X fp st) (Option st) /\
        served flt (cursor_created fp st) visits st' /\
        r = any_verdict visits /\
        exists delta,
          log st' = log st ++ delta /\
          stdout_writes delta
          = if flt then filter_output X (tokens_of X fp st) (Option st) else []
  | OutOfFuel => total = false
  | Exited _ | Undefined => False
  end
  /\ (forall opt,
        entry_output false opt = [] /\
        (filterTerminator opt = None -> entry_output true opt = [EvFflush]) /\
        (forall terminator,
            filterTerminator opt = Some terminator ->
            entry_output true opt = [EvFputs terminator; EvFflush]))
  /\ (forall fileName,
        match createTagsFromListFile X fuel fileName st with
        | Returned r st' =>
            exists source visits,
              Forall (visit_of (createTagsForEntry X fuel)) visits /\
              map (fun v => (visited v, Option (before v))) visits
              = positional X (tokens_of X source st) (Option st) /\
              served false (cursor_created source st) visits st' /\
              r = any_verdict visits /\
              exists delta,
                log st' = log st ++ delta /\ stdout_writes delta = []
        | Exited _ => fopen X fileName = None
        | Undefined => False
        | OutOfFuel => total = false
        end).
Proof.
  intros Hfuel Hwf.
  assert (Hinput : forall (source : FILE) (f : bool),
    match createTagsFromFileInput X fuel (Some source) f st with
    | Returned r st' =>
        exists visits,
          Forall (visit_of (createTagsForEntry X fuel)) visits /\
          map (fun v => (visited v, Option (before v))) visits
          = positional X (tokens_of X source st) (Option st) /\
          served f (cursor_created source st) visits st' /\
          r = any_verdict visits /\
          exists delta,
            log st' = log st ++ delta /\
            stdout_writes delta
            = if f then filter_output X (tokens_of X source st) (Option st)
              else []
    | OutOfFuel => total = false
    | Exited _ | Undefined => False
    end).
  { intros source f.
    pose proof (createTagsFromFileInput_served X total rank B fuel Hfuel
                  f source st Hwf) as H1.
    pose proof (createTagsFromFileInput_spec X total rank B fuel Hfuel
                  f source st Hwf) as H2.
    destruct (createTagsFromFileInput X fuel (Some source) f st)
      as [r st' | | |]; auto.
    destruct H1 as (visits & Hv & Hn & Hs & Hr & _).
    destruct H2 as (delta & (_ & _ & Hl & _) & Hw).
    exists visits. repeat (split; [assumption |]). eauto. }
  split; [apply Hinput |]. split.
  - intros opt. unfold entry_output, terminator_events.
    split; [reflexivity |]. split.
    + now intros ->.
    + now intros terminator ->.
  - intros fileName. unfold createTagsFromListFile.
    destruct (strcmp_eq fileName "-").
    + specialize (Hinput Stdin false).
      destruct (createTagsFromFileInput X fuel (Some Stdin) false st); auto;
        try contradiction.
      exists Stdin. exact Hinput.
    + destruct (fopen X fileName) as [content |]; [| reflexivity].
      specialize (Hinput (Opened content) false).
      destruct (createTagsFromFileInput X fuel (Some (Opened content)) false st);
        auto; try contradiction.
      exists (Opened content). exact Hinput.
Qed.

End BatchClaims.

(** ** The interactive loop *)

Section Interactive.

Variable X : Collaborators.

Lemma read_line_complete (line unread : list ascii) :
  forall k, ~ In newline line -> List.length line < k ->
            read_line k (line ++ newline :: unread) = (line ++ [newline], unread).
Proof.
  induction line as [| c line IH]; intros k Hnl Hk.
  - destruct k; [cbn in Hk; lia |]. reflexivity.
  - destruct k; [cbn in Hk; lia |]. cbn [app read_line].
    destruct (Ascii.eqb_spec c newline) as [-> | _].
    + exfalso. apply Hnl. now left.
    + rewrite IH; [reflexivity | | cbn in Hk; lia].
      intros H. apply Hnl. now right.
Qed.

(** A line shorter than the buffer is read whole, with its newline. *)
Lemma fgets_reads_line (line unread : list ascii) (st : State) :
  ~ In newline line -> List.length line < 1023 ->
  stdin st = line ++ newline :: unread ->
  fgets 1024 st = Returned (Some (line ++ [newline])) (set_stdin st unread).
Proof.
  intros Hnl Hlen Hin. unfold fgets. rewrite Hin.
  destruct line as [| c line].
  - reflexivity.
  - change (1024 - 1) with 1023. cbn [app].
    change (c :: line ++ newline :: unread) with ((c :: line) ++ newline :: unread).
    now rewrite read_line_complete.
Qed.

Lemma fgets_log (size : nat) (st st1 : State) (line : option (list ascii)) :
  fgets size st = Returned line st1 ->
  log st1 = log st /\ Option st1 = Option st /\
  recursionDepth st1 = recursionDepth st.
Proof.
  unfold fgets. destruct (stdin st).
  - intros H. injection H as _ <-. auto.
  - destruct (read_line (size - 1) (a :: l)). intros H. injection H as _ <-.
    cbn. auto.
Qed.

(** C5. A [generate-tags] request with a size that is not negative,
    followed by at least that many bytes of input, the buffer for them
    allocated: exactly [size] bytes, the next on the input, are read;
    they are parsed as the content of a file of the requested name; no
    status query and no classification is made for that name; then the
    completed line is written and the output flushed. The request returns
    with these events logged and the input advanced by [size] bytes, and
    the loop goes on from there with the next line. *)
Theorem interactive_memory_request
    (fuel n : nat) (st0 st : State) (buffer : list ascii)
    (request : json) (filename : string) (size : Z)
    (data unread : list ascii) :
  fgets 1024 st0 = Returned (Some buffer) st ->
  Ascii.eqb (hd NUL buffer) newline = false ->
  json_loads X (c_str buffer) = Some request ->
  json_object_get request "command" = Some (JString "generate-tags") ->
  json_object_get request "filename" = Some (JString filename) ->
  json_object_get request "size" = Some (JInteger size) ->
  (0 <= size < 2 ^ 63)%Z ->
  malloc X size = true ->
  stdin st = data ++ unread ->
  Z.of_nat (List.length data) = size ->
  interactiveRequest X fuel buffer st
  = Returned tt
      (append_log (set_stdin st unread) (memory_request_events filename data))
  /\ memory_request_events filename data
     = [EvOpenTagFile; EvParseFileWithMio filename data; EvCloseTagFile false;
        EvFputs completed_line; EvFflush; EvJsonDecref]
  /\ (forall name, ~ In (EvStat name) (memory_request_events filename data))
  /\ interactiveLoop_loop X fuel (S n) st0
     = interactiveLoop_loop X fuel n
         (append_log (set_stdin st unread)
                     (memory_request_events filename data)).
Proof.
  intros Hgets Hfirst Hjson Hcommand Hname Hsize Hrange Hmem Hin Hlen.
  assert (Hrequest :
            interactiveRequest X fuel buffer st
            = Returned tt
                (append_log (set_stdin st unread)
                            (memory_request_events filename data))).
  { unfold interactiveRequest. rewrite Hjson, Hcommand.
    cbn [json_string_value strcmp_eq]. rewrite String.eqb_refl.
    unfold json_unpack_ss, json_unpack_sI. rewrite Hname, Hsize.
    assert (Hne : (size =? -1)%Z = false) by (apply Z.eqb_neq; lia).
    rewrite Hne.
    assert (Hconv : to_size_t size = size).
    { unfold to_size_t, two64. apply Z.mod_small. lia. }
    rewrite Hconv.
    unfold openTagFile, closeTagFile, fputs_stdout, fflush_stdout, json_decref,
      parseFileWithMio, fread, eMalloc.
    rewrite Hmem.
    rewrite bind_emit. unfold bind, emit, ret. cbn.
    assert (Hn : Z.to_nat size = List.length data) by lia.
    rewrite Hin, Hn, firstn_app, skipn_app, Nat.sub_diag, firstn_all, skipn_all.
    cbn [firstn skipn app]. rewrite app_nil_r.
    unfold memory_request_events, append_log, set_log. cbn.
    rewrite <- !app_assoc. reflexivity. }
  split; [exact Hrequest | split; [reflexivity | split]].
  - intros name H. cbn in H.
    repeat (destruct H as [H | H]; [discriminate |]). exact H.
  - cbn [interactiveLoop_loop].
    rewrite (bind_Returned _ _ _ _ _ Hgets). rewrite Hfirst.
    unfold bind at 1. rewrite Hrequest. reflexivity.
Qed.

(** C6. A line that is not empty and that [json_loads] rejects ends the
    process: the only event after the line is read is the fatal
    diagnostic "invalid json", no completed line is written, and what
    follows on the input is not read. *)
Theorem interactive_invalid_json
    (fuel n : nat) (st st1 : State) (buffer : list ascii) :
  fgets 1024 st = Returned (Some buffer) st1 ->
  Ascii.eqb (hd NUL buffer) newline = false ->
  json_loads X (c_str buffer) = None ->
  interactiveLoop_loop X fuel (S n) st
  = Exited (append_log st1 [invalid_json_event])
  /\ log (append_log st1 [invalid_json_event])
     = log st ++ [EvError [FATAL] "invalid json" []]
  /\ ~ In (EvFputs completed_line) [invalid_json_event].
Proof.
  intros Hgets Hfirst Hjson. split; [| split].
  - cbn [interactiveLoop_loop].
    rewrite (bind_Returned _ _ _ _ _ Hgets). rewrite Hfirst.
    unfold interactiveRequest. rewrite Hjson. reflexivity.
  - apply fgets_log in Hgets as (Hl & _). cbn. now rewrite Hl.
  - intros [H | []]. discriminate.
Qed.

End Interactive.

(** ** The environment sanitizer *)

Section Sanitizer.

(** The loop of [isSafeVar] stops with true at the latest when [sv] has
    reached the terminator of the first name: there [strlen (sv)] is zero
    and [strncmp] compares nothing. *)
Lemma isSafeVar_loop_true (var : string) :
  forall sv, isSafeVar_loop sv var = Some true.
Proof.
  induction sv as [| c sv IH].
  - reflexivity.
  - cbn [isSafeVar_loop].
    destruct (strncmp_eq var (String c sv) (strlen (String c sv)));
      [reflexivity | apply IH].
Qed.

Lemma isSafeVar_always (var : string) : isSafeVar var = Some true.
Proof. unfold isSafeVar. cbn [nth safe_vars]. apply isSafeVar_loop_true. Qed.

Lemma sanitizeEntry_unchanged (entry : string) (st : State) :
  sanitizeEntry entry st = Returned entry st.
Proof.
  unfold sanitizeEntry. destruct (strchr entry "=") as [[name from] |];
    [| reflexivity].
  destruct (strncmp_eq (advance from) "() {" 4); [| reflexivity].
  now rewrite isSafeVar_always.
Qed.

Lemma sanitizeEnviron_loop_unchanged (e : list string) (st : State) :
  sanitizeEnviron_loop e st = Returned e st.
Proof.
  induction e as [| entry rest IH]; [reflexivity |].
  cbn [sanitizeEnviron_loop]. unfold bind.
  now rewrite sanitizeEntry_unchanged, IH.
Qed.

(** The sanitizer changes no environment, whatever it holds. *)
Lemma sanitizeEnviron_unchanged (X : Collaborators) (st : State) :
  sanitizeEnviron X st = Returned tt st.
Proof.
  unfold sanitizeEnviron. destruct (HAVE_ENVIRON X); [| reflexivity].
  unfold bind. rewrite sanitizeEnviron_loop_unchanged.
  destruct st; reflexivity.
Qed.

(** C1, the failing input. The entry [MYFUNC=() { :; }] has a value that
    begins with [() {] and a name that is not on the allow-list, and the
    sanitizer leaves it in the environment as it is, without a warning. *)
Theorem sanitizeEnviron_keeps_function_export
    (X : Collaborators) (opt : Options) (depth : Z) (input : list ascii)
    (events : list Event) :
  let entry := "MYFUNC=() { :; }" in
  let st := mkState opt depth [entry] input events in
  option_map (fun value => strncmp_eq value "() {" 4) (value_of entry)
  = Some true
  /\ on_allow_list entry = false
  /\ isSafeVar entry = Some true
  /\ sanitizeEnviron X st = Returned tt st.
Proof.
  intros entry st. repeat split; try reflexivity.
  apply sanitizeEnviron_unchanged.
Qed.

End Sanitizer.

(** ** The bound on the interactive loop suffices *)

Section InteractiveFuel.

Variable X : Collaborators.

Lemma read_line_consumes :
  forall (k : nat) (input line unread : list ascii),
    read_line k input = (line, unread) ->
    List.length unread <= List.length input /\
    (0 < k -> input <> [] -> List.length unread < List.length input).
Proof.
  induction k as [| k IH]; intros input line unread H.
  - cbn in H. destruct input; injection H as <- <-; split; auto; lia.
  - destruct input as [| c rest].
    + cbn in H. injection H as <- <-. split; auto. intros _ Hne. now destruct Hne.
    + cbn [read_line] in H. destruct (Ascii.eqb c newline).
      * injection H as <- <-. cbn. split; intros; lia.
      * destruct (read_line k rest) as [line' unread'] eqn:Hr.
        injection H as <- <-. destruct (IH _ _ _ Hr) as [Hle _].
        cbn. split; intros; lia.
Qed.

Lemma fgets_outcome (st : State) :
  fgets 1024 st = Returned None st \/
  exists buffer st1,
    fgets 1024 st = Returned (Some buffer) st1 /\
    List.length (stdin st1) < List.length (stdin st) /\
    recursionDepth st1 = recursionDepth st.
Proof.
  unfold fgets. destruct (stdin st) as [| c rest] eqn:Hin; [now left | right].
  destruct (read_line (1024 - 1) (c :: rest)) as [line unread] eqn:Hr.
  exists line, (set_stdin st unread). split; [reflexivity |].
  apply read_line_consumes in Hr as [_ Hlt]. cbn in *. split; [| reflexivity].
  apply Hlt; [lia | discriminate].
Qed.

(** A request that returns has read no more input than there was and has
    left the recursion counter alone; a request never runs out of fuel
    when the classifier does not. *)
Lemma interactiveRequest_outcome (total : bool) (rank : string -> nat)
    (B fuel : nat) (buffer : list ascii) (st : State) :
  (total = true -> height_bounded X rank B /\ B < fuel) ->
  well_formed st ->
  match interactiveRequest X fuel buffer st with
  | Returned _ st' =>
      List.length (stdin st') <= List.length (stdin st) /\
      recursionDepth st' = recursionDepth st
  | OutOfFuel => total = false
  | Exited _ | Undefined => True
  end.
Proof.
  intros Hfuel Hwf. unfold interactiveRequest.
  destruct (json_loads X (c_str buffer)) as [request |]; [| exact I].
  destruct (json_object_get request "command") as [command |]; [| exact I].
  destruct (json_string_value command) as [name |]; [| exact I].
  destruct (strcmp_eq "generate-tags" name); [| exact I].
  destruct (json_unpack_ss request "filename") as [filename |]; [| exact I].
  unfold openTagFile. rewrite bind_emit.
  destruct (json_unpack_sI request "size" (-1) =? -1)%Z.
  - rewrite !bind_assoc.
    assert (Hwf1 : well_formed (append_log st [EvOpenTagFile])) by exact Hwf.
    pose proof (classifier_spec X total rank B fuel Hfuel filename _ Hwf1) as H.
    unfold bind at 1.
    destruct (createTagsForEntry X fuel filename _) as [r st1 | | |]; auto.
    destruct H as (_ & _ & Hin & Hd & _).
    cbn. rewrite Hin, Hd. cbn. auto.
  - unfold eMalloc. destruct (malloc X _); [| exact I].
    unfold fread, parseFileWithMio. rewrite !bind_assoc. unfold bind, ret. cbn.
    rewrite length_skipn. split; [lia | reflexivity].
Qed.

(** The loop started with a bound above the length of the input does not
    run out of that bound. *)
Lemma interactiveLoop_loop_bound (total : bool) (rank : string -> nat)
    (B fuel : nat) :
  (total = true -> height_bounded X rank B /\ B < fuel) ->
  forall (n : nat) (st : State),
    well_formed st -> List.length (stdin st) < n ->
    match interactiveLoop_loop X fuel n st with
    | OutOfFuel => total = false
    | _ => True
    end.
Proof.
  intros Hfuel. induction n as [| n IH]; intros st Hwf Hlen; [lia |].
  cbn [interactiveLoop_loop].
  destruct (fgets_outcome st) as [Hnone | (buffer & st1 & Hsome & Hlt & Hd)].
  - rewrite (bind_Returned _ _ _ _ _ Hnone). exact I.
  - rewrite (bind_Returned _ _ _ _ _ Hsome).
    assert (Hwf1 : well_formed st1) by (unfold well_formed in *; now rewrite Hd).
    destruct (Ascii.eqb (hd NUL buffer) newline).
    + rewrite bind_ret. apply IH; [exact Hwf1 | lia].
    + pose proof (interactiveRequest_outcome total rank B fuel buffer st1
                    Hfuel Hwf1) as H.
      unfold bind.
      destruct (interactiveRequest X fuel buffer st1) as [u st2 | | |]; auto.
      destruct H as [Hle Hd2].
      apply IH; [unfold well_formed in *; now rewrite Hd2 | lia].
Qed.

End InteractiveFuel.

(** ** The claims on the sample installation *)

Section SampleFacts.

Import Sample.

Lemma sample_rank_bounded (iteration : DirectoryIteration)
    (required : Options -> bool) :
  iteration = HAVE_OPENDIR ->
  height_bounded (installation iteration required) rank 2.
Proof.
  intros ->. split.
  - intros p. unfold rank.
    destruct (String.eqb p "."), (String.eqb p "subdir"),
      (String.eqb p "subdir/"), (String.eqb p "empty"); lia.
  - intros dirName child. unfold walker_children.
    cbn [directoryIteration installation opendir]. unfold listing.
    destruct (String.eqb_spec dirName ".") as [-> | _].
    { cbn. intros [<- | [<- | [<- | []]]]; cbn; lia. }
    destruct (String.eqb_spec dirName "subdir") as [-> | _].
    { cbn. intros [<- | []]; cbn; lia. }
    destruct (String.eqb_spec dirName "subdir/") as [-> | _].
    { cbn. intros [<- | []]; cbn; lia. }
    destruct (String.eqb_spec dirName "empty") as [-> | _].
    { cbn. intros []. }
    intros [].
Qed.

Lemma sample_well_formed (opt : Options) (input : list ascii) :
  well_formed (set_stdin (start opt) input).
Proof. unfold well_formed, two32. cbn. lia. Qed.

End SampleFacts.

(** The command line [a.c subdir] with recursion enabled: [a.c] and
    [subdir/b.c] are parsed once each, in this order, and the tag file is
    closed with the verdict for [subdir/b.c]. *)
Example scenario_traversal_order :
  exists st',
    batchMakeTags Sample.world 3 [mkToken false "a.c"; mkToken false "subdir"]
      (Sample.start Sample.recursive) = Returned [] st' /\
    List.filter (fun e => match e with
                          | EvParseFile _ _ | EvCloseTagFile _ => true
                          | _ => false
                          end) (log st')
    = [EvParseFile "a.c" false; EvParseFile "subdir/b.c" true;
       EvCloseTagFile true].
Proof. eexists. split; [cbv; reflexivity | reflexivity]. Qed.

(** The command line [a.c subdir/] with recursion enabled and a depth
    limit of five: [a.c] and [subdir/b.c] are parsed once each, in this
    order; the directory name that ends with the separator is not given
    a second one. *)
Example scenario_trailing_separator :
  exists st',
    batchMakeTags Sample.world 3 [mkToken false "a.c"; mkToken false "subdir/"]
      (Sample.start Sample.five_levels) = Returned [] st' /\
    List.filter (fun e => match e with
                          | EvParseFile _ _ => true
                          | _ => false
                          end) (log st')
    = [EvParseFile "a.c" false; EvParseFile "subdir/b.c" true].
Proof. eexists. split; [cbv; reflexivity | reflexivity]. Qed.

(** A link that loops back to an ancestor is refused before the counter
    is consulted and nothing below it is classified. *)
Example scenario_recursive_link :
  createTagsForEntry Sample.world 3 "loop" (Sample.start Sample.recursive)
  = Returned false
      (append_log (Sample.start Sample.recursive)
         [EvStat "loop"; recursive_link_event "loop"]).
Proof. reflexivity. Qed.

(** The same walk on a platform with find-first only. *)
Example scenario_wildcard_walk :
  exists st',
    createTagsForEntry Sample.wildcard_world 3 "subdir"
      (Sample.start Sample.recursive) = Returned true st' /\
    List.filter (fun e => match e with EvStat _ => true | _ => false end)
                (log st')
    = [EvStat "subdir"; EvStat "subdir/b.c"].
Proof. eexists. split; reflexivity. Qed.

(** C2 at a directory reached with the counter at the limit, and the
    balance of the counter over a walk that descends. *)
Lemma recurseIntoDirectory_beyond_limit_witness :
  well_formed (Sample.start Sample.limited) /\
  (wrap32 (recursionDepth (Sample.start Sample.limited) + 1)
   > maxRecursionDepth (Option (Sample.start Sample.limited)))%Z /\
  recurseIntoDirectory Sample.world (createTagsForEntry Sample.world 3)
    "subdir" (Sample.start Sample.limited)
  = Returned false
      (append_log (Sample.start Sample.limited)
         [depth_exceeded_event "subdir" 1 0]) /\
  match recurseIntoDirectory Sample.world (createTagsForEntry Sample.world 3)
          "." (Sample.start Sample.recursive) with
  | Returned _ st' =>
      recursionDepth st' = recursionDepth (Sample.start Sample.recursive) /\
      (0 <= recursionDepth st')%Z
  | OutOfFuel => true = false
  | Exited _ | Undefined => False
  end.
Proof.
  assert (Hwf : well_formed (Sample.start Sample.limited))
    by (unfold well_formed, two32; cbn; lia).
  assert (Hdeep : (wrap32 (recursionDepth (Sample.start Sample.limited) + 1)
                   > maxRecursionDepth (Option (Sample.start Sample.limited)))%Z)
    by reflexivity.
  assert (Hfuel : true = true -> height_bounded Sample.world Sample.rank 2 /\ 2 < 3).
  { intros _. split; [now apply sample_rank_bounded | lia]. }
  assert (Hwf2 : well_formed (Sample.start Sample.recursive))
    by (unfold well_formed, two32; cbn; lia).
  pose proof (recurseIntoDirectory_beyond_limit Sample.world
                (createTagsForEntry Sample.world 3) "subdir"
                (Sample.start Sample.limited) Hwf Hdeep) as (H1 & _ & H3).
  split; [exact Hwf | split; [exact Hdeep | split; [exact H1 |]]].
  exact (H3 true Sample.rank 2 3 "." (Sample.start Sample.recursive) Hfuel Hwf2).
Defined.

(** C2 as stated fails: with recursion disabled, a directory beyond the
    depth limit is refused with the diagnostic for an ignored directory,
    and no depth-exceeded diagnostic is reported. *)
Lemma depth_refusal_without_depth_diagnostic :
  (wrap32 (recursionDepth (Sample.start Sample.shallow) + 1)
   > maxRecursionDepth (Option (Sample.start Sample.shallow)))%Z /\
  exists st',
    recurseIntoDirectory Sample.world (createTagsForEntry Sample.world 3)
      "subdir" (Sample.start Sample.shallow) = Returned false st' /\
    log st' = [ignored_directory_event "subdir"] /\
    forall depth limit,
      ~ In (depth_exceeded_event "subdir" depth limit) (log st').
Proof.
  split; [reflexivity |].
  eexists. split; [reflexivity |]. split; [reflexivity |].
  intros depth limit [H | []]. discriminate.
Qed.

(** C3 as stated fails: the directory branch returns true when a file
    below the directory is parsed with that verdict. *)
Lemma directory_branch_returns_true :
  classify (isExcludedFile Sample.world Sample.recursive "subdir")
           (followLinks Sample.recursive)
           (eStat_result Sample.world "subdir") = BrDirectory /\
  exists st',
    createTagsForEntry Sample.world 2 "subdir" (Sample.start Sample.recursive)
    = Returned true st' /\
    log st'
    = [EvStat "subdir";
       EvVerbose (quoted_name_format "RECURSING into directory " NL)
                 [ArgS "subdir"];
       EvStat "subdir/b.c"; EvParseFile "subdir/b.c" true].
Proof.
  split; [reflexivity |]. eexists. split; reflexivity.
Qed.

(** C3 on the working directory, walked with recursion enabled: its
    three children are classified and the flag of [subdir] is returned. *)
Lemma createTagsForEntry_branches_witness :
  classify (isExcludedFile Sample.world Sample.recursive ".")
           (followLinks Sample.recursive)
           (eStat_result Sample.world ".") = BrDirectory /\
  exists (st' : State) (visits : list Visit) (notes : list Event)
         (last : State),
    createTagsForEntry Sample.world 3 "." (Sample.start Sample.recursive)
    = Returned true st' /\
    Forall (visit_of (createTagsForEntry Sample.world 2)) visits /\
    map visited visits = ["a.c"; "subdir"; "empty"] /\
    Forall diagnostic notes /\
    linked eq
      (append_log (entered (Sample.start Sample.recursive))
                  (EvStat "." :: notes))
      visits last /\
    true = any_verdict visits /\
    st' = set_recursionDepth last (wrap32 (recursionDepth last - 1)).
Proof.
  split; [reflexivity |].
  destruct (createTagsForEntry Sample.world 3 "." (Sample.start Sample.recursive))
    as [r st' | | |] eqn:Hrun; try (cbv in Hrun; discriminate).
  exists st'.
  destruct (proj2 (createTagsForEntry_branches Sample.world 2 "."
                     (Sample.start Sample.recursive)) r st' eq_refl Hrun)
    as (visits & notes & last & Hv & Hn & Hd & Hl & Hr & Hlast).
  assert (Htrue : r = true) by (cbv in Hrun; now injection Hrun as <- _).
  rewrite Htrue in Hr. exists visits, notes, last.
  split; [now rewrite Htrue |]. split; [exact Hv |]. split; [exact Hn |].
  split; [exact Hd |]. split; [exact Hl |]. split; [exact Hr | exact Hlast].
Defined.

(** C4 on the command line [a.c -R subdir]: the classifier is called on
    [a.c] and on [subdir], and the tag file is closed with true. *)
Lemma batch_resize_flag_witness :
  (true = true -> height_bounded Sample.world Sample.rank 2 /\ 2 < 3) /\
  well_formed (Sample.start Sample.defaults) /\
  source_entries Sample.world Sample.command_line (Sample.start Sample.defaults)
  = ["a.c"; "subdir"] /\
  exists st',
    batchMakeTags Sample.world 3 Sample.command_line
      (Sample.start Sample.defaults) = Returned [] st' /\
    resize_flag_is_or Sample.world 3 Sample.command_line
      (Sample.start Sample.defaults) st' /\
    In (EvCloseTagFile true) (log st').
Proof.
  assert (H1 : true = true -> height_bounded Sample.world Sample.rank 2 /\ 2 < 3).
  { intros _. split; [now apply sample_rank_bounded | lia]. }
  assert (H2 : well_formed (Sample.start Sample.defaults))
    by (unfold well_formed, two32; cbn; lia).
  split; [exact H1 | split; [exact H2 | split; [reflexivity |]]].
  pose proof (batch_resize_flag_is_or Sample.world true Sample.rank 2 3
                Sample.command_line (Sample.start Sample.defaults) H1 H2) as H.
  destruct (batchMakeTags Sample.world 3 Sample.command_line
              (Sample.start Sample.defaults)) as [args' st' | | |] eqn:Hrun;
    try (cbv in Hrun; discriminate).
  exists st'. cbv in Hrun. injection Hrun as <- <-.
  split; [reflexivity |]. split; [exact H |]. cbn. tauto.
Defined.

(** C5 on the request for ten bytes of [x.c]: the ten bytes are parsed,
    the newline after them stays on the input. *)
Lemma interactive_memory_request_witness :
  fgets 1024 Sample.session
  = Returned (Some (list_ascii_of_string Sample.request_text))
      (set_stdin Sample.session
         (list_ascii_of_string ("0123456789" +++ NL))) /\
  malloc Sample.world 10 = true /\
  interactiveRequest Sample.world 3 (list_ascii_of_string Sample.request_text)
    (set_stdin Sample.session (list_ascii_of_string ("0123456789" +++ NL)))
  = Returned tt
      (append_log (set_stdin Sample.session [newline])
         [EvOpenTagFile;
          EvParseFileWithMio "x.c" (list_ascii_of_string "0123456789");
          EvCloseTagFile false; EvFputs completed_line; EvFflush;
          EvJsonDecref]).
Proof.
  split; [reflexivity | split; [reflexivity |]].
  refine (proj1 (interactive_memory_request Sample.world 3 1 Sample.session
                   (set_stdin Sample.session
                      (list_ascii_of_string ("0123456789" +++ NL)))
                   (list_ascii_of_string Sample.request_text)
                   Sample.request_value "x.c" 10
                   (list_ascii_of_string "0123456789") [newline]
                   _ _ _ _ _ _ _ _ _ _));
    try reflexivity.
  split; [discriminate | reflexivity].
Defined.

(** C6 on a session that starts with the line [not json]. *)
Lemma interactive_invalid_json_witness :
  fgets 1024 Sample.broken_session
  = Returned (Some (list_ascii_of_string ("not json" +++ NL)))
      (set_stdin Sample.broken_session
         (list_ascii_of_string Sample.request_text)) /\
  interactiveLoop_loop Sample.world 3 5 Sample.broken_session
  = Exited (append_log (set_stdin Sample.broken_session
                          (list_ascii_of_string Sample.request_text))
                       [invalid_json_event]).
Proof.
  split; [reflexivity |].
  refine (proj1 (interactive_invalid_json Sample.world 3 4 Sample.broken_session
                   (set_stdin Sample.broken_session
                      (list_ascii_of_string Sample.request_text))
                   (list_ascii_of_string ("not json" +++ NL)) _ _ _));
    reflexivity.
Defined.

(** C7 on an empty command line: with the default options, with an
    invocation that needs no input, and with recursion enabled. *)
Lemma batch_without_file_source_witness :
  no_file_source [] Sample.defaults /\
  batchMakeTags Sample.world 3 [] (Sample.start Sample.defaults)
  = Exited (append_log (Sample.start Sample.defaults) [no_files_event "ctags"]) /\
  batchMakeTags Sample.listing_world 3 [] (Sample.start Sample.defaults)
  = Returned [] (Sample.start Sample.defaults) /\
  batchMakeTags Sample.world 3 [] (Sample.start Sample.recursive)
  = implicit_root_run Sample.world 3 [] (Sample.start Sample.recursive).
Proof.
  assert (H : forall opt, fileList opt = None -> filter opt = false ->
                          no_file_source [] opt)
    by (intros opt H1 H2; repeat split; assumption).
  split; [apply H; reflexivity |]. split; [| split].
  - exact (proj1 (batch_without_file_source Sample.world 3 []
                    (Sample.start Sample.defaults)
                    (H Sample.defaults eq_refl eq_refl)) eq_refl).
  - exact (proj1 (proj2 (batch_without_file_source Sample.listing_world 3 []
                           (Sample.start Sample.defaults)
                           (H Sample.defaults eq_refl eq_refl)))
             eq_refl eq_refl eq_refl).
  - exact (proj2 (proj2 (batch_without_file_source Sample.world 3 []
                           (Sample.start Sample.recursive)
                           (H Sample.recursive eq_refl eq_refl)))
             eq_refl eq_refl).
Defined.

(** C9 on the directories [.], [subdir] and [subdir/]. *)
Lemma children_paths_witness :
  recurseUsingOpendir Sample.world (createTagsForEntry Sample.world 3) "."
    (Sample.start Sample.recursive)
  = dispatchChildren (createTagsForEntry Sample.world 3)
      ["a.c"; "subdir"; "empty"] false (Sample.start Sample.recursive) /\
  recurseUsingOpendir Sample.world (createTagsForEntry Sample.world 3) "subdir"
    (Sample.start Sample.recursive)
  = dispatchChildren (createTagsForEntry Sample.world 3)
      ["subdir/b.c"] false (Sample.start Sample.recursive) /\
  recurseUsingOpendir Sample.world (createTagsForEntry Sample.world 3) "subdir/"
    (Sample.start Sample.recursive)
  = dispatchChildren (createTagsForEntry Sample.world 3)
      ["subdir/b.c"] false (Sample.start Sample.recursive).
Proof.
  split; [| split].
  - exact (proj1 (children_paths Sample.world (createTagsForEntry Sample.world 3)
                    "." ["."; ".."; "a.c"; "subdir"; "empty"]
                    (Sample.start Sample.recursive) eq_refl) eq_refl).
  - refine (proj1 (proj2 (children_paths Sample.world
                            (createTagsForEntry Sample.world 3)
                            "subdir" ["."; ".."; "b.c"]
                            (Sample.start Sample.recursive) eq_refl)) _ _);
      discriminate.
  - refine (proj1 (proj2 (children_paths Sample.world
                            (createTagsForEntry Sample.world 3)
                            "subdir/" ["."; ".."; "b.c"]
                            (Sample.start Sample.recursive) eq_refl)) _ _);
      discriminate.
Defined.

(** C10 on two names with a terminator configured between them: after
    [a.c] the stream is flushed, after [subdir/b.c] the terminator is
    written and the stream is flushed. *)
Lemma filter_mode_terminator_and_flush_witness :
  (true = true -> height_bounded Sample.world Sample.rank 2 /\ 2 < 3) /\
  well_formed (Sample.start Sample.defaults) /\
  exists st' visits,
    createTagsFromFileInput Sample.world 3 (Some Sample.filter_input) true
      (Sample.start Sample.defaults) = Returned true st' /\
    Forall (visit_of (createTagsForEntry Sample.world 3)) visits /\
    map (fun v => (visited v, filterTerminator (Option (before v)))) visits
    = [("a.c", None); ("subdir/b.c", Some "END")] /\
    served true (Sample.start Sample.defaults) visits st' /\
    log st'
    = [EvStat "a.c"; EvParseFile "a.c" false; EvFflush;
       EvStat "subdir/b.c"; EvParseFile "subdir/b.c" true;
       EvFputs "END"; EvFflush].
Proof.
  assert (H1 : true = true -> height_bounded Sample.world Sample.rank 2 /\ 2 < 3).
  { intros _. split; [now apply sample_rank_bounded | lia]. }
  assert (H2 : well_formed (Sample.start Sample.defaults))
    by (unfold well_formed, two32; cbn; lia).
  split; [exact H1 | split; [exact H2 |]].
  pose proof (proj1 (filter_mode_terminator_and_flush Sample.world true
                       Sample.rank 2 3 Sample.filter_input true
                       (Sample.start Sample.defaults) H1 H2)) as H.
  destruct (createTagsFromFileInput Sample.world 3 (Some Sample.filter_input)
              true (Sample.start Sample.defaults)) as [r st' | | |] eqn:Hrun;
    try (cbv in Hrun; discriminate).
  destruct H as (visits & Hv & Hn & Hs & _).
  exists st', visits. cbv in Hrun. injection Hrun as <- <-.
  split; [reflexivity |]. split; [exact Hv |]. split.
  { rewrite <- (map_map (fun v => (visited v, Option (before v)))
                        (fun p => (fst p, filterTerminator (snd p)))).
    rewrite Hn. reflexivity. }
  split; [exact Hs | reflexivity].
Defined.

(** C8 on the empty directory, listed natively and through find-first. *)
Lemma dot_entries_never_classified_witness :
  opendir Sample.world "empty" = Some ["."; ".."] /\
  forallb is_dot_entry (findfirst Sample.world "empty/*.*") = true /\
  recurseUsingOpendir Sample.world (createTagsForEntry Sample.world 3) "empty"
    (Sample.start Sample.recursive)
  = Returned false (Sample.start Sample.recursive) /\
  createTagsForWildcardUsingFindfirst Sample.world
    (createTagsForEntry Sample.world 3) "empty/*.*"
    (Sample.start Sample.recursive)
  = Returned false (Sample.start Sample.recursive).
Proof.
  pose proof (dot_entries_never_classified Sample.world
                (createTagsForEntry Sample.world 3) "empty" "empty/*.*"
                (Sample.start Sample.recursive)) as (_ & _ & _ & H4 & H5 & _).
  split; [reflexivity | split; [reflexivity | split]].
  - exact (H4 ["."; ".."] eq_refl eq_refl).
  - exact (H5 eq_refl).
Defined.

(** * Further properties *)

(** ** The walker *)

Section WalkerExtras.

Variable X : Collaborators.

(** X3. The classifier, with everything it walks below a directory, only
    appends to the log: on return the options, the environment, the
    unread input and the recursion counter are as before, every event
    added is a status query, a diagnostic, a warning or a parse, and the
    verdict is the OR of the parse verdicts among them. It never ends the
    process. With [total], in a directory tree of bounded height, it
    returns. *)
Theorem createTagsForEntry_frame
    (total : bool) (rank : string -> nat) (B fuel : nat)
    (entryName : string) (st : State) :
  (total = true -> height_bounded X rank B /\ B < fuel) ->
  well_formed st ->
  match createTagsForEntry X fuel entryName st with
  | Returned r st' =>
      Option st' = Option st /\
      environ st' = environ st /\
      stdin st' = stdin st /\
      recursionDepth st' = recursionDepth st /\
      exists delta,
        log st' = log st ++ delta /\
        Forall walker_event delta /\
        r = any_parse_true delta
  | OutOfFuel => total = false
  | Exited _ | Undefined => False
  end.
Proof.
  intros Hfuel Hwf.
  pose proof (classifier_spec X total rank B fuel Hfuel entryName st Hwf) as H.
  destruct (createTagsForEntry X fuel entryName st); exact H.
Qed.

(** *** Only regular files are parsed *)

Lemma justified_run_refl (st : State) : justified_run X st st.
Proof. split; auto. exists []. rewrite app_nil_r. auto. Qed.

Lemma justified_run_trans (st st1 st2 : State) :
  justified_run X st st1 -> justified_run X st1 st2 -> justified_run X st st2.
Proof.
  intros (Ho & d1 & Hl1 & Hf1) (Ho' & d2 & Hl2 & Hf2). split; [congruence |].
  exists (d1 ++ d2). split.
  - rewrite Hl2, Hl1. now rewrite app_assoc.
  - apply Forall_app. split; auto. now rewrite <- Ho.
Qed.

Lemma justified_run_emit (st : State) (e : Event) :
  parse_justified X (Option st) e -> justified_run X st (append_log st [e]).
Proof. intros H. split; auto. exists [e]. auto. Qed.

Lemma justified_run_depth (st st' : State) (d d' : Z) :
  justified_run X (set_recursionDepth st d) st' ->
  justified_run X st (set_recursionDepth st' d').
Proof. intros (Ho & delta & Hl & Hf). split; cbn in *; eauto. Qed.

Lemma dispatchChildren_justified (rec : string -> M bool) :
  (forall p, justified X (rec p)) ->
  forall paths acc, justified X (dispatchChildren rec paths acc).
Proof.
  intros Hrec. induction paths as [| p rest IH]; intros acc st.
  - apply justified_run_refl.
  - cbn [dispatchChildren]. unfold bind. pose proof (Hrec p st) as H1.
    destruct (rec p st) as [r st1 | | |]; auto.
    pose proof (IH (acc || r) st1) as H2.
    destruct (dispatchChildren rec rest (acc || r) st1); auto.
    eapply justified_run_trans; eauto.
Qed.

Lemma readdir_loop_justified (rec : string -> M bool) (dirName : string) :
  (forall p, justified X (rec p)) ->
  forall entries acc, justified X (readdir_loop X rec dirName entries acc).
Proof.
  intros Hrec entries acc st. rewrite readdir_loop_dispatch.
  now apply dispatchChildren_justified.
Qed.

Lemma findnext_loop_justified (rec : string -> M bool) (pattern : string) :
  (forall p, justified X (rec p)) ->
  forall found acc,
    justified X (findnext_loop rec pattern (baseFilename_offset X pattern) found acc).
Proof.
  intros Hrec found acc st. rewrite findnext_loop_dispatch.
  now apply dispatchChildren_justified.
Qed.

Lemma recurseIntoDirectory_justified (rec : string -> M bool) (dirName : string) :
  (forall p, justified X (rec p)) ->
  justified X (recurseIntoDirectory X rec dirName).
Proof.
  intros Hrec st. unfold recurseIntoDirectory.
  cbv beta iota delta [bind getOption verbose emit ret].
  cbn [recursionDepth set_recursionDepth Option].
  fold (entered st).
  assert (Hleave : forall e st1,
             justified_run X (set_log (entered st) (log (entered st) ++ [e])) st1 ->
             parse_justified X (Option st) e ->
             justified_run X st
               (set_recursionDepth st1 (wrap32 (recursionDepth st1 - 1)))).
  { intros e st1 H He. apply (justified_run_depth st st1 (wrap32 (recursionDepth st + 1))).
    eapply justified_run_trans; [| exact H].
    apply (justified_run_emit (entered st)). exact He. }
  destruct (isRecursiveLink X dirName).
  { eapply Hleave; [apply justified_run_refl | exact I]. }
  destruct (recurse (Option st)); cbn [negb].
  2: { eapply Hleave; [apply justified_run_refl | exact I]. }
  destruct (wrap32 (recursionDepth st + 1) >? maxRecursionDepth (Option st))%Z.
  { eapply Hleave; [apply justified_run_refl | exact I]. }
  set (st1 := set_log (entered st) _).
  destruct (directoryIteration X).
  - unfold recurseUsingOpendir. destruct (opendir X dirName) as [entries |].
    + pose proof (readdir_loop_justified rec dirName Hrec entries false st1) as H.
      destruct (readdir_loop X rec dirName entries false st1); auto.
      eapply Hleave; [exact H | exact I].
    + unfold error, bind, ret. cbn [selected existsb orb].
      eapply Hleave; [apply (justified_run_emit st1); exact I | exact I].
  - unfold createTagsForWildcardUsingFindfirst.
    pose proof (findnext_loop_justified rec (wildcard_pattern X dirName) Hrec
                  (findfirst X (wildcard_pattern X dirName)) false st1) as H.
    destruct (findnext_loop rec _ _ _ false st1); auto.
    eapply Hleave; [exact H | exact I].
  - eapply Hleave; [apply justified_run_refl | exact I].
Qed.

Lemma createTagsForEntry_justified :
  forall fuel entryName, justified X (createTagsForEntry X fuel entryName).
Proof.
  induction fuel as [| fuel IH]; intros name st; [exact I |].
  cbn [createTagsForEntry].
  cbv beta iota delta [bind eStat emit getOption ret verbose error parseFile].
  cbn [Option set_log log selected existsb orb].
  fold (append_log st [EvStat name]).
  set (st1 := append_log st [EvStat name]).
  assert (Hst1 : justified_run X st st1) by (apply justified_run_emit; exact I).
  assert (Hstep : forall e, parse_justified X (Option st) e ->
                            justified_run X st (set_log st1 (log st1 ++ [e]))).
  { intros e He. eapply justified_run_trans; [exact Hst1 |].
    apply (justified_run_emit st1). exact He. }
  destruct (isExcludedFile X (Option st) name) eqn:Hex; [now apply Hstep |].
  destruct (isSymbolicLink (eStat_result X name) && negb (followLinks (Option st)))
    eqn:Hlink; [now apply Hstep |].
  destruct (exists_ (eStat_result X name)) eqn:Hexists; cbn [negb];
    [| now apply Hstep].
  destruct (isDirectory (eStat_result X name)) eqn:Hdir.
  { pose proof (recurseIntoDirectory_justified (createTagsForEntry X fuel) name
                  IH st1) as H.
    destruct (recurseIntoDirectory X (createTagsForEntry X fuel) name st1); auto.
    eapply justified_run_trans; eauto. }
  destruct (isNormalFile (eStat_result X name)) eqn:Hnormal; cbn [negb];
    [| now apply Hstep].
  apply Hstep. cbn. unfold classify.
  rewrite Hex, Hlink, Hexists, Hdir, Hnormal. auto.
Qed.

(** X4. Whatever the classifier is called on, every [parseFile] call it
    makes, directly or below a directory, is for a path that is not
    excluded, is not a symbolic link left unfollowed, exists, is not a
    directory and is a regular file; excluded, missing and special paths
    and directories themselves are never parsed. *)
Theorem only_regular_files_are_parsed
    (fuel : nat) (entryName : string) (st st' : State) (r : bool) :
  createTagsForEntry X fuel entryName st = Returned r st' ->
  exists delta,
    log st' = log st ++ delta /\
    forall name verdict,
      In (EvParseFile name verdict) delta ->
      (isExcludedFile X (Option st) name = false) /\
      (isSymbolicLink (eStat_result X name) = true ->
       followLinks (Option st) = true) /\
      (exists_ (eStat_result X name) = true) /\
      (isDirectory (eStat_result X name) = false) /\
      (isNormalFile (eStat_result X name) = true) /\
      (verdict = parseFile_result X (Option st) name).
Proof.
  intros Hrun. pose proof (createTagsForEntry_justified fuel entryName st) as H.
  rewrite Hrun in H. destruct H as (_ & delta & Hl & Hf).
  exists delta. split; [exact Hl |].
  intros name verdict Hin. rewrite Forall_forall in Hf.
  specialize (Hf _ Hin). cbn in Hf. destruct Hf as [Hc Hv].
  unfold classify in Hc.
  destruct (isExcludedFile X (Option st) name); [discriminate |].
  destruct (isSymbolicLink (eStat_result X name)), (followLinks (Option st));
    cbn in Hc; try discriminate;
    destruct (exists_ (eStat_result X name)); cbn in Hc; try discriminate;
    destruct (isDirectory (eStat_result X name)); try discriminate;
    destruct (isNormalFile (eStat_result X name)); cbn in Hc; try discriminate;
    repeat split; auto; discriminate.
Qed.

End WalkerExtras.

(** ** The depth limit *)

Section DepthLimit.

Variable X : Collaborators.

Lemma at_depth_step (opt : Options) (d : Z) (acc r : bool) (st st' : State) :
  walker_step acc st r st' -> at_depth opt d st -> at_depth opt d st'.
Proof.
  intros (Ho & _ & _ & Hd & _) [H1 H2]. split; congruence.
Qed.

Lemma dispatchChildren_returns (rec : string -> M bool) (opt : Options) (d : Z) :
  (forall p, walker_spec false false (rec p)) ->
  (forall p st, well_formed st -> at_depth opt d st -> rec p st <> OutOfFuel) ->
  forall paths acc st,
    well_formed st -> at_depth opt d st ->
    dispatchChildren rec paths acc st <> OutOfFuel.
Proof.
  intros Hsound Hfed. induction paths as [| p rest IH]; intros acc st Hwf Hat.
  - discriminate.
  - cbn [dispatchChildren]. unfold bind.
    pose proof (Hsound p st Hwf) as H1. pose proof (Hfed p st Hwf Hat) as H2.
    destruct (rec p st) as [r st1 | | |]; try discriminate; try contradiction.
    apply IH.
    + eapply walker_step_well_formed; eauto.
    + eapply at_depth_step; eauto.
Qed.

Lemma expandDirectory_returns (rec : string -> M bool) (opt : Options) (d : Z)
    (dirName : string) (st : State) :
  (forall p, walker_spec false false (rec p)) ->
  (forall p st, well_formed st -> at_depth opt d st -> rec p st <> OutOfFuel) ->
  well_formed st -> at_depth opt d st ->
  expandDirectory X rec dirName st <> OutOfFuel.
Proof.
  intros Hsound Hfed Hwf Hat. unfold expandDirectory.
  destruct (directoryIteration X); [| | discriminate].
  - unfold recurseUsingOpendir. destruct (opendir X dirName); [| discriminate].
    rewrite readdir_loop_dispatch. eapply dispatchChildren_returns; eauto.
  - unfold createTagsForWildcardUsingFindfirst. rewrite findnext_loop_dispatch.
    eapply dispatchChildren_returns; eauto.
Qed.

Lemma createTagsForEntry_fed_by_limit :
  forall (fuel : nat) (entryName : string) (st : State),
    well_formed st ->
    (recursionDepth st <= maxRecursionDepth (Option st))%Z ->
    (maxRecursionDepth (Option st) < UINT_MAX)%Z ->
    (maxRecursionDepth (Option st) - recursionDepth st < Z.of_nat fuel)%Z ->
    createTagsForEntry X fuel entryName st <> OutOfFuel.
Proof.
  induction fuel as [| fuel IH]; intros name st Hwf Hle Hmax Hfuel.
  - cbn in Hfuel. lia.
  - cbn [createTagsForEntry].
    cbv beta iota delta [bind eStat emit getOption ret verbose error parseFile].
    cbn [Option set_log log selected existsb orb].
    fold (append_log st [EvStat name]). set (st1 := append_log st [EvStat name]).
    destruct (isExcludedFile X (Option st) name); [discriminate |].
    destruct (isSymbolicLink (eStat_result X name) && negb (followLinks (Option st)));
      [discriminate |].
    destruct (exists_ (eStat_result X name)); cbn [negb]; [| discriminate].
    destruct (isDirectory (eStat_result X name)).
    2: { destruct (isNormalFile (eStat_result X name)); discriminate. }
    rewrite recurseIntoDirectory_cases.
    destruct (isRecursiveLink X name || negb (recurse (Option st1))
              || (wrap32 (recursionDepth st1 + 1) >? maxRecursionDepth (Option st1))%Z)
      eqn:Hrefuse; [discriminate |].
    apply orb_false_iff in Hrefuse as [_ Hdeep]. cbn in Hdeep.
    rewrite Z.gtb_ltb in Hdeep. apply Z.ltb_ge in Hdeep.
    assert (Hnowrap : wrap32 (recursionDepth st + 1) = (recursionDepth st + 1)%Z).
    { unfold wrap32, two32. apply Z.mod_small.
      unfold well_formed, two32, UINT_MAX in *. lia. }
    rewrite Hnowrap in Hdeep.
    unfold descend.
    set (st2 := append_log (entered st1) _).
    assert (Hat : at_depth (Option st) (recursionDepth st + 1) st2)
      by (split; [reflexivity | cbn; exact Hnowrap]).
    assert (Hwf2 : well_formed st2).
    { unfold well_formed. cbn. apply wrap32_range. }
    assert (H : expandDirectory X (createTagsForEntry X fuel) name st2 <> OutOfFuel).
    { apply (expandDirectory_returns _ (Option st) (recursionDepth st + 1));
        auto using createTagsForEntry_sound.
      intros p s Hs [Ho Hd]. apply IH; auto; rewrite ?Ho, ?Hd; lia. }
    destruct (expandDirectory X (createTagsForEntry X fuel) name st2);
      try discriminate. contradiction.
Qed.

(** X5. The depth limit bounds the walk in any file system, cyclic links
    included: when the limit is below [UINT_MAX] and the counter has not
    passed it, the classifier returns as soon as the fuel exceeds the
    levels left up to the limit. *)
Theorem depth_limit_ends_walk
    (fuel : nat) (entryName : string) (st : State) :
  well_formed st ->
  (recursionDepth st <= maxRecursionDepth (Option st))%Z ->
  (maxRecursionDepth (Option st) < UINT_MAX)%Z ->
  (maxRecursionDepth (Option st) - recursionDepth st < Z.of_nat fuel)%Z ->
  exists r st',
    createTagsForEntry X fuel entryName st = Returned r st' /\
    recursionDepth st' = recursionDepth st.
Proof.
  intros Hwf Hle Hmax Hfuel.
  pose proof (createTagsForEntry_fed_by_limit fuel entryName st Hwf Hle Hmax Hfuel)
    as Hfed.
  pose proof (createTagsForEntry_sound X fuel entryName st Hwf) as Hsound.
  destruct (createTagsForEntry X fuel entryName st) as [r st' | | |];
    try contradiction.
  exists r, st'. split; [reflexivity |]. apply Hsound.
Qed.

(** X6. With the limit at [UINT_MAX] the depth test is inert: a directory
    that is no recursive link is descended into whenever recursion is
    enabled, whatever the counter, also when the increment wraps it to
    zero. *)
Theorem uint_max_limit_never_refuses
    (rec : string -> M bool) (dirName : string) (st : State) :
  maxRecursionDepth (Option st) = UINT_MAX ->
  isRecursiveLink X dirName = false ->
  recurse (Option st) = true ->
  recurseIntoDirectory X rec dirName st = descend X rec dirName st.
Proof.
  intros Hmax Hlink Hrec. rewrite recurseIntoDirectory_cases.
  rewrite Hlink, Hrec, Hmax. cbn [negb orb].
  assert (H : (wrap32 (recursionDepth st + 1) >? UINT_MAX)%Z = false).
  { rewrite Z.gtb_ltb. apply Z.ltb_ge.
    pose proof (wrap32_range (recursionDepth st + 1)).
    unfold UINT_MAX, two32 in *. lia. }
  now rewrite H.
Qed.


End DepthLimit.

(** ** Sources of names *)

Section SourceExtras.

Variable X : Collaborators.

Lemma createTagsForArgs_loop_consumes (fuel : nat) :
  forall (n : nat) (args : cookedArgs) (acc : bool) (st : State)
         (r : bool) (args' : cookedArgs) (st' : State),
    createTagsForArgs_loop X fuel n args acc st = Returned (r, args') st' ->
    cArgOff args' = true.
Proof.
  induction n as [| n IH]; intros args acc st r args' st' H.
  - cbn in H. destruct (cArgOff args) eqn:Hoff; [| discriminate].
    injection H as _ <- _. exact Hoff.
  - cbn [createTagsForArgs_loop] in H.
    destruct (cArgOff args) eqn:Hoff.
    + injection H as _ <- _. exact Hoff.
    + unfold bind in H.
      destruct ((if MANUAL_GLOBBING X
                 then createTagsForWildcardArg X fuel (cArgItem args)
                 else createTagsForEntry X fuel (cArgItem args)) st)
        as [r1 st1 | | |]; try discriminate.
      destruct (parseCmdlineOptions X (cArgForth args) st1)
        as [args1 st2 | | |]; try discriminate.
      eapply IH; eauto.
Qed.

(** X8. [createTagsForArgs] handles every argument: when it returns, the
    cursor is off the end, the environment and the recursion counter are
    as before, and the flag is the OR of the parse verdicts of the events
    added to the log. It does not end the process; with [total], in a
    directory tree of bounded height, it returns. *)
Theorem createTagsForArgs_consumes_cursor
    (total : bool) (rank : string -> nat) (B fuel : nat)
    (args : cookedArgs) (st : State) :
  (total = true -> height_bounded X rank B /\ B < fuel) ->
  well_formed st ->
  match createTagsForArgs X fuel args st with
  | Returned (r, args') st' =>
      cArgOff args' = true /\
      environ st' = environ st /\
      recursionDepth st' = recursionDepth st /\
      exists delta,
        log st' = log st ++ delta /\
        Forall scan_event delta /\
        r = any_parse_true delta
  | Exited _ => True
  | Undefined => False
  | OutOfFuel => total = false
  end.
Proof.
  intros Hfuel Hwf. unfold createTagsForArgs.
  pose proof (createTagsForArgs_loop_spec X total rank B fuel Hfuel
                (List.length args) args false st (le_n _) Hwf) as H.
  pose proof (createTagsForArgs_loop_consumes fuel (List.length args) args false st)
    as Hoff.
  destruct (createTagsForArgs_loop X fuel (List.length args) args false st)
    as [[r args'] st' | | |]; cbn in H; auto.
  destruct H as (delta & He & Hd & Hl & Hf & Hr).
  split; [eapply Hoff; reflexivity |]. repeat split; auto.
  exists delta. auto.
Qed.

(** X9. A build with manual globbing but without a find-first variant
    drops every command-line argument: [createTagsForArgs] parses the
    options between the arguments, classifies nothing, reports nothing
    and returns false. *)
Theorem manual_globbing_without_findfirst_ignores_arguments
    (fuel : nat) (args : cookedArgs) (st : State) :
  MANUAL_GLOBBING X = true ->
  directoryIteration X <> HAVE_FINDFIRST ->
  exists opt',
    createTagsForArgs X fuel args st = Returned (false, []) (set_Option st opt').
Proof.
  intros Hglob Hiter. unfold createTagsForArgs.
  assert (Hnone : forall arg s, createTagsForWildcardArg X fuel arg s
                                = Returned false s).
  { intros arg s. unfold createTagsForWildcardArg.
    destruct (directoryIteration X); try reflexivity. now destruct Hiter. }
  assert (H : forall n args st,
             List.length args <= n ->
             exists opt',
               createTagsForArgs_loop X fuel n args false st
               = Returned (false, []) (set_Option st opt')).
  { induction n as [| n IH]; intros a s Hlen.
    - destruct a; [| cbn in Hlen; lia].
      exists (Option s). cbn. unfold ret. now rewrite set_Option_same.
    - destruct a as [| t rest].
      + exists (Option s). cbn. unfold ret. now rewrite set_Option_same.
      + cbn [createTagsForArgs_loop cArgOff cArgItem cArgForth tl].
        rewrite Hglob. unfold bind at 1. rewrite Hnone.
        destruct (parseCmdlineOptions_spec X rest s) as (args' & opt1 & Hp & _ & Hl & _).
        unfold bind. rewrite Hp. cbn [orb].
        destruct (IH args' (set_Option s opt1)) as (opt2 & H2);
          [cbn in Hlen; lia |].
        exists opt2. rewrite H2. reflexivity. }
  apply H. lia.
Qed.

(** *** The classifier and the loops do not touch the unread input *)

Lemma stdin_blind_ret {A} (a : A) : stdin_blind (ret a).
Proof. intros st input. reflexivity. Qed.

Lemma stdin_blind_bind {A B} (m : M A) (k : A -> M B) :
  stdin_blind m -> (forall a, stdin_blind (k a)) -> stdin_blind (bind m k).
Proof.
  intros Hm Hk st input. unfold bind. rewrite Hm.
  destruct (m st) as [a st1 | | |]; cbn; [apply Hk | reflexivity ..].
Qed.

Lemma stdin_blind_emit (e : Event) : stdin_blind (emit e).
Proof. intros st input. reflexivity. Qed.

Lemma stdin_blind_error (selection : list errorSelection) (format : string)
    (args : list FormatArg) : stdin_blind (error selection format args).
Proof.
  intros st input. unfold error. cbn. destruct (selected FATAL selection);
    reflexivity.
Qed.

Lemma stdin_blind_getOption : stdin_blind getOption.
Proof. intros st input. reflexivity. Qed.

Lemma stdin_blind_dispatchChildren (rec : string -> M bool) :
  (forall p, stdin_blind (rec p)) ->
  forall paths acc, stdin_blind (dispatchChildren rec paths acc).
Proof.
  intros Hrec. induction paths as [| p rest IH]; intros acc.
  - apply stdin_blind_ret.
  - cbn [dispatchChildren]. apply stdin_blind_bind; auto.
Qed.

Lemma stdin_blind_expandDirectory (rec : string -> M bool) (dirName : string) :
  (forall p, stdin_blind (rec p)) ->
  stdin_blind (expandDirectory X rec dirName).
Proof.
  intros Hrec. unfold expandDirectory. destruct (directoryIteration X).
  - unfold recurseUsingOpendir. destruct (opendir X dirName).
    + intros st input. rewrite !readdir_loop_dispatch.
      now apply stdin_blind_dispatchChildren.
    + apply stdin_blind_bind; [apply stdin_blind_error |].
      intros; apply stdin_blind_ret.
  - unfold createTagsForWildcardUsingFindfirst. intros st input.
    rewrite !findnext_loop_dispatch. now apply stdin_blind_dispatchChildren.
  - apply stdin_blind_ret.
Qed.

Lemma stdin_blind_recurseIntoDirectory (rec : string -> M bool)
    (dirName : string) :
  (forall p, stdin_blind (rec p)) ->
  stdin_blind (recurseIntoDirectory X rec dirName).
Proof.
  intros Hrec st input. rewrite !recurseIntoDirectory_cases.
  cbn [Option recursionDepth set_stdin].
  destruct (isRecursiveLink X dirName || negb (recurse (Option st))
            || (wrap32 (recursionDepth st + 1) >? maxRecursionDepth (Option st))%Z).
  - reflexivity.
  - unfold descend.
    pose proof (stdin_blind_expandDirectory rec dirName Hrec
                  (append_log (entered st)
                     [EvVerbose (quoted_name_format "RECURSING into directory " NL)
                                [ArgS dirName]]) input) as H.
    match goal with
    | |- match ?m ?s with _ => _ end = _ =>
        replace s with
          (set_stdin (append_log (entered st)
                        [EvVerbose (quoted_name_format "RECURSING into directory " NL)
                                   [ArgS dirName]]) input)
          by reflexivity
    end.
    rewrite H. clear H.
    destruct (expandDirectory X rec dirName _); reflexivity.
Qed.

Lemma stdin_blind_createTagsForEntry :
  forall fuel entryName, stdin_blind (createTagsForEntry X fuel entryName).
Proof.
  induction fuel as [| fuel IH]; intros name.
  - intros st input. reflexivity.
  - cbn [createTagsForEntry]. unfold eStat, parseFile, verbose.
    apply stdin_blind_bind.
    { apply stdin_blind_bind; [apply stdin_blind_emit |].
      intros; apply stdin_blind_ret. }
    intros status. apply stdin_blind_bind; [apply stdin_blind_getOption |].
    intros opt.
    repeat match goal with
           | |- stdin_blind (if ?c then _ else _) => destruct c
           | |- stdin_blind (bind _ _) => apply stdin_blind_bind; [| intros]
           | |- stdin_blind (emit _) => apply stdin_blind_emit
           | |- stdin_blind (error _ _ _) => apply stdin_blind_error
           | |- stdin_blind (ret _) => apply stdin_blind_ret
           | |- stdin_blind getOption => apply stdin_blind_getOption
           | |- stdin_blind (recurseIntoDirectory _ _ _) =>
               apply stdin_blind_recurseIntoDirectory; exact IH
           end.
Qed.

Lemma stdin_blind_parseCmdlineOptions :
  forall args, stdin_blind (parseCmdlineOptions X args).
Proof.
  induction args as [| t rest IH]; cbn [parseCmdlineOptions].
  - apply stdin_blind_ret.
  - destruct (isOption t); [| apply stdin_blind_ret].
    apply stdin_blind_bind; [| intros; exact IH].
    intros st input. reflexivity.
Qed.

Lemma stdin_blind_createTagsFromFileInput_loop (fuel : nat) (flt : bool) :
  forall n args acc,
    stdin_blind (createTagsFromFileInput_loop X fuel n args flt acc).
Proof.
  induction n as [| n IH]; intros args acc; cbn [createTagsFromFileInput_loop];
    destruct (cArgOff args); try apply stdin_blind_ret.
  - intros st input. reflexivity.
  - apply stdin_blind_bind; [apply stdin_blind_createTagsForEntry |].
    intros r. apply stdin_blind_bind.
    { destruct flt; [| apply stdin_blind_ret].
      apply stdin_blind_bind; [apply stdin_blind_getOption |]. intros opt.
      apply stdin_blind_bind.
      - destruct (filterTerminator opt);
          [apply stdin_blind_emit | apply stdin_blind_ret].
      - intros; apply stdin_blind_emit. }
    intros _. apply stdin_blind_bind; [apply stdin_blind_parseCmdlineOptions |].
    intros args'. apply IH.
Qed.

(** X10. The list file name [-] stands for standard input and nothing
    else: reading the names from standard input gives the outcome of
    reading them from a named file with the same content, the same flag
    and the same events, except that standard input is used up. *)
Theorem list_file_dash_is_stdin
    (fuel : nat) (fileName : string) (st : State) :
  strcmp_eq fileName "-" = false ->
  fopen X fileName = Some (stdin st) ->
  createTagsFromListFile X fuel "-" st
  = outcome_map (fun s => set_stdin s [])
                (createTagsFromListFile X fuel fileName st).
Proof.
  intros Hname Hopen. unfold createTagsFromListFile.
  rewrite Hname, Hopen. cbn [strcmp_eq String.eqb Ascii.eqb Bool.eqb].
  unfold createTagsFromFileInput.
  assert (Hblind : stdin_blind
            (args <- parseCmdlineOptions X (cArgNewFromLineFile X (stdin st)) ;;
             createTagsFromFileInput_loop X fuel (List.length args) args false false)).
  { apply stdin_blind_bind; [apply stdin_blind_parseCmdlineOptions |].
    intros args. apply stdin_blind_createTagsFromFileInput_loop. }
  specialize (Hblind st []).
  exact Hblind.
Qed.

(** X11. A list file that cannot be opened ends a batch run that has no
    positional arguments: the tag file is opened as the options ask, the
    fatal diagnostic is reported, nothing is classified and the tag file
    is not closed. *)
Theorem batch_with_unreadable_list_file
    (fuel : nat) (args : cookedArgs) (fileName : string) (st : State) :
  cArgOff args = true ->
  fileList (Option st) = Some fileName ->
  strcmp_eq fileName "-" = false ->
  fopen X fileName = None ->
  createTagsFromListFile X fuel fileName st
  = Exited (append_log st [cannot_open_list_file_event fileName])
  /\ batchMakeTags X fuel args st
     = Exited (append_log st
                 (opening_events (Option st)
                  ++ [reading_list_file_event;
                      cannot_open_list_file_event fileName])).
Proof.
  intros Hoff Hlist Hname Hopen. split.
  - unfold createTagsFromListFile. rewrite Hname, Hopen. reflexivity.
  - unfold batchMakeTags. rewrite bind_getOption, Hoff, Hlist.
    cbn [negb orb is_some]. rewrite bind_ret.
    unfold opening_events.
    destruct (negb (filter (Option st)) && negb (printLanguage (Option st)));
      rewrite ?bind_when_true, ?bind_when_false;
      unfold openTagFile; rewrite ?bind_emit, bind_ret; cbn [fst snd];
      rewrite bind_getOption; cbn [Option append_log set_log];
      rewrite Hlist, bind_assoc, bind_verbose;
      unfold createTagsFromListFile; rewrite Hname, Hopen;
      rewrite !bind_assoc; unfold bind at 1; unfold error;
      cbn [selected existsb orb];
      unfold append_log, set_log; cbn; rewrite <- ?app_assoc; reflexivity.
Qed.

(** X12. A batch run without file source, for which file input is not
    required, without recursion but with an etags include: the tag file
    is opened and closed with the flag false, and nothing is scanned. *)
Theorem batch_with_etags_include_only
    (fuel : nat) (args : cookedArgs) (st : State) :
  no_file_source args (Option st) ->
  filesRequired X (Option st) = false ->
  recurse (Option st) = false ->
  etagsIncluded (Option st) = true ->
  batchMakeTags X fuel args st
  = Returned args
      (append_log st (opening_events (Option st)
                      ++ closing_events (Option st) false)).
Proof.
  intros (Hoff & Hlist & Hfilter) Hreq Hrec Hetags.
  unfold batchMakeTags. rewrite bind_getOption, Hoff, Hlist, Hfilter, Hreq, Hrec, Hetags.
  cbn [negb orb andb is_some]. rewrite bind_ret.
  unfold opening_events, closing_events. rewrite Hfilter. cbn [negb andb].
  destruct (printLanguage (Option st)) eqn:Hlang; cbn [negb];
    rewrite ?bind_when_true, ?bind_when_false;
    unfold openTagFile; rewrite ?bind_emit, !bind_ret; cbn [fst snd];
    rewrite bind_getOption; cbn [Option append_log set_log];
    rewrite Hlist, bind_ret, bind_getOption; cbn [Option append_log set_log];
    rewrite Hfilter, bind_ret, bind_getOption; cbn [Option append_log set_log];
    rewrite Hrec, bind_ret, bind_getOption; cbn [Option append_log set_log];
    rewrite Hfilter, Hlang; cbn [negb andb];
    destruct (printTotals (Option st));
    unfold closeTagFile, printTotals_call;
    repeat first [rewrite bind_when_true | rewrite bind_when_false
                 | rewrite bind_emit | rewrite append_log_app];
    unfold ret; rewrite ?append_log_nil; reflexivity.
Qed.

End SourceExtras.

(** ** Interactive requests *)

Section InteractiveExtras.

Variable X : Collaborators.

(** X13. A [generate-tags] request without an integer size other than
    -1 (no size, a size that is no integer, or -1 itself) is served from
    disk: the tag file is opened, the file name is classified as in a
    batch run, and the tag file is closed with the flag false whatever
    verdict the classification gave; then the completed line is written
    and flushed and the request released. *)
Theorem interactive_disk_request
    (total : bool) (rank : string -> nat) (B fuel : nat)
    (buffer : list ascii) (request : json) (filename : string) (st : State) :
  (total = true -> height_bounded X rank B /\ B < fuel) ->
  well_formed st ->
  json_loads X (c_str buffer) = Some request ->
  json_object_get request "command" = Some (JString "generate-tags") ->
  json_object_get request "filename" = Some (JString filename) ->
  (forall i, json_object_get request "size" = Some (JInteger i) -> i = (-1)%Z) ->
  match interactiveRequest X fuel buffer st with
  | Returned _ st' =>
      exists r st1,
        createTagsForEntry X fuel filename (append_log st [EvOpenTagFile])
        = Returned r st1 /\
        st' = append_log st1 disk_request_closing
  | OutOfFuel => total = false
  | Exited _ | Undefined => False
  end.
Proof.
  intros Hfuel Hwf Hjson Hcommand Hname Hsize.
  unfold interactiveRequest. rewrite Hjson, Hcommand.
  cbn [json_string_value strcmp_eq]. rewrite String.eqb_refl.
  unfold json_unpack_ss. rewrite Hname.
  assert (Hdisk : json_unpack_sI request "size" (-1) = (-1)%Z).
  { unfold json_unpack_sI.
    destruct (json_object_get request "size") as [[] |]; auto. }
  rewrite Hdisk. cbn [Z.eqb Pos.eqb].
  unfold openTagFile. rewrite bind_emit, !bind_assoc.
  assert (Hwf1 : well_formed (append_log st [EvOpenTagFile])) by exact Hwf.
  pose proof (classifier_spec X total rank B fuel Hfuel filename _ Hwf1) as H.
  unfold bind at 1.
  destruct (createTagsForEntry X fuel filename (append_log st [EvOpenTagFile]))
    as [r st1 | | |]; auto.
  unfold closeTagFile, fputs_stdout, fflush_stdout, json_decref, bind, ret, emit.
  cbn. exists r, st1. split; [reflexivity |].
  unfold disk_request_closing, append_log, set_log. cbn.
  rewrite <- !app_assoc. reflexivity.
Qed.

(** X14. A request that parses as JSON but is malformed ends the process
    with a fatal diagnostic before the tag file is opened: "command name
    not found" when there is no command member (also when the value is no
    object), "unknown command name" for a command other than
    [generate-tags], "invalid generate-tags request" when the file name
    is missing or no string. *)
Theorem interactive_malformed_request
    (fuel : nat) (buffer : list ascii) (request : json) (st : State) :
  json_loads X (c_str buffer) = Some request ->
  (json_object_get request "command" = None ->
   interactiveRequest X fuel buffer st
   = Exited (append_log st [command_not_found_event]))
  /\ (forall name,
        json_object_get request "command" = Some (JString name) ->
        name <> "generate-tags" ->
        interactiveRequest X fuel buffer st
        = Exited (append_log st [unknown_command_event]))
  /\ (json_object_get request "command" = Some (JString "generate-tags") ->
      (forall filename,
          json_object_get request "filename" <> Some (JString filename)) ->
      interactiveRequest X fuel buffer st
      = Exited (append_log st [invalid_request_event])).
Proof.
  intros Hjson. unfold interactiveRequest. rewrite Hjson.
  split; [| split].
  - intros ->. reflexivity.
  - intros name -> Hne. cbn [json_string_value]. unfold strcmp_eq.
    destruct (String.eqb_spec "generate-tags" name) as [Heq | _];
      [exfalso; apply Hne; symmetry; exact Heq | reflexivity].
  - intros -> Hno. cbn [json_string_value]. unfold strcmp_eq. rewrite String.eqb_refl.
    unfold json_unpack_ss.
    destruct (json_object_get request "filename") as [[] |]; try reflexivity.
    exfalso. apply (Hno s). reflexivity.
Qed.

(** X15. A request whose command member is not a string leaves defined
    behaviour: [json_string_value] gives NULL and [strcmp] is called on
    it. *)
Theorem interactive_command_not_a_string
    (fuel : nat) (buffer : list ascii) (request command : json) (st : State) :
  json_loads X (c_str buffer) = Some request ->
  json_object_get request "command" = Some command ->
  (forall name, command <> JString name) ->
  interactiveRequest X fuel buffer st = Undefined.
Proof.
  intros Hjson Hcommand Hno. unfold interactiveRequest.
  rewrite Hjson, Hcommand.
  destruct command; try reflexivity. exfalso. apply (Hno s). reflexivity.
Qed.

(** X16. When fewer bytes are left on the input than an in-memory
    request announces, and the buffer for the announced size is
    allocated, no error is raised: all that is left is read and parsed as
    the file, the input is then empty, and the request is completed as
    usual. *)
Theorem memory_request_with_short_input
    (fuel : nat) (buffer : list ascii) (request : json) (filename : string)
    (size : Z) (st : State) :
  json_loads X (c_str buffer) = Some request ->
  json_object_get request "command" = Some (JString "generate-tags") ->
  json_object_get request "filename" = Some (JString filename) ->
  json_object_get request "size" = Some (JInteger size) ->
  (0 <= size < 2 ^ 63)%Z ->
  malloc X size = true ->
  List.length (stdin st) <= Z.to_nat size ->
  interactiveRequest X fuel buffer st
  = Returned tt
      (append_log (set_stdin st [])
                  (memory_request_events filename (stdin st))).
Proof.
  intros Hjson Hcommand Hname Hsize Hrange Hmem Hshort.
  unfold interactiveRequest. rewrite Hjson, Hcommand.
  cbn [json_string_value strcmp_eq]. rewrite String.eqb_refl.
  unfold json_unpack_ss, json_unpack_sI. rewrite Hname, Hsize.
  assert (Hne : (size =? -1)%Z = false) by (apply Z.eqb_neq; lia).
  rewrite Hne.
  assert (Hconv : to_size_t size = size).
  { unfold to_size_t, two64. apply Z.mod_small. lia. }
  rewrite Hconv.
  unfold openTagFile, closeTagFile, fputs_stdout, fflush_stdout, json_decref,
    parseFileWithMio, fread, eMalloc.
  rewrite Hmem.
  rewrite bind_emit. unfold bind, emit, ret. cbn.
  rewrite firstn_all2, skipn_all2 by exact Hshort.
  unfold memory_request_events, append_log, set_log. cbn.
  rewrite <- !app_assoc. reflexivity.
Qed.

Lemma interactiveLoop_loop_blank_lines (fuel : nat) :
  forall (k n : nat) (st : State),
    stdin st = repeat newline k -> k < n ->
    interactiveLoop_loop X fuel n st = Returned tt (set_stdin st []).
Proof.
  induction k as [| k IH]; intros n st Hin Hn.
  - destruct n; [lia |]. cbn [interactiveLoop_loop]. unfold bind, fgets.
    cbn in Hin. rewrite Hin. cbn. unfold ret. f_equal.
    destruct st; cbn in *; subst; reflexivity.
  - destruct n; [lia |]. cbn [interactiveLoop_loop]. unfold bind at 1, fgets.
    cbn [repeat] in Hin. rewrite Hin.
    change (1024 - 1) with 1023. cbn [read_line].
    rewrite Ascii.eqb_refl. cbn [hd]. rewrite Ascii.eqb_refl. rewrite bind_ret.
    rewrite (IH n (set_stdin st (repeat newline k))); [reflexivity | reflexivity | lia].
Qed.

(** X17. On an input that holds nothing but empty lines, also on an
    empty input, the interactive loop announces the program, flushes,
    reads the input to its end and returns: nothing is parsed and no
    error is raised. *)
Theorem interactive_blank_input
    (fuel k : nat) (st : State) :
  stdin st = repeat newline k ->
  interactiveLoop X fuel st
  = Returned tt
      (set_stdin (append_log st [EvFputs (program_line X); EvFflush]) []).
Proof.
  intros Hin. unfold interactiveLoop, fputs_stdout, fflush_stdout.
  rewrite bind_emit, bind_emit, append_log_app. cbn [app].
  rewrite (interactiveLoop_loop_blank_lines fuel k); [reflexivity | exact Hin |].
  cbn. rewrite Hin, repeat_length. lia.
Qed.

End InteractiveExtras.

(** ** Totals *)

Section TotalsExtras.

Variable dm : DataModel.

Lemma LONG_MAX_bounds : (0 < LONG_MAX dm < long_modulus dm)%Z.
Proof. destruct dm; unfold LONG_MAX, long_modulus, two32, two64; cbn; lia. Qed.

Lemma add_unsigned_long_exact (total amount : Z) :
  (0 <= total)%Z -> (0 <= amount)%Z -> (total + amount <= LONG_MAX dm)%Z ->
  add_unsigned_long dm total amount = (total + amount)%Z.
Proof.
  intros Ht Ha Hsum. pose proof LONG_MAX_bounds as Hb.
  unfold add_unsigned_long, to_unsigned_long, to_long.
  rewrite (Z.mod_small total) by lia.
  rewrite Z.mod_small by lia.
  destruct (Z.leb_spec (total + amount) (LONG_MAX dm)); lia.
Qed.

Lemma add_unsigned_int_exact (total amount : Z) :
  (0 <= total)%Z -> (0 <= amount)%Z -> (total + amount <= LONG_MAX dm)%Z ->
  add_unsigned_int dm total amount = Some (total + amount)%Z.
Proof.
  intros Ht Ha Hsum. unfold add_unsigned_int. destruct dm eqn:Hdm.
  - f_equal. rewrite <- Hdm. apply add_unsigned_long_exact; rewrite ?Hdm; auto.
  - destruct (Z.leb_spec (total + amount) (LONG_MAX LONG_IS_64_BITS)); [auto | lia].
Qed.

Lemma sums_nonnegative (calls : list (Z * Z * Z)) :
  Forall (call_in_range dm) calls ->
  (0 <= sum_files calls)%Z /\ (0 <= sum_lines calls)%Z /\ (0 <= sum_bytes calls)%Z.
Proof.
  unfold sum_files, sum_lines, sum_bytes.
  induction 1 as [| c rest (Hf & Hl & Hb) _ (IHf & IHl & IHb)];
    cbn [fold_right].
  - lia.
  - repeat split; lia.
Qed.

(** X18. As long as the three totals stay within [long], the calls of
    [addTotals] add up exactly, in either data model: from totals that
    are not negative, after any sequence of calls, each total is the
    total before plus the sum of what the calls passed, so no total ever
    decreases. What a call passes is a value of the type of its
    parameter: at most [UINT_MAX] files, lines and bytes within
    [unsigned long]. *)
Theorem addTotals_adds_up
    (Totals : Totals.t) (calls : list (Z * Z * Z)) :
  (0 <= Totals.files Totals)%Z ->
  (0 <= Totals.lines Totals)%Z ->
  (0 <= Totals.bytes Totals)%Z ->
  Forall (call_in_range dm) calls ->
  (Totals.files Totals + sum_files calls <= LONG_MAX dm)%Z ->
  (Totals.lines Totals + sum_lines calls <= LONG_MAX dm)%Z ->
  (Totals.bytes Totals + sum_bytes calls <= LONG_MAX dm)%Z ->
  addTotals_each dm Totals calls
  = Some (Totals.mk (Totals.files Totals + sum_files calls)
                    (Totals.lines Totals + sum_lines calls)
                    (Totals.bytes Totals + sum_bytes calls))
  /\ (Totals.files Totals <= Totals.files Totals + sum_files calls)%Z
  /\ (Totals.lines Totals <= Totals.lines Totals + sum_lines calls)%Z
  /\ (Totals.bytes Totals <= Totals.bytes Totals + sum_bytes calls)%Z.
Proof.
  intros Hf Hl Hb Hcalls. revert Totals Hf Hl Hb.
  induction Hcalls as [| [[f l] b] rest (Hcf & Hcl & Hcb) Hrest IH];
    intros T Hf Hl Hb Hsf Hsl Hsb.
  - cbn. rewrite !Z.add_0_r. destruct T; cbn. repeat split; lia.
  - cbn in Hcf, Hcl, Hcb.
    destruct (sums_nonnegative rest Hrest) as (Hrf & Hrl & Hrb).
    cbn [sum_files sum_lines sum_bytes fold_right fst snd] in *.
    fold (sum_files rest) in *. fold (sum_lines rest) in *.
    fold (sum_bytes rest) in *.
    cbn [addTotals_each]. unfold addTotals, to_unsigned_int, to_unsigned_long.
    unfold UINT_MAX in Hcf.
    rewrite (Z.mod_small f) by (unfold two32; lia).
    rewrite (Z.mod_small l), (Z.mod_small b) by lia.
    cbn zeta.
    rewrite add_unsigned_int_exact by lia.
    rewrite !add_unsigned_long_exact by lia.
    destruct (IH (Totals.mk (Totals.files T + f) (Totals.lines T + l)
                            (Totals.bytes T + b))) as (Heq & _);
      cbn; try lia.
    rewrite Heq. cbn. rewrite !Z.add_assoc. repeat split; lia.
Qed.

End TotalsExtras.

(** ** The environment sanitizer and wildcard arguments *)

Section SanitizerExtras.

Variable X : Collaborators.

(** X1. [isSafeVar] answers true for every entry, whatever its name: its
    loop steps through the characters of the first allowed name, and at
    the latest at the terminator of that name it compares zero characters
    and returns true. It never reads past the name and never returns
    false. *)
Theorem isSafeVar_accepts_everything (var : string) :
  isSafeVar var = Some true.
Proof.
  unfold isSafeVar. cbn [nth safe_vars]. apply isSafeVar_loop_true.
Qed.

(** X2. [sanitizeEnviron] leaves every environment as it is and reports
    nothing: whatever the entries are, with or without an environment
    table in the build, it returns in the state it was called in. *)
Theorem sanitizeEnviron_changes_nothing (st : State) :
  sanitizeEnviron X st = Returned tt st.
Proof.
  unfold sanitizeEnviron. destruct (HAVE_ENVIRON X); [| reflexivity].
  unfold bind. rewrite sanitizeEnviron_loop_unchanged.
  destruct st; reflexivity.
Qed.

(** X19. In a build with find-first, [createTagsForWildcardArg] classifies
    the matches of its pattern other than [.] and [..], each under the
    directory part of the pattern followed by the match, in the order
    found, and accumulates the verdicts by OR; the pattern is the argument,
    or the argument followed by the separator and [*.*] when recursion is
    enabled and the argument is [.] or [..]. An argument that matches
    nothing but [.] and [..] is passed over in silence: the result is
    false and the state is as before. *)
Theorem createTagsForWildcardArg_expands
    (fuel : nat) (arg : string) (st : State) :
  directoryIteration X = HAVE_FINDFIRST ->
  let pattern :=
    if recurse (Option st) && (strcmp_eq arg "." || strcmp_eq arg "..")
    then arg +++ String (OUTPUT_PATH_SEPARATOR X) "*.*" else arg in
  createTagsForWildcardArg X fuel arg st
  = dispatchChildren (createTagsForEntry X fuel)
      (map (wildcard_child X pattern)
           (List.filter not_dot_entry (findfirst X pattern)))
      false st
  /\ (Forall (fun name => is_dot_entry name = true) (findfirst X pattern) ->
      createTagsForWildcardArg X fuel arg st = Returned false st).
Proof.
  intros Hbuild pattern.
  assert (Heq : createTagsForWildcardArg X fuel arg st
                = dispatchChildren (createTagsForEntry X fuel)
                    (map (wildcard_child X pattern)
                         (List.filter not_dot_entry (findfirst X pattern)))
                    false st).
  { unfold createTagsForWildcardArg. rewrite Hbuild.
    unfold bind, getOption, createTagsForWildcardUsingFindfirst.
    fold (wildcard_pattern X arg). apply findnext_loop_dispatch. }
  split; [exact Heq |].
  intros Hdots. rewrite Heq.
  replace (List.filter not_dot_entry (findfirst X pattern)) with (@nil string);
    [reflexivity |].
  symmetry. clear Heq.
  induction Hdots as [| name rest Hname _ IH]; [reflexivity |].
  cbn [List.filter]. unfold not_dot_entry at 1. rewrite Hname. exact IH.
Qed.

End SanitizerExtras.

(** X19 on the working directory with recursion, on [subdir/*.*] and on a
    pattern that matches nothing. *)
Lemma createTagsForWildcardArg_expands_witness :
  createTagsForWildcardArg Sample.wildcard_world 3 "subdir/*.*"
    (Sample.start Sample.defaults)
  = dispatchChildren (createTagsForEntry Sample.wildcard_world 3)
      ["subdir/b.c"] false (Sample.start Sample.defaults) /\
  createTagsForWildcardArg Sample.wildcard_world 3 "."
    (Sample.start Sample.recursive)
  = Returned false (Sample.start Sample.recursive) /\
  createTagsForWildcardArg Sample.wildcard_world 3 "*.h"
    (Sample.start Sample.defaults)
  = Returned false (Sample.start Sample.defaults).
Proof.
  split; [| split].
  - exact (proj1 (createTagsForWildcardArg_expands Sample.wildcard_world 3
                    "subdir/*.*" (Sample.start Sample.defaults) eq_refl)).
  - refine (proj2 (createTagsForWildcardArg_expands Sample.wildcard_world 3
                     "." (Sample.start Sample.recursive) eq_refl) _).
    constructor.
  - refine (proj2 (createTagsForWildcardArg_expands Sample.wildcard_world 3
                     "*.h" (Sample.start Sample.defaults) eq_refl) _).
    constructor.
Defined.

(** ** The further properties on sample installations *)

(** X3 on the walk of the working directory. *)
Lemma createTagsForEntry_frame_witness :
  (true = true -> height_bounded Sample.world Sample.rank 2 /\ 2 < 3) /\
  well_formed (Sample.start Sample.recursive) /\
  match createTagsForEntry Sample.world 3 "." (Sample.start Sample.recursive) with
  | Returned r st' =>
      Option st' = Sample.recursive /\
      environ st' = [] /\
      stdin st' = [] /\
      recursionDepth st' = 0%Z /\
      exists delta,
        log st' = [] ++ delta /\
        Forall walker_event delta /\
        r = any_parse_true delta
  | OutOfFuel => true = false
  | Exited _ | Undefined => False
  end.
Proof.
  assert (H1 : true = true -> height_bounded Sample.world Sample.rank 2 /\ 2 < 3).
  { intros _. split; [now apply sample_rank_bounded | lia]. }
  assert (H2 : well_formed (Sample.start Sample.recursive))
    by (unfold well_formed, two32; cbn; lia).
  split; [exact H1 | split; [exact H2 |]].
  exact (createTagsForEntry_frame Sample.world true Sample.rank 2 3 "."
           (Sample.start Sample.recursive) H1 H2).
Defined.

(** X4 on the walk of the working directory: two files are parsed. *)
Lemma only_regular_files_are_parsed_witness :
  exists st' delta,
    createTagsForEntry Sample.world 3 "." (Sample.start Sample.recursive)
    = Returned true st' /\
    log st' = [] ++ delta /\
    In (EvParseFile "a.c" false) delta /\
    In (EvParseFile "subdir/b.c" true) delta /\
    forall name verdict,
      In (EvParseFile name verdict) delta ->
      (isExcludedFile Sample.world Sample.recursive name = false) /\
      (isSymbolicLink (eStat_result Sample.world name) = true ->
       followLinks Sample.recursive = true) /\
      (exists_ (eStat_result Sample.world name) = true) /\
      (isDirectory (eStat_result Sample.world name) = false) /\
      (isNormalFile (eStat_result Sample.world name) = true) /\
      (verdict = parseFile_result Sample.world Sample.recursive name).
Proof.
  destruct (createTagsForEntry Sample.world 3 "." (Sample.start Sample.recursive))
    as [r st' | | |] eqn:Hrun; try (cbv in Hrun; discriminate).
  destruct (only_regular_files_are_parsed Sample.world 3 "."
              (Sample.start Sample.recursive) st' r Hrun) as (delta & Hl & Hall).
  cbv in Hrun. injection Hrun as Hr Hst. subst r.
  exists st', delta. split; [reflexivity |]. split; [exact Hl |].
  rewrite <- Hst in Hl. cbn in Hl. subst delta.
  split; [cbn; tauto |]. split; [cbn; tauto |]. exact Hall.
Defined.

(** X5 in a file system without bottom, with a limit of three levels. *)
Lemma depth_limit_ends_walk_witness :
  well_formed (Sample.start Variants.three_levels) /\
  exists r st',
    createTagsForEntry Variants.maze 4 "top" (Sample.start Variants.three_levels)
    = Returned r st' /\
    recursionDepth st' = recursionDepth (Sample.start Variants.three_levels).
Proof.
  assert (Hwf : well_formed (Sample.start Variants.three_levels))
    by (unfold well_formed, two32; cbn; lia).
  split; [exact Hwf |].
  apply (depth_limit_ends_walk Variants.maze 4 "top"
           (Sample.start Variants.three_levels) Hwf); cbn; unfold UINT_MAX; lia.
Defined.

(** X6 with the counter at [UINT_MAX], where the increment wraps. *)
Lemma uint_max_limit_never_refuses_witness :
  recurseIntoDirectory Sample.world (createTagsForEntry Sample.world 3) "subdir"
    (set_recursionDepth (Sample.start Sample.recursive) UINT_MAX)
  = descend Sample.world (createTagsForEntry Sample.world 3) "subdir"
      (set_recursionDepth (Sample.start Sample.recursive) UINT_MAX).
Proof.
  exact (uint_max_limit_never_refuses Sample.world
           (createTagsForEntry Sample.world 3) "subdir"
           (set_recursionDepth (Sample.start Sample.recursive) UINT_MAX)
           eq_refl eq_refl eq_refl).
Defined.


(** X8 on the command line [a.c -R subdir]. *)
Lemma createTagsForArgs_consumes_cursor_witness :
  (true = true -> height_bounded Sample.world Sample.rank 2 /\ 2 < 3) /\
  match createTagsForArgs Sample.world 3 Sample.command_line
          (Sample.start Sample.defaults) with
  | Returned (r, args') st' =>
      cArgOff args' = true /\
      environ st' = [] /\
      recursionDepth st' = 0%Z /\
      exists delta,
        log st' = [] ++ delta /\
        Forall scan_event delta /\
        r = any_parse_true delta
  | Exited _ => True
  | Undefined => False
  | OutOfFuel => true = false
  end.
Proof.
  assert (H1 : true = true -> height_bounded Sample.world Sample.rank 2 /\ 2 < 3).
  { intros _. split; [now apply sample_rank_bounded | lia]. }
  assert (H2 : well_formed (Sample.start Sample.defaults))
    by (unfold well_formed, two32; cbn; lia).
  split; [exact H1 |].
  exact (createTagsForArgs_consumes_cursor Sample.world true Sample.rank 2 3
           Sample.command_line (Sample.start Sample.defaults) H1 H2).
Defined.

(** X9 on the command line [a.c -R subdir]. *)
Lemma manual_globbing_without_findfirst_ignores_arguments_witness :
  MANUAL_GLOBBING Variants.globbing_world = true /\
  directoryIteration Variants.globbing_world <> HAVE_FINDFIRST /\
  exists opt',
    createTagsForArgs Variants.globbing_world 3 Sample.command_line
      (Sample.start Sample.defaults)
    = Returned (false, []) (set_Option (Sample.start Sample.defaults) opt').
Proof.
  assert (H : directoryIteration Variants.globbing_world <> HAVE_FINDFIRST)
    by discriminate.
  split; [reflexivity | split; [exact H |]].
  exact (manual_globbing_without_findfirst_ignores_arguments
           Variants.globbing_world 3 Sample.command_line
           (Sample.start Sample.defaults) eq_refl H).
Defined.

(** X10 on the sample list file and its content on standard input. *)
Lemma list_file_dash_is_stdin_witness :
  fopen Sample.world "files.lst" = Some (stdin Variants.list_on_stdin) /\
  createTagsFromListFile Sample.world 3 "-" Variants.list_on_stdin
  = outcome_map (fun s => set_stdin s [])
      (createTagsFromListFile Sample.world 3 "files.lst" Variants.list_on_stdin).
Proof.
  split; [reflexivity |].
  exact (list_file_dash_is_stdin Sample.world 3 "files.lst"
           Variants.list_on_stdin eq_refl eq_refl).
Defined.

(** X11 on a list file that does not exist. *)
Lemma batch_with_unreadable_list_file_witness :
  fopen Sample.world "missing.lst" = None /\
  batchMakeTags Sample.world 3 [] (Sample.start Variants.with_missing_list)
  = Exited (append_log (Sample.start Variants.with_missing_list)
              [EvOpenTagFile; reading_list_file_event;
               cannot_open_list_file_event "missing.lst"]).
Proof.
  split; [reflexivity |].
  exact (proj2 (batch_with_unreadable_list_file Sample.world 3 [] "missing.lst"
                  (Sample.start Variants.with_missing_list)
                  eq_refl eq_refl eq_refl eq_refl)).
Defined.

(** X12 on etags output with an include. *)
Lemma batch_with_etags_include_only_witness :
  no_file_source [] Variants.with_etags_include /\
  batchMakeTags Sample.listing_world 3 []
    (Sample.start Variants.with_etags_include)
  = Returned []
      (append_log (Sample.start Variants.with_etags_include)
         [EvOpenTagFile; EvCloseTagFile false; EvPrintTotals]).
Proof.
  assert (H : no_file_source [] Variants.with_etags_include)
    by (repeat split; reflexivity).
  split; [exact H |].
  exact (batch_with_etags_include_only Sample.listing_world 3 []
           (Sample.start Variants.with_etags_include) H eq_refl eq_refl eq_refl).
Defined.

(** X13 on a request for [subdir/b.c], whose parse asks for a resize. *)
Lemma interactive_disk_request_witness :
  json_loads Variants.protocol_world
    (c_str (list_ascii_of_string Variants.disk_text))
  = Some Variants.disk_value /\
  match interactiveRequest Variants.protocol_world 3
          (list_ascii_of_string Variants.disk_text)
          (Sample.start Sample.defaults) with
  | Returned _ st' =>
      exists r st1,
        createTagsForEntry Variants.protocol_world 3 "subdir/b.c"
          (append_log (Sample.start Sample.defaults) [EvOpenTagFile])
        = Returned r st1 /\
        st' = append_log st1 disk_request_closing
  | OutOfFuel => true = false
  | Exited _ | Undefined => False
  end.
Proof.
  assert (H1 : true = true ->
               height_bounded Variants.protocol_world Sample.rank 2 /\ 2 < 3).
  { intros _. split; [| lia].
    exact (sample_rank_bounded HAVE_OPENDIR (fun opt => negb (recurse opt)) eq_refl). }
  assert (H2 : well_formed (Sample.start Sample.defaults))
    by (unfold well_formed, two32; cbn; lia).
  split; [reflexivity |].
  refine (interactive_disk_request Variants.protocol_world true Sample.rank 2 3
            (list_ascii_of_string Variants.disk_text) Variants.disk_value
            "subdir/b.c" (Sample.start Sample.defaults) H1 H2
            eq_refl eq_refl eq_refl _).
  intros i H. discriminate H.
Defined.

(** X14 on a line without command, a line that holds an array, a line
    with another command and a line without file name. *)
Lemma interactive_malformed_request_witness :
  interactiveRequest Variants.protocol_world 3
    (list_ascii_of_string Variants.no_command_text) (Sample.start Sample.defaults)
  = Exited (append_log (Sample.start Sample.defaults) [command_not_found_event]) /\
  interactiveRequest Variants.protocol_world 3
    (list_ascii_of_string Variants.array_text) (Sample.start Sample.defaults)
  = Exited (append_log (Sample.start Sample.defaults) [command_not_found_event]) /\
  interactiveRequest Variants.protocol_world 3
    (list_ascii_of_string Variants.quit_text) (Sample.start Sample.defaults)
  = Exited (append_log (Sample.start Sample.defaults) [unknown_command_event]) /\
  interactiveRequest Variants.protocol_world 3
    (list_ascii_of_string Variants.no_filename_text) (Sample.start Sample.defaults)
  = Exited (append_log (Sample.start Sample.defaults) [invalid_request_event]).
Proof.
  split; [| split; [| split]].
  - exact (proj1 (interactive_malformed_request Variants.protocol_world 3
                    (list_ascii_of_string Variants.no_command_text)
                    Variants.no_command_value (Sample.start Sample.defaults)
                    eq_refl) eq_refl).
  - exact (proj1 (interactive_malformed_request Variants.protocol_world 3
                    (list_ascii_of_string Variants.array_text)
                    Variants.array_value (Sample.start Sample.defaults)
                    eq_refl) eq_refl).
  - refine (proj1 (proj2 (interactive_malformed_request Variants.protocol_world 3
                            (list_ascii_of_string Variants.quit_text)
                            Variants.quit_value (Sample.start Sample.defaults)
                            eq_refl)) "quit" eq_refl _).
    discriminate.
  - refine (proj2 (proj2 (interactive_malformed_request Variants.protocol_world 3
                            (list_ascii_of_string Variants.no_filename_text)
                            Variants.no_filename_value (Sample.start Sample.defaults)
                            eq_refl)) eq_refl _).
    intros filename H. discriminate H.
Defined.

(** X15 on a line whose command is the number five. *)
Lemma interactive_command_not_a_string_witness :
  json_object_get Variants.number_value "command" = Some (JInteger 5) /\
  interactiveRequest Variants.protocol_world 3
    (list_ascii_of_string Variants.number_text) (Sample.start Sample.defaults)
  = Undefined.
Proof.
  split; [reflexivity |].
  refine (interactive_command_not_a_string Variants.protocol_world 3
            (list_ascii_of_string Variants.number_text) Variants.number_value
            (JInteger 5) (Sample.start Sample.defaults) eq_refl eq_refl _).
  intros name H. discriminate H.
Defined.

(** X16 on a request for ten bytes with three bytes left. *)
Lemma memory_request_with_short_input_witness :
  malloc Sample.world 10 = true /\
  List.length (stdin Variants.three_bytes) <= Z.to_nat 10 /\
  interactiveRequest Sample.world 3 (list_ascii_of_string Sample.request_text)
    Variants.three_bytes
  = Returned tt
      (append_log (set_stdin Variants.three_bytes [])
         (memory_request_events "x.c" (list_ascii_of_string "abc"))).
Proof.
  assert (H : List.length (stdin Variants.three_bytes) <= Z.to_nat 10)
    by (cbn; lia).
  split; [reflexivity | split; [exact H |]].
  refine (memory_request_with_short_input Sample.world 3
            (list_ascii_of_string Sample.request_text) Sample.request_value
            "x.c" 10 Variants.three_bytes eq_refl eq_refl eq_refl eq_refl _
            eq_refl H).
  split; [discriminate | reflexivity].
Defined.

(** X17 on two empty lines. *)
Lemma interactive_blank_input_witness :
  interactiveLoop Sample.world 3
    (set_stdin (Sample.start Sample.defaults) [newline; newline])
  = Returned tt
      (set_stdin
         (append_log (set_stdin (Sample.start Sample.defaults) [newline; newline])
            [EvFputs (program_line Sample.world); EvFflush]) []).
Proof.
  exact (interactive_blank_input Sample.world 3 2
           (set_stdin (Sample.start Sample.defaults) [newline; newline]) eq_refl).
Defined.

(** X18 on two parsed files. *)
Lemma addTotals_adds_up_witness :
  addTotals_each LONG_IS_64_BITS Totals.initial [(1, 120, 4096); (1, 30, 1024)]%Z
  = Some (Totals.mk 2 150 5120) /\
  addTotals_each LONG_IS_32_BITS Totals.initial [(1, 120, 4096); (1, 30, 1024)]%Z
  = Some (Totals.mk 2 150 5120).
Proof.
  assert (Hcalls : forall dm,
             Forall (call_in_range dm) [(1, 120, 4096); (1, 30, 1024)]%Z).
  { intros dm.
    assert (Hm : (4294967296 <= long_modulus dm)%Z)
      by (destruct dm; unfold long_modulus, two32, two64; lia).
    repeat apply Forall_cons; [| | apply Forall_nil];
      unfold call_in_range, UINT_MAX; cbn [fst snd]; lia. }
  split.
  - refine (proj1 (addTotals_adds_up LONG_IS_64_BITS Totals.initial
                     [(1, 120, 4096); (1, 30, 1024)]%Z _ _ _ (Hcalls _) _ _ _));
      cbn; unfold LONG_MAX; cbn; lia.
  - refine (proj1 (addTotals_adds_up LONG_IS_32_BITS Totals.initial
                     [(1, 120, 4096); (1, 30, 1024)]%Z _ _ _ (Hcalls _) _ _ _));
      cbn; unfold LONG_MAX; cbn; lia.
Defined.
